(** * Working-sheet extractor: document model and F42 workbook handler

    A shallow embedding of [lib/pdf_document_object_model.py] and of
    [lib/workbooks/F42_Beltz_TT_Zwangsstörungen_Fricke.py].

    Conventions of the embedding:
    - a Python [str] is a [string] whose characters are the code points
      0..255 (the Latin-1 range); code points above 255 are outside the
      model, so the two dashes U+2013 and U+2014 that some character sets
      of the source mention have no counterpart here;
    - a Python [int] is a [Z];
    - a Python [dict] is an insertion-ordered association list with
      unique keys ([odict]);
    - the patterns handed to [re] are values of [regex], run by a
      backtracking matcher with the priorities of Python's engine
      (leftmost match, greedy and lazy quantifiers, alternatives tried
      left to right);
    - logging calls are dropped, except the warnings of [from_dict]. *)

From Stdlib Require Import ZArith NArith List String Ascii Bool Lia.
From Stdlib Require Import Sorted Permutation DecimalString DecimalZ DecimalPos DecimalN DecimalNat Decimal.
Import ListNotations.
Open Scope string_scope.
Open Scope Z_scope.

(** ** Characters and strings *)

Module PyStr.

Definition code (c : ascii) : N := N_of_ascii c.

Definition in_range (lo hi : N) (c : ascii) : bool :=
  (N.leb lo (code c) && N.leb (code c) hi)%bool.

(** [str.isspace] on one character, which is also [\s] of [re]. *)
Definition is_space (c : ascii) : bool :=
  (in_range 9 13 c || in_range 28 32 c || N.eqb (code c) 133 || N.eqb (code c) 160)%bool.

(** [\d] of [re]: the decimal digits. *)
Definition is_digit (c : ascii) : bool := in_range 48 57 c.

(** [\w] of [re]: [str.isalnum] or the underscore. *)
Definition is_word (c : ascii) : bool :=
  (in_range 48 57 c || in_range 65 90 c || in_range 97 122 c || N.eqb (code c) 95
   || N.eqb (code c) 170 || N.eqb (code c) 178 || N.eqb (code c) 179
   || N.eqb (code c) 181 || N.eqb (code c) 185 || N.eqb (code c) 186
   || in_range 188 190 c || in_range 192 214 c || in_range 216 246 c
   || in_range 248 255 c)%bool.

(** [[\x00-\x1f\x7f]] *)
Definition is_control (c : ascii) : bool :=
  (in_range 0 31 c || N.eqb (code c) 127)%bool.

(** [.] without DOTALL. *)
Definition is_dot (c : ascii) : bool := negb (N.eqb (code c) 10).

Definition lower_char (c : ascii) : ascii :=
  if (in_range 65 90 c || (in_range 192 222 c && negb (N.eqb (code c) 215)))%bool
  then ascii_of_N (code c + 32) else c.

Fixpoint lower (s : string) : string :=
  match s with
  | EmptyString => EmptyString
  | String c t => String (lower_char c) (lower t)
  end.

Fixpoint rev_onto (s acc : string) : string :=
  match s with
  | EmptyString => acc
  | String c t => rev_onto t (String c acc)
  end.

Definition rev (s : string) : string := rev_onto s EmptyString.

Fixpoint lstrip_by (p : ascii -> bool) (s : string) : string :=
  match s with
  | EmptyString => EmptyString
  | String c t => if p c then lstrip_by p t else s
  end.

Definition strip_by (p : ascii -> bool) (s : string) : string :=
  rev (lstrip_by p (rev (lstrip_by p s))).

(** [s.strip()] *)
Definition strip (s : string) : string := strip_by is_space s.

Fixpoint mem_char (c : ascii) (chars : string) : bool :=
  match chars with
  | EmptyString => false
  | String d t => (Ascii.eqb c d || mem_char c t)%bool
  end.

(** [s.strip(chars)] *)
Definition strip_chars (chars s : string) : string :=
  strip_by (fun c => mem_char c chars) s.

Fixpoint forallb_str (p : ascii -> bool) (s : string) : bool :=
  match s with
  | EmptyString => true
  | String c t => (p c && forallb_str p t)%bool
  end.

(** [s.replace(old, new)] for a one-character [old]. *)
Fixpoint replace_char (old : ascii) (new : string) (s : string) : string :=
  match s with
  | EmptyString => EmptyString
  | String c t =>
      if Ascii.eqb c old then new ++ replace_char old new t
      else String c (replace_char old new t)
  end.

(** [needle in hay] *)
Fixpoint contains (needle hay : string) : bool :=
  if prefix needle hay then true
  else match hay with
       | EmptyString => false
       | String _ t => contains needle t
       end.

(** [sep.join(parts)] *)
Fixpoint join (sep : string) (parts : list string) : string :=
  match parts with
  | [] => EmptyString
  | [p] => p
  | p :: rest => p ++ sep ++ join sep rest
  end.

(** [s[a:b]] for [0 <= a]. *)
Definition slice (a b : nat) (s : string) : string := substring a (b - a) s.

(** Line boundaries of [str.splitlines] among the code points 0..255. *)
Definition is_linebreak (c : ascii) : bool :=
  (in_range 10 13 c || in_range 28 30 c || N.eqb (code c) 133)%bool.

(** [s.splitlines()]: [cur] is the current line, reversed; [started]
    says whether a line is open. *)
Fixpoint splitlines_aux (s cur : string) (started : bool) : list string :=
  match s with
  | EmptyString => if started then [rev cur] else []
  | String c t =>
      if is_linebreak c then
        match t with
        | String d u =>
            if (N.eqb (code c) 13 && N.eqb (code d) 10)%bool
            then rev cur :: splitlines_aux u EmptyString false
            else rev cur :: splitlines_aux t EmptyString false
        | EmptyString => [rev cur]
        end
      else splitlines_aux t (String c cur) true
  end.

Definition splitlines (s : string) : list string :=
  splitlines_aux s EmptyString false.

End PyStr.

(** ** Regular expressions as [re] runs them *)

Module Re.

Import PyStr.

(** The fragment of pattern syntax the source uses.  Quantifiers apply to
    one character class, as they do in every pattern of the source;
    [(?:r)?] is [Opt r]. *)
Inductive regex : Type :=
| Eps
| Cls (p : ascii -> bool)
| Seq (r1 r2 : regex)
| Alt (r1 r2 : regex)
| Rep (p : ascii -> bool) (lo : nat) (hi : option nat) (greedy : bool)
| Grp (n : nat) (r : regex)
| WordB
| Bos
| Eos.

Definition Opt (r : regex) : regex := Alt r Eps.
Definition Star (p : ascii -> bool) : regex := Rep p 0 None true.
Definition Plus (p : ascii -> bool) : regex := Rep p 1 None true.

Fixpoint seqs (rs : list regex) : regex :=
  match rs with
  | [] => Eps
  | [r] => r
  | r :: rest => Seq r (seqs rest)
  end.

Definition chr (c : ascii) : regex := Cls (Ascii.eqb c).
(** One literal character under IGNORECASE. *)
Definition chr_i (c : ascii) : regex :=
  Cls (fun d => Ascii.eqb (lower_char d) (lower_char c)).

Fixpoint lit (s : string) : regex :=
  match s with
  | EmptyString => Eps
  | String c EmptyString => chr c
  | String c t => Seq (chr c) (lit t)
  end.

Fixpoint lit_i (s : string) : regex :=
  match s with
  | EmptyString => Eps
  | String c EmptyString => chr_i c
  | String c t => Seq (chr_i c) (lit_i t)
  end.

(** Matcher state: the character before the cursor, the text after it,
    the cursor as an index, and the spans of the groups closed so far
    (most recent first). *)
Record mstate : Type := MState {
  prev : option ascii;
  rest : string;
  pos : nat;
  caps : list (nat * (nat * nat))
}.

Definition is_word_opt (o : option ascii) : bool :=
  match o with Some c => is_word c | None => false end.

Definition next_char (s : string) : option ascii :=
  match s with String c _ => Some c | EmptyString => None end.

(** [\b] *)
Definition at_word_boundary (st : mstate) : bool :=
  xorb (is_word_opt (prev st)) (is_word_opt (next_char (rest st))).

(** [$] without MULTILINE: the end, or just before a final newline. *)
Definition at_end (st : mstate) : bool :=
  match rest st with
  | EmptyString => true
  | String c EmptyString => N.eqb (code c) 10
  | _ => false
  end.

Definition hi_allows (hi : option nat) : bool :=
  match hi with Some O => false | _ => true end.

Definition hi_pred (hi : option nat) : option nat :=
  match hi with Some n => Some (Nat.pred n) | None => None end.

Definition orelse {A} (a : option A) (b : unit -> option A) : option A :=
  match a with Some x => Some x | None => b tt end.

(** A quantified character class: between [lo] and [hi] characters of
    class [p], the longest run first when greedy, the shortest first when
    lazy; [k] is the rest of the pattern. *)
Fixpoint rep (p : ascii -> bool) (greedy : bool) (lo : nat) (hi : option nat)
    (cs : list (nat * (nat * nat))) (pv : option ascii) (s : string) (i : nat)
    (k : mstate -> option mstate) {struct s} : option mstate :=
  let stop := fun _ : unit =>
    match lo with
    | O => k (MState pv s i cs)
    | S _ => None
    end in
  let more := fun _ : unit =>
    match s with
    | String c t =>
        if (p c && hi_allows hi)%bool
        then rep p greedy (Nat.pred lo) (hi_pred hi) cs (Some c) t (S i) k
        else None
    | EmptyString => None
    end in
  if greedy then orelse (more tt) stop else orelse (stop tt) more.

Fixpoint rmatch (r : regex) (st : mstate) (k : mstate -> option mstate)
    {struct r} : option mstate :=
  match r with
  | Eps => k st
  | Cls p =>
      match rest st with
      | String c t => if p c then k (MState (Some c) t (S (pos st)) (caps st)) else None
      | EmptyString => None
      end
  | Seq r1 r2 => rmatch r1 st (fun st1 => rmatch r2 st1 k)
  | Alt r1 r2 => orelse (rmatch r1 st k) (fun _ => rmatch r2 st k)
  | Rep p lo hi greedy => rep p greedy lo hi (caps st) (prev st) (rest st) (pos st) k
  | Grp n r1 =>
      rmatch r1 st (fun st1 =>
        k (MState (prev st1) (rest st1) (pos st1)
                  ((n, (pos st, pos st1)) :: caps st1)))
  | WordB => if at_word_boundary st then k st else None
  | Bos => if Nat.eqb (pos st) 0 then k st else None
  | Eos => if at_end st then k st else None
  end.

(** A match object: the subject, the span of the match, the group spans,
    and the matcher state at the end of the match. *)
Record rematch : Type := ReMatch {
  subject : string;
  m_start : nat;
  m_end : nat;
  m_caps : list (nat * (nat * nat));
  m_after : mstate
}.

Definition fresh (st : mstate) : mstate :=
  MState (prev st) (rest st) (pos st) [].

Definition match_here (r : regex) (subj : string) (st : mstate) : option rematch :=
  match rmatch r (fresh st) (fun st' => Some st') with
  | Some st' => Some (ReMatch subj (pos st) (pos st') (caps st') st')
  | None => None
  end.

(** The leftmost match that starts at the cursor or after it. *)
Fixpoint search_in (r : regex) (subj : string) (pv : option ascii) (s : string)
    (i : nat) {struct s} : option rematch :=
  match match_here r subj (MState pv s i []) with
  | Some m => Some m
  | None =>
      match s with
      | String c t => search_in r subj (Some c) t (S i)
      | EmptyString => None
      end
  end.

Definition search_from (r : regex) (subj : string) (st : mstate) : option rematch :=
  search_in r subj (prev st) (rest st) (pos st).

(** [re.search(r, s)] *)
Definition search (r : regex) (s : string) : option rematch :=
  search_in r s None s 0.

Definition step_over (st : mstate) : option mstate :=
  match rest st with
  | String c t => Some (MState (Some c) t (S (pos st)) [])
  | EmptyString => None
  end.

(** [re.finditer(r, s)]: the next search starts where the last match
    ended, one character further after an empty match. *)
Fixpoint finditer_from (fuel : nat) (r : regex) (subj : string) (st : mstate)
    : list rematch :=
  match fuel with
  | O => []
  | S fuel' =>
      match search_from r subj st with
      | None => []
      | Some m =>
          m :: (if Nat.ltb (m_start m) (m_end m)
                then finditer_from fuel' r subj (m_after m)
                else match step_over (m_after m) with
                     | Some st' => finditer_from fuel' r subj st'
                     | None => []
                     end)
      end
  end.

Definition finditer (r : regex) (s : string) : list rematch :=
  finditer_from (S (String.length s)) r s (MState None s 0 []).

Fixpoint span_of (n : nat) (cs : list (nat * (nat * nat))) : option (nat * nat) :=
  match cs with
  | [] => None
  | (g, sp) :: t => if Nat.eqb g n then Some sp else span_of n t
  end.

(** [m.group(n)] for [n >= 1]; a group that took no part gives [None]. *)
Definition group (m : rematch) (n : nat) : option string :=
  match span_of n (m_caps m) with
  | Some (a, b) => Some (slice a b (subject m))
  | None => None
  end.

(** [m.group(n) or ""] *)
Definition group_or_empty (m : rematch) (n : nat) : string :=
  match group m n with Some g => g | None => EmptyString end.

Fixpoint sub_pieces (repl subj : string) (from : nat) (ms : list rematch) : string :=
  match ms with
  | [] => slice from (String.length subj) subj
  | m :: t => slice from (m_start m) subj ++ repl ++ sub_pieces repl subj (m_end m) t
  end.

(** [re.sub(r, repl, s)] for a literal [repl]. *)
Definition sub (r : regex) (repl s : string) : string :=
  sub_pieces repl s 0 (finditer r s).

(** [re.findall(r, s)] for a pattern without groups. *)
Definition findall (r : regex) (s : string) : list string :=
  map (fun m => slice (m_start m) (m_end m) s) (finditer r s).

End Re.

(** ** Python values *)

Module Py.

Import PyStr.

(** Hashable values: what can be a dictionary key. *)
Inductive scalar : Type :=
| SNone
| SInt (z : Z)
| SStr (s : string).

(** Values as [json]-like data: scalars, lists and dictionaries. *)
Inductive pyval : Type :=
| Atom (a : scalar)
| PList (l : list pyval)
| PDict (d : list (scalar * pyval)).

(** What a call gives: a value, or the exception it raises. *)
Inductive pyexc : Type := TypeError | ValueError.

Inductive outcome (A : Type) : Type :=
| Ok (a : A)
| Raise (e : pyexc).
Arguments Ok {A} a.
Arguments Raise {A} e.

Definition bind {A B} (o : outcome A) (f : A -> outcome B) : outcome B :=
  match o with
  | Ok a => f a
  | Raise e => Raise e
  end.

(** Digits with single underscores between them, as [int] accepts. *)
Fixpoint digits_ok (s : string) (after_digit : bool) : bool :=
  match s with
  | EmptyString => after_digit
  | String c t =>
      if is_digit c then digits_ok t true
      else if Ascii.eqb c "_" then (after_digit && digits_ok t false)%bool
      else false
  end.

Fixpoint drop_underscores (s : string) : string :=
  match s with
  | EmptyString => EmptyString
  | String c t =>
      if Ascii.eqb c "_" then drop_underscores t else String c (drop_underscores t)
  end.

Definition unsigned_of_str (body : string) : option Z :=
  if digits_ok body false then
    match NilEmpty.uint_of_string (drop_underscores body) with
    | Some d => Some (Z.of_uint d)
    | None => None
    end
  else None.

(** The blanks that [int] skips around a number: those of [str.isspace]
    without the separators 28 to 31. *)
Definition is_int_space (c : ascii) : bool :=
  (in_range 9 13 c || N.eqb (code c) 32 || N.eqb (code c) 133 || N.eqb (code c) 160)%bool.

(** [int(s)] for a string: [None] stands for ValueError.  The optional
    limit of the interpreter on the number of digits is not modelled. *)
Definition int_of_str (s : string) : option Z :=
  match strip_by is_int_space s with
  | String c body =>
      if Ascii.eqb c "+" then unsigned_of_str body
      else if Ascii.eqb c "-" then option_map Z.opp (unsigned_of_str body)
      else unsigned_of_str (String c body)
  | EmptyString => None
  end.

(** [str(z)] for an integer. *)
Definition str_of_int (z : Z) : string := NilEmpty.string_of_int (Z.to_int z).

(** [str(a)] for a scalar. *)
Definition py_str (a : scalar) : string :=
  match a with
  | SNone => "None"
  | SInt z => str_of_int z
  | SStr s => s
  end.

(** [int(v)]: [None] stands for the exception ([int(None)] and [int] of a
    list or of a dictionary raise TypeError, [int] of a malformed string
    raises ValueError). *)
Definition py_int (v : pyval) : option Z :=
  match v with
  | Atom (SInt z) => Some z
  | Atom (SStr s) => int_of_str s
  | _ => None
  end.

(** Truth value of [v]. *)
Definition truthy (v : pyval) : bool :=
  match v with
  | Atom SNone => false
  | Atom (SInt z) => negb (Z.eqb z 0)
  | Atom (SStr s) => negb (String.eqb s EmptyString)
  | PList l => match l with [] => false | _ => true end
  | PDict d => match d with [] => false | _ => true end
  end.

Fixpoint chars_of (s : string) : list pyval :=
  match s with
  | EmptyString => []
  | String c t => Atom (SStr (String c EmptyString)) :: chars_of t
  end.

(** [iter(v)] run to the end: [None] stands for TypeError. *)
Definition py_iter (v : pyval) : option (list pyval) :=
  match v with
  | PList l => Some l
  | PDict d => Some (map (fun kv => Atom (fst kv)) d)
  | Atom (SStr s) => Some (chars_of s)
  | Atom _ => None
  end.

Definition is_dict (v : pyval) : bool :=
  match v with PDict _ => true | _ => false end.

(** [d.get(key)] for a string [key]. *)
Fixpoint dict_get_str (key : string) (d : list (scalar * pyval)) : option pyval :=
  match d with
  | [] => None
  | (SStr k, v) :: t => if String.eqb k key then Some v else dict_get_str key t
  | _ :: t => dict_get_str key t
  end.

End Py.

(** ** Insertion-ordered dictionaries *)

Module ODict.

Section Defs.
Context {K V : Type} (eqb : K -> K -> bool).

Definition odict : Type := list (K * V).

(** [d.get(k)] *)
Fixpoint get (k : K) (d : odict) : option V :=
  match d with
  | [] => None
  | (k', v) :: t => if eqb k k' then Some v else get k t
  end.

(** [d[k] = v]: in place for a key already there, at the end for a
    new one. *)
Fixpoint set (k : K) (v : V) (d : odict) : odict :=
  match d with
  | [] => [(k, v)]
  | (k', v') :: t => if eqb k k' then (k', v) :: t else (k', v') :: set k v t
  end.

Definition mem (k : K) (d : odict) : bool :=
  match get k d with Some _ => true | None => false end.

Definition keys (d : odict) : list K := map fst d.
Definition values (d : odict) : list V := map snd d.
End Defs.

Arguments odict : clear implicits.

End ODict.

(** ** The document model, [lib/pdf_document_object_model.py] *)

Import PyStr Re Py.

Abbreviation odict := ODict.odict.

Definition sheets : Type := odict Z (odict string (list Z)).

Record PdfDocument : Type := mkPdfDocument {
  pdf_filename : string;
  pdf_path : string;
  working_sheets : sheets
}.

(** [sorted(l)] on integers. *)
Fixpoint insert_sorted (x : Z) (l : list Z) : list Z :=
  match l with
  | [] => [x]
  | y :: t => if x <=? y then x :: l else y :: insert_sorted x t
  end.

Fixpoint sorted (l : list Z) : list Z :=
  match l with
  | [] => []
  | x :: t => insert_sorted x (sorted t)
  end.

(** [dict.fromkeys(l)], then its keys in order. *)
Definition add_key (d : odict Z unit) (k : Z) : odict Z unit :=
  ODict.set Z.eqb k tt d.

Definition dict_fromkeys (l : list Z) : odict Z unit :=
  fold_left add_key l [].

Definition sorted_fromkeys (l : list Z) : list Z :=
  sorted (ODict.keys (dict_fromkeys l)).

(** [PdfDocument._normalize_pages] *)
Fixpoint positive_ints (pages : list pyval) : list Z :=
  match pages with
  | [] => []
  | p :: t =>
      match py_int p with
      | None => positive_ints t
      | Some pi => if 0 <? pi then pi :: positive_ints t else positive_ints t
      end
  end.

Definition _normalize_pages (pages : list pyval) : list Z :=
  sorted_fromkeys (positive_ints pages).

(** [^\s*(\d+)] *)
Definition leading_digits_re : regex :=
  seqs [Bos; Star is_space; Grp 1 (Plus is_digit)].

Definition coerce_str (raw : string) : Z :=
  let s := strip raw in
  if String.eqb s EmptyString then 0
  else match int_of_str s with
       | Some z => z
       | None =>
           match match_here leading_digits_re s (MState None s 0 []) with
           | Some m =>
               match int_of_str (group_or_empty m 1) with
               | Some z => z
               | None => 0
               end
           | None => 0
           end
       end.

(** [PdfDocument._coerce_id_to_int].  The text of a list or of a
    dictionary starts with a bracket or a brace, so [int] rejects it and
    the leading-digit pattern does not match: the result is 0. *)
Definition _coerce_id_to_int (id_value : pyval) : Z :=
  match id_value with
  | Atom SNone => 0
  | Atom (SInt z) => z
  | Atom (SStr s) => coerce_str s
  | PList _ | PDict _ => 0
  end.

Definition bucket_of (ws : sheets) (id_key : Z) : odict string (list Z) :=
  match ODict.get Z.eqb id_key ws with
  | Some b => b
  | None => []
  end.

(** [PdfDocument.add_working_sheet] *)
Definition add_working_sheet (self : PdfDocument) (id_ : pyval) (name : string)
    (pages : list pyval) : PdfDocument :=
  if String.eqb name EmptyString then self
  else
    let id_key := _coerce_id_to_int id_ in
    let new_pages := _normalize_pages pages in
    let bucket := bucket_of (working_sheets self) id_key in
    let stored :=
      match ODict.get String.eqb name bucket with
      | Some existing => sorted_fromkeys (existing ++ new_pages)
      | None => new_pages
      end in
    mkPdfDocument (pdf_filename self) (pdf_path self)
      (ODict.set Z.eqb id_key (ODict.set String.eqb name stored bucket)
         (working_sheets self)).

(** [PdfDocument.get_pages] *)
Definition get_pages (self : PdfDocument) (id_ : pyval) (name : string) : list Z :=
  match ODict.get String.eqb name
          (bucket_of (working_sheets self) (_coerce_id_to_int id_)) with
  | Some ps => ps
  | None => []
  end.

(** The entry stored under [(id_key, name)], if any. *)
Definition entry (ws : sheets) (id_key : Z) (name : string) : option (list Z) :=
  match ODict.get Z.eqb id_key ws with
  | Some b => ODict.get String.eqb name b
  | None => None
  end.

Definition int_list (ps : list Z) : pyval := PList (map (fun p => Atom (SInt p)) ps).

(** [PdfDocument.to_dict] *)
Definition serialize_names (names : odict string (list Z)) : pyval :=
  PDict (map (fun np => (SStr (fst np), int_list (snd np))) names).

Definition serialize_sheets (ws : sheets) : pyval :=
  PDict (map (fun kn => (SStr (str_of_int (fst kn)), serialize_names (snd kn))) ws).

Definition to_dict (self : PdfDocument) : list (scalar * pyval) :=
  [ (SStr "pdf_filename", Atom (SStr (pdf_filename self)));
    (SStr "pdf_path", Atom (SStr (pdf_path self)));
    (SStr "working_sheets", serialize_sheets (working_sheets self)) ].

(** Warnings that [from_dict] logs. *)
Inductive warning : Type :=
| WarnNotDict (ws : pyval)
| WarnSkipped (raw_id_key : scalar) (val : pyval).

(** [str(v)]; the text of a list or of a dictionary is not modelled, a
    fixed text stands for it (only the two file-name fields use it). *)
Definition str_of_val (v : pyval) : string :=
  match v with
  | Atom a => py_str a
  | PList _ => "[...]"
  | PDict _ => "{...}"
  end.

(** The elements that [for p in pages or []] visits. *)
Definition iter_or_empty (pages : pyval) : outcome (list pyval) :=
  if truthy pages then
    match py_iter pages with
    | Some l => Ok l
    | None => Raise TypeError
    end
  else Ok [].

(** The inner loop of [from_dict], over [val.items()]. *)
Fixpoint load_names (id_key : Z) (items : list (scalar * pyval)) (ws : sheets)
    : outcome sheets :=
  match items with
  | [] => Ok ws
  | (name, pages) :: t =>
      bind (iter_or_empty pages) (fun l =>
        match _normalize_pages l with
        | [] => load_names id_key t ws
        | norm_pages =>
            load_names id_key t
              (ODict.set Z.eqb id_key
                 (ODict.set String.eqb (py_str name) norm_pages (bucket_of ws id_key))
                 ws)
        end)
  end.

(** The outer loop of [from_dict], over [ws.items()]. *)
Fixpoint load_sheets (items : list (scalar * pyval)) (ws : sheets)
    (log : list warning) : outcome (sheets * list warning) :=
  match items with
  | [] => Ok (ws, log)
  | (raw_id_key, val) :: t =>
      match val with
      | PDict names =>
          bind (load_names (_coerce_id_to_int (Atom raw_id_key)) names ws)
               (fun ws' => load_sheets t ws' log)
      | _ => load_sheets t ws (log ++ [WarnSkipped raw_id_key val])
      end
  end.

Definition get_or_empty_str (key : string) (data : list (scalar * pyval)) : string :=
  match dict_get_str key data with
  | Some v => str_of_val v
  | None => EmptyString
  end.

(** [PdfDocument.from_dict]: the document and the warnings logged. *)
Definition from_dict (data : list (scalar * pyval))
    : outcome (PdfDocument * list warning) :=
  let doc := mkPdfDocument (get_or_empty_str "pdf_filename" data)
                           (get_or_empty_str "pdf_path" data) [] in
  let ws := match dict_get_str "working_sheets" data with
            | Some v => if truthy v then v else PDict []
            | None => PDict []
            end in
  match ws with
  | PDict items =>
      bind (load_sheets items [] [])
           (fun r => Ok (mkPdfDocument (pdf_filename doc) (pdf_path doc) (fst r), snd r))
  | _ => Ok (doc, [WarnNotDict ws])
  end.

(** ** The workbook handler, [lib/workbooks/F42_Beltz_TT_Zwangsstörungen_Fricke.py] *)

Definition nbsp : ascii := ascii_of_N 160.
Definition newline : ascii := ascii_of_N 10.
Definition tab : ascii := ascii_of_N 9.

Definition digits14 : regex := Rep is_digit 1 (Some 4%nat) true.

(** [clean_header_text] *)
Definition clean_header_text (s : string) : string :=
  if String.eqb s EmptyString then EmptyString
  else
    let s1 := sub (Plus is_control) " " s in
    let s2 := replace_char nbsp " " s1 in
    strip (sub (Plus is_space) " " s2).

(** [\bAB\s*(\d{1,4})\b], IGNORECASE *)
Definition ab_id_re : regex :=
  seqs [WordB; lit_i "AB"; Star is_space; Grp 1 digits14; WordB].

(** [\b(\d{1,4})\s*/\s*(\d{1,4})\b] *)
Definition frac_re : regex :=
  seqs [WordB; Grp 1 digits14; Star is_space; chr "/"; Star is_space;
        Grp 2 digits14; WordB].

(** [\b\d{1,4}\s*/\s*\d{1,4}\b$] *)
Definition trailing_frac_re : regex :=
  seqs [WordB; digits14; Star is_space; chr "/"; Star is_space; digits14; WordB; Eos].

(** [\b\d{1,4}$] *)
Definition trailing_number_re : regex := seqs [WordB; digits14; Eos].

(** [int(m.group(n))] *)
Definition int_group (m : rematch) (n : nat) : option Z :=
  int_of_str (group_or_empty m n).

Definition opt_int_group (om : option rematch) (n : nat) : option Z :=
  match om with
  | Some m => int_group m n
  | None => None
  end.

(** [parse_ab_header]: [(id, name, curr, total)]. *)
Definition parse_ab_header (header_text : string)
    : option Z * string * option Z * option Z :=
  let txt := clean_header_text header_text in
  if String.eqb txt EmptyString then (None, EmptyString, None, None)
  else
    let id_int := opt_int_group (search ab_id_re txt) 1 in
    let m_frac := search frac_re txt in
    let curr := opt_int_group m_frac 1 in
    let total := opt_int_group m_frac 2 in
    let name1 := strip (sub ab_id_re "" txt) in
    let name2 := strip (sub trailing_frac_re "" name1) in
    let name3 := strip (sub trailing_number_re "" name2) in
    (id_int, name3, curr, total).

Definition hdr_id (r : option Z * string * option Z * option Z) : option Z :=
  fst (fst (fst r)).
Definition hdr_name (r : option Z * string * option Z * option Z) : string :=
  snd (fst (fst r)).
Definition hdr_curr (r : option Z * string * option Z * option Z) : option Z :=
  snd (fst r).
Definition hdr_total (r : option Z * string * option Z * option Z) : option Z :=
  snd r.

(** [header_ab_on_page] *)
Definition header_ab_on_page (text : string) : option Z :=
  if String.eqb text EmptyString then None
  else
    let head := slice 0 400 (join (String newline EmptyString)
                               (firstn 12 (splitlines text))) in
    match search ab_id_re (clean_header_text head) with
    | Some m => int_group m 1
    | None =>
        match search ab_id_re (clean_header_text text) with
        | Some m2 => int_group m2 1
        | None => None
        end
    end.

(** [pages[i]] for an index inside the list. *)
Definition page_at (pages : list string) (i : nat) : string :=
  nth i pages EmptyString.

Definition doc_length (pages : list string) : Z := Z.of_nat (List.length pages).

(** Which [return] of [determine_last_page] gave the result. *)
Inductive exit_kind : Type :=
| ExitNoPages
| ExitHeader
| ExitAbsolute
| ExitCount
| ExitFallback.

Definition differs (hdr current_id : option Z) : bool :=
  match hdr, current_id with
  | Some h, Some c => negb (Z.eqb h c)
  | _, _ => false
  end.

(** The [for offset in range(0, max_scan)] loop, [n] iterations left. *)
Fixpoint scan_forward (pages : list string) (start_page : Z)
    (current_id : option Z) (n : nat) (offset : Z) : exit_kind * Z :=
  let total_pages_doc := doc_length pages in
  match n with
  | O => (ExitFallback, Z.min start_page total_pages_doc)
  | S n' =>
      let page_no := start_page + offset in
      if ((page_no <? 1) || (total_pages_doc <? page_no))%bool
      then (ExitFallback, Z.min start_page total_pages_doc)
      else
        let raw_pt := page_at pages (Z.to_nat (page_no - 1)) in
        let pt := clean_header_text raw_pt in
        if differs (header_ab_on_page raw_pt) current_id
        then (ExitHeader, Z.min (Z.max start_page (page_no - 1)) total_pages_doc)
        else
          match search frac_re pt with
          | Some m =>
              match int_group m 1, int_group m 2 with
              | Some curr, Some second =>
                  if ((curr <=? second) && (second <=? total_pages_doc)
                      && (second - start_page <? 500))%bool
                  then (ExitAbsolute, Z.min second total_pages_doc)
                  else if ((0 <? second) && (second <=? 400))%bool
                  then (ExitCount,
                        Z.min (Z.max start_page (start_page + (second - curr)))
                              total_pages_doc)
                  else scan_forward pages start_page current_id n' (offset + 1)
              | _, _ => scan_forward pages start_page current_id n' (offset + 1)
              end
          | None => scan_forward pages start_page current_id n' (offset + 1)
          end
  end.

Definition determine_last_page_how (pages : list string) (start_page : Z)
    (current_id max_scan : option Z) : exit_kind * Z :=
  match pages with
  | [] => (ExitNoPages, start_page)
  | _ =>
      let total_pages_doc := doc_length pages in
      let max_scan := match max_scan with
                      | Some n => n
                      | None => total_pages_doc - start_page + 1
                      end in
      scan_forward pages start_page current_id (Z.to_nat max_scan) 0
  end.

(** [determine_last_page] *)
Definition determine_last_page (pages : list string) (start_page : Z)
    (current_id max_scan : option Z) : Z :=
  snd (determine_last_page_how pages start_page current_id max_scan).

(** [existing_pages_for_id]: the pages of all names under [id_int]. *)
Definition existing_pages_for_id (doc : PdfDocument) (id_int : Z) : list Z :=
  List.concat (ODict.values (bucket_of (working_sheets doc) id_int)).

(** The first page, 1-based, whose text satisfies [p]. *)
Fixpoint first_page_from (p : string -> bool) (pages : list string) (page_no : Z)
    : option Z :=
  match pages with
  | [] => None
  | txt :: t => if p txt then Some page_no else first_page_from p t (page_no + 1)
  end.

Definition first_page (p : string -> bool) (pages : list string) : option Z :=
  first_page_from p pages 1.

Definition opt_eqb (a : option Z) (b : Z) : bool :=
  match a with Some x => Z.eqb x b | None => false end.

(** [\w{4,}] *)
Definition long_token_re : regex := Rep is_word 4 None true.

Fixpoint first_token_page (tokens : list string) (pages : list string) : option Z :=
  match tokens with
  | [] => None
  | tok :: t =>
      match first_page (fun txt => contains tok (lower (clean_header_text txt))) pages with
      | Some pg => Some pg
      | None => first_token_page t pages
      end
  end.

Definition nonzero (o : option Z) : option Z :=
  match o with
  | Some z => if Z.eqb z 0 then None else Some z
  | None => None
  end.

Definition nonempty (s : string) : option string :=
  if String.eqb s EmptyString then None else Some s.

(** [_find_page_for_entry] *)
Definition _find_page_for_entry (pages : list string) (id_int : option Z)
    (name : option string) : option Z :=
  match pages with
  | [] => None
  | _ =>
      let by_header :=
        match nonzero id_int with
        | Some id => first_page (fun txt => opt_eqb (hdr_id (parse_ab_header txt)) id) pages
        | None => None
        end in
      match by_header with
      | Some pg => Some pg
      | None =>
          match name with
          | Some nm =>
              if String.eqb nm EmptyString then None
              else
                let name_norm := lower (sub (Plus is_space) " " (strip nm)) in
                if String.eqb name_norm EmptyString then None
                else
                  match first_page
                          (fun txt => contains name_norm (lower (clean_header_text txt)))
                          pages with
                  | Some pg => Some pg
                  | None => first_token_page (findall long_token_re name_norm) pages
                  end
          | None => None
          end
      end
  end.

(** The two headings that bound the table of contents; their umlauts are
    the code points 220 and 228. *)
Definition heading_worksheets : string :=
  String (ascii_of_N 220) "bersicht Arbeitsbl" ++ String (ascii_of_N 228) "tter".
Definition heading_infosheets : string :=
  String (ascii_of_N 220) "bersicht Informationsbl" ++ String (ascii_of_N 228) "tter".

(** [(^|\n)\s*<heading>\s*(\n|$)], IGNORECASE *)
Definition heading_re (heading : string) : regex :=
  seqs [Grp 1 (Alt Bos (chr newline)); Star is_space; lit_i heading; Star is_space;
        Grp 2 (Alt (chr newline) Eos)].

Definition matches (r : regex) (s : string) : bool :=
  match search r s with Some _ => true | None => false end.

(** The first index at or after [i] whose page satisfies [p]. *)
Fixpoint first_index_from (p : string -> bool) (pages : list string) (i : nat)
    : option nat :=
  match pages with
  | [] => None
  | txt :: t => if p txt then Some i else first_index_from p t (S i)
  end.

(** The last index whose page satisfies [p]. *)
Fixpoint last_index_from (p : string -> bool) (pages : list string) (i : nat)
    : option nat :=
  match pages with
  | [] => None
  | txt :: t =>
      match last_index_from p t (S i) with
      | Some j => Some j
      | None => if p txt then Some i else None
      end
  end.

Definition toc_start (pages : list string) : option nat :=
  match first_index_from (fun txt => matches (heading_re heading_worksheets) txt) pages 0 with
  | Some i => Some i
  | None => last_index_from (fun txt => contains heading_worksheets txt) pages 0
  end.

Definition toc_end (pages : list string) (start_idx : nat) : nat :=
  let tail := skipn start_idx pages in
  match first_index_from (fun txt => matches (heading_re heading_infosheets) txt)
          tail start_idx with
  | Some j => j
  | None =>
      match first_index_from (fun txt => contains heading_infosheets txt) tail start_idx with
      | Some j => j
      | None => Nat.min (start_idx + 8) (List.length pages - 1)
      end
  end.

(** The text between the two headings, normalized. *)
Definition toc_text_of (pages : list string) : string :=
  match toc_start pages with
  | Some start_idx =>
      let end_idx := toc_end pages start_idx in
      let raw_toc := join " " (firstn (end_idx + 1 - start_idx) (skipn start_idx pages)) in
      strip (sub (Plus is_space) " " (replace_char nbsp " " raw_toc))
  | None => EmptyString
  end.

Definition is_slash_or_hyphen (c : ascii) : bool :=
  (Ascii.eqb c "/" || Ascii.eqb c "-")%bool.

(** The optional separator after the token: a slash or a hyphen, with
    optional blanks on both sides. *)
Definition opt_separator : regex :=
  Opt (seqs [Star is_space; Cls is_slash_or_hyphen; Star is_space]).

(** [\bAB\s*(\d{1,4})\b] followed by the optional separator, IGNORECASE *)
Definition ab_token_re : regex :=
  seqs [WordB; lit_i "AB"; Star is_space; Grp 1 digits14; WordB; opt_separator].

(** [(?P<n>.*?)[\s\-:]*(?P<p>\d{1,4})\s*$]: [n] is group 1, [p] group 2. *)
Definition trail_re : regex :=
  seqs [Grp 1 (Rep is_dot 0 None false);
        Star (fun c => (is_space c || Ascii.eqb c "-" || Ascii.eqb c ":")%bool);
        Grp 2 digits14; Star is_space; Eos].

(** [\b(\d{1,4})\b] *)
Definition number_re : regex := seqs [WordB; Grp 1 digits14; WordB].

(** [s.isdigit()] *)
Definition isdigit (s : string) : bool :=
  (negb (String.eqb s EmptyString)
   && forallb_str (fun c => (is_digit c || N.eqb (code c) 178 || N.eqb (code c) 179
                             || N.eqb (code c) 185)%bool) s)%bool.

(** The characters that [strip] removes around a name of the table of
    contents: space, tab, backslash, hyphen, colon, semicolon, comma, dot. *)
Definition toc_strip_chars : string := String " " (String tab "\-:;,.").
(** The same without the dot, for the global scan. *)
Definition scan_strip_chars : string := String " " (String tab "\-:;,").

Definition toc_entry : Type := (string * string * option Z)%type.

(** One round of the loop over the [AB n] tokens of the table of contents. *)
Definition toc_entry_of (toc_text : string) (m : rematch) (end_ : nat) : toc_entry :=
  let id_str := group_or_empty m 1 in
  let start := m_end m in
  let raw_name := strip (slice start end_ toc_text) in
  let '(raw_name, page_num) :=
    match search trail_re raw_name with
    | Some m_trail =>
        let name_candidate := strip (group_or_empty m_trail 1) in
        let p_candidate := strip (group_or_empty m_trail 2) in
        (if String.eqb name_candidate EmptyString then raw_name else name_candidate,
         if isdigit p_candidate then int_of_str p_candidate else None)
    | None => (raw_name, None)
    end in
  let page_num :=
    match page_num with
    | Some p => Some p
    | None =>
        match search number_re (slice start (start + 250) toc_text) with
        | Some m2 => int_group m2 1
        | None => None
        end
    end in
  (id_str, strip_chars toc_strip_chars raw_name, page_num).

Fixpoint toc_entries (toc_text : string) (ms : list rematch) : list toc_entry :=
  match ms with
  | [] => []
  | m :: rest =>
      let end_ := match rest with
                  | next :: _ => m_start next
                  | [] => String.length toc_text
                  end in
      toc_entry_of toc_text m end_ :: toc_entries toc_text rest
  end.

(** The parsing step of the table of contents: [entries_found]. *)
Definition parse_toc (toc_text : string) : list toc_entry :=
  if String.eqb toc_text EmptyString then []
  else toc_entries toc_text (finditer ab_token_re toc_text).

(** Entries without a page are looked up by header or by name. *)
Definition fix_entry (pages : list string) (e : toc_entry) : toc_entry :=
  let '(id_str, name, page_num) := e in
  match page_num with
  | Some _ => e
  | None =>
      let id_int := _coerce_id_to_int (Atom (SStr id_str)) in
      (id_str, name, _find_page_for_entry pages (nonzero (Some id_int)) (nonempty name))
  end.

Definition fix_entries (pages : list string) (es : list toc_entry) : list toc_entry :=
  map (fix_entry pages) es.

(** [list(range(a, b + 1)) if a <= b else []] *)
Definition page_range (a b : Z) : list Z :=
  map (fun i => a + Z.of_nat i) (seq 0 (Z.to_nat (b - a + 1))).

Definition int_pages (ps : list Z) : list pyval := map (fun p => Atom (SInt p)) ps.

(** The pages from [start_page] to the estimated last page. *)
Definition pages_from (pages : list string) (start_page : Z) (current_id : Z) : list Z :=
  page_range start_page (determine_last_page pages start_page (Some current_id) None).

(** One entry of the table of contents written to the model. *)
Definition add_toc_entry (pages : list string) (doc : PdfDocument) (e : toc_entry)
    : PdfDocument :=
  let '(id_str, name, start_page) := e in
  let current_id := _coerce_id_to_int (Atom (SStr id_str)) in
  let pages_list :=
    match nonzero start_page with
    | Some sp => pages_from pages sp current_id
    | None => []
    end in
  add_working_sheet doc
    (Atom (SStr (if Z.eqb current_id 0 then id_str else str_of_int current_id)))
    (if String.eqb name EmptyString then "AB " ++ id_str else name)
    (int_pages pages_list).

Definition add_toc_entries (pages : list string) (doc : PdfDocument)
    (es : list toc_entry) : PdfDocument :=
  fold_left (add_toc_entry pages) es doc.

(** [\bAB\s*(\d{1,4})\b], the optional separator, [(.+?)\s+(\d{1,4})\b],
    IGNORECASE *)
Definition global_re : regex :=
  seqs [WordB; lit_i "AB"; Star is_space; Grp 1 digits14; WordB; opt_separator;
        Grp 2 (Rep is_dot 1 None false); Plus is_space; Grp 3 digits14; WordB].

Definition mem_id (k : Z) (ids : list Z) : bool := existsb (Z.eqb k) ids.

(** State of the global scan: the model and [existing_ids]. *)
Definition scan_state : Type := (PdfDocument * list Z)%type.

(** One match of [global_re] in the global scan. *)
Definition scan_match (pages : list string) (st : scan_state) (m : rematch)
    : scan_state :=
  let '(doc, existing_ids) := st in
  let id_str := group_or_empty m 1 in
  let id_int := _coerce_id_to_int (Atom (SStr id_str)) in
  if mem_id id_int existing_ids then st
  else
    let raw_name := strip (group_or_empty m 2) in
    let start_page := int_group m 3 in
    let name := strip_chars scan_strip_chars raw_name in
    let pages_list :=
      match nonzero start_page with
      | Some sp => pages_from pages sp id_int
      | None =>
          match _find_page_for_entry pages (nonzero (Some id_int)) (nonempty name) with
          | Some found => [found]
          | None => []
          end
      end in
    (add_working_sheet doc (Atom (SStr (str_of_int id_int))) name (int_pages pages_list),
     _coerce_id_to_int (Atom (SStr id_str)) :: existing_ids).

Definition scan_page (pages : list string) (st : scan_state) (txt : string)
    : scan_state :=
  if String.eqb txt EmptyString then st
  else fold_left (scan_match pages) (finditer global_re txt) st.

(** The global-scan pass. *)
Definition global_scan (pages : list string) (doc : PdfDocument) : PdfDocument :=
  fst (fold_left (scan_page pages) pages
         (doc, ODict.keys (working_sheets doc))).

(** [hdr or 0] *)
Definition label_of (hdr : option Z) : Z :=
  match hdr with Some h => h | None => 0 end.

(** The label of each page from its header area. *)
Definition header_labels (pages : list string) : list Z :=
  map (fun txt => label_of (header_ab_on_page txt)) pages.

Definition count_nonzero (hm : list Z) : Z :=
  Z.of_nat (List.length (filter (fun v => negb (Z.eqb v 0)) hm)).

(** The relaxed scan of a page that has no label yet. *)
Definition relabel (txt : string) (label : Z) : Z :=
  if Z.eqb label 0 then
    match nonzero (hdr_id (parse_ab_header txt)) with
    | Some id_int => id_int
    | None => label
    end
  else label.

Fixpoint relax (pages : list string) (hm : list Z) : list Z :=
  match pages, hm with
  | txt :: pt, label :: ht => relabel txt label :: relax pt ht
  | _, _ => hm
  end.

(** [header_map], after the relaxed scan when the labels are sparse. *)
Definition header_map (pages : list string) : list Z :=
  let hm := header_labels pages in
  let total_pages := doc_length pages in
  if count_nonzero hm <? Z.max 2 (total_pages / 30) then relax pages hm else hm.

Definition block : Type := (Z * Z * Z)%type.

(** The number of leading labels equal to [cur]. *)
Fixpoint run_length (cur : Z) (hm : list Z) : nat :=
  match hm with
  | [] => O
  | v :: t => if Z.eqb v cur then S (run_length cur t) else O
  end.

(** [curr] and [total_cnt] when both are present and not zero. *)
Definition both_nonzero (curr total_cnt : option Z) : option (Z * Z) :=
  match nonzero curr, nonzero total_cnt with
  | Some c, Some t => Some (c, t)
  | _, _ => None
  end.

(** The [while i < total_pages] loop that builds the blocks; every round
    moves [i] forward, so [total_pages] rounds are enough. *)
Fixpoint blocks_loop (pages : list string) (hm : list Z) (fuel i : nat) : list block :=
  match fuel with
  | O => []
  | S fuel' =>
      let total_pages := List.length pages in
      if Nat.leb total_pages i then []
      else
        let cur := nth i hm 0 in
        if 0 <? cur then
          let start := Z.of_nat i + 1 in
          let h := parse_ab_header (page_at pages i) in
          match both_nonzero (hdr_curr h) (hdr_total h) with
          | Some (curr, total_cnt) =>
              let end_page := Z.min (Z.of_nat total_pages) (start + (total_cnt - curr)) in
              let end_page := if end_page <? start then start else end_page in
              (cur, start, end_page) :: blocks_loop pages hm fuel' (Z.to_nat end_page)
          | None =>
              let j := (S i + run_length cur (skipn (S i) hm))%nat in
              (cur, start, Z.of_nat j) :: blocks_loop pages hm fuel' j
          end
        else blocks_loop pages hm fuel' (S i)
  end.

(** The blocks of the header block builder. *)
Definition build_blocks (pages : list string) : list block :=
  blocks_loop pages (header_map pages) (List.length pages) 0.

(** [toc_name_by_id] *)
Definition toc_names (es : list toc_entry) : odict Z string :=
  fold_left (fun d e => ODict.set Z.eqb (_coerce_id_to_int (Atom (SStr (fst (fst e)))))
                          (snd (fst e)) d) es [].

Definition subset_of (xs ys : list Z) : bool :=
  forallb (fun x => mem_id x ys) xs.

(** [\bAB\s*<id>\s*[/\-]\s*(.+?)(?:\n|$)], IGNORECASE *)
Definition name_after_id_re (id_int : Z) : regex :=
  seqs [WordB; lit_i "AB"; Star is_space; lit_i (str_of_int id_int); Star is_space;
        Cls is_slash_or_hyphen; Star is_space; Grp 1 (Rep is_dot 1 None false);
        Alt (chr newline) Eos].

(** The search for a name in the pages around a block: the first page of
    the window whose cleaned text matches gives the name. *)
Fixpoint window_name (pages : list string) (id_int : Z) (pgs : list Z) : string :=
  match pgs with
  | [] => EmptyString
  | pg :: t =>
      match search (name_after_id_re id_int)
              (clean_header_text (page_at pages (Z.to_nat (pg - 1)))) with
      | Some m => strip (group_or_empty m 1)
      | None => window_name pages id_int t
      end
  end.

Definition first_key (names : odict string (list Z)) : string :=
  match names with
  | (n, _) :: _ => n
  | [] => EmptyString
  end.

Definition or_else (s : string) (alt : string) : string :=
  if String.eqb s EmptyString then alt else s.

(** The name under which a block is stored: from the table of contents,
    else the first name already stored, else from the pages around the
    block, else [AB <id>]. *)
Definition block_name (pages : list string) (names_by_id : odict Z string)
    (doc : PdfDocument) (id_int start_page end_page : Z) : string :=
  let from_toc := match ODict.get Z.eqb id_int names_by_id with
                  | Some n => n
                  | None => EmptyString
                  end in
  let name := or_else from_toc (first_key (bucket_of (working_sheets doc) id_int)) in
  let total_pages := doc_length pages in
  let name :=
    if String.eqb name EmptyString then
      strip_chars toc_strip_chars
        (window_name pages id_int
           (page_range (Z.max 1 (start_page - 1)) (Z.min total_pages (end_page + 2) - 1)))
    else name in
  or_else name ("AB " ++ str_of_int id_int).

(** One block written to the model by the header pass. *)
Definition add_block (pages : list string) (names_by_id : odict Z string)
    (doc : PdfDocument) (b : block) : PdfDocument :=
  let '(id_int, start_page, end_page) := b in
  if id_int <=? 0 then doc
  else if end_page <? start_page then doc
  else
    let block_pages := page_range start_page end_page in
    let already := existing_pages_for_id doc id_int in
    if (subset_of block_pages already
        && match already with [] => false | _ => true end)%bool
    then doc
    else
      add_working_sheet doc (Atom (SStr (str_of_int id_int)))
        (block_name pages names_by_id doc id_int start_page end_page)
        (int_pages block_pages).

(** The header pass. *)
Definition header_pass (pages : list string) (es : list toc_entry)
    (doc : PdfDocument) : PdfDocument :=
  fold_left (add_block pages (toc_names es)) (build_blocks pages) doc.

(** [identify_working_sheets]: [pages] is [self.pages] (an absent list is
    the empty one), [doc] is [self.pdf_object]. *)
Definition identify_working_sheets (pages : list string) (doc : PdfDocument)
    : PdfDocument :=
  match pages with
  | [] => doc
  | _ =>
      let entries_found := fix_entries pages (parse_toc (toc_text_of pages)) in
      let doc1 := add_toc_entries pages doc entries_found in
      let doc2 := global_scan pages doc1 in
      header_pass pages entries_found doc2
  end.

(** ** The setter of [working_sheets] *)

(** The test on a top-level key: an [int], or text for which
    [str.isdigit] holds. *)
Definition key_accepted (raw_k : scalar) : bool :=
  match raw_k with
  | SInt _ => true
  | SStr s => isdigit s
  | SNone => false
  end.

(** [int(raw_k)] for an accepted key. *)
Definition key_to_int (raw_k : scalar) : outcome Z :=
  match raw_k with
  | SInt z => Ok z
  | SStr s => match int_of_str s with Some z => Ok z | None => Raise ValueError end
  | SNone => Raise TypeError
  end.

(** The inner loop of the setter, over [names.items()]. *)
Fixpoint set_names (items : list (scalar * pyval)) (b : odict string (list Z))
    : outcome (odict string (list Z)) :=
  match items with
  | [] => Ok b
  | (name, pages) :: t =>
      bind (iter_or_empty pages) (fun l =>
        set_names t (ODict.set String.eqb (py_str name) (_normalize_pages l) b))
  end.

(** The outer loop of the setter, over [value.items()]. *)
Fixpoint set_sheets (items : list (scalar * pyval)) (normalized : sheets)
    : outcome sheets :=
  match items with
  | [] => Ok normalized
  | (raw_k, names) :: t =>
      if negb (key_accepted raw_k) then Raise ValueError
      else
        match names with
        | PDict name_items =>
            bind (key_to_int raw_k) (fun id_key =>
              bind (set_names name_items []) (fun b =>
                set_sheets t (ODict.set Z.eqb id_key b normalized)))
        | _ => Raise ValueError
        end
  end.

(** [self.working_sheets = value] *)
Definition set_working_sheets (self : PdfDocument) (value : pyval)
    : outcome PdfDocument :=
  match value with
  | PDict items =>
      bind (set_sheets items [])
           (fun ws => Ok (mkPdfDocument (pdf_filename self) (pdf_path self) ws))
  | _ => Raise ValueError
  end.

(** ** Output names and pages, [lib/pdfIO.py] *)

Definition keep_chars : string :=
  "abcdefghijklmnopqrstuvwxyzABCDEFGHIJKLMNOPQRSTUVWXYZ0123456789-_().".

Fixpoint map_chars (f : ascii -> ascii) (s : string) : string :=
  match s with
  | EmptyString => EmptyString
  | String c t => String (f c) (map_chars f t)
  end.

Definition keep_or_underscore (ch : ascii) : ascii :=
  if mem_char ch keep_chars then ch else "_"%char.

(** [_sanitize_filename] *)
Definition _sanitize_filename (s : string) : string :=
  or_else (slice 0 200 (strip_chars "_" (map_chars keep_or_underscore s))) "unnamed".

(** [[p for p in pages_list if 1 <= p <= total_pages]] *)
Definition valid_pages (total_pages : Z) (pages_list : list Z) : list Z :=
  filter (fun p => ((1 <=? p) && (p <=? total_pages))%bool) pages_list.

(** The name of the output file of a sheet. *)
Definition out_fname (id_key : Z) (name : string) : string :=
  (_sanitize_filename (if Z.eqb id_key 0 then "no-id" else str_of_int id_key)
   ++ "_" ++ _sanitize_filename (or_else name "unnamed") ++ ".pdf")%string.

(** One round of the loop of [write_working_sheets_outputs] over the
    names of a bucket: the file name and the pages handed to the writer,
    or nothing when the sheet is skipped.  Reading the source document and
    writing the file are outside the model. *)
Definition planned_output (total_pages id_key : Z) (np : string * list Z)
    : option (string * list Z) :=
  match _normalize_pages (int_pages (snd np)) with
  | [] => None
  | pages_list =>
      match valid_pages total_pages pages_list with
      | [] => None
      | valid => Some (out_fname id_key (fst np), valid)
      end
  end.

(** The outputs of all sheets, in the order of the two loops. *)
Definition planned_outputs (total_pages : Z) (doc : PdfDocument)
    : list (string * list Z) :=
  flat_map (fun kb =>
              flat_map (fun np => match planned_output total_pages (fst kb) np with
                                  | Some o => [o]
                                  | None => []
                                  end) (snd kb))
           (working_sheets doc).

(** ** Vocabulary of the statements *)

(** A page list as the data model wants it: strictly ascending (hence
    free of duplicates) and 1-based. *)
Definition ascending (ps : list Z) : Prop := StronglySorted Z.lt ps.
Definition one_based (ps : list Z) : Prop := Forall (fun p => 1 <= p) ps.

(** The invariant of the data model on the entries of a document: names
    are not empty, page lists are ascending and 1-based. *)
Definition wf_doc (d : PdfDocument) : Prop :=
  forall k n ps, entry (working_sheets d) k n = Some ps ->
    n <> EmptyString /\ ascending ps /\ one_based ps.

(** Keys are unique, in the model and in each bucket. *)
Definition unique_keys (d : PdfDocument) : Prop :=
  NoDup (ODict.keys (working_sheets d)) /\
  Forall (fun kb => NoDup (ODict.keys (snd kb))) (working_sheets d).

(** A call of [add_working_sheet]: the id, the name and the pages. *)
Definition call : Type := (pyval * string * list pyval)%type.
Definition call_id (c : call) : pyval := fst (fst c).

Definition apply_call (d : PdfDocument) (c : call) : PdfDocument :=
  add_working_sheet d (fst (fst c)) (snd (fst c)) (snd c).

Definition run_calls (calls : list call) (d : PdfDocument) : PdfDocument :=
  fold_left apply_call calls d.

Definition empty_doc (filename path : string) : PdfDocument :=
  mkPdfDocument filename path [].

(** An id that is a negative integer, or text that [int] reads as one. *)
Definition negative_id (v : pyval) : Prop :=
  match v with
  | Atom (SInt z) => z < 0
  | Atom (SStr s) => exists z, int_of_str (strip s) = Some z /\ z < 0
  | _ => False
  end.

(** A page value that [for p in pages or []] can walk through. *)
Definition iterable_or_falsy (v : pyval) : bool :=
  (negb (truthy v) || match py_iter v with Some _ => true | None => false end)%bool.

(** Every page value below a dictionary entry of [items] can be walked
    through. *)
Definition pages_iterable (items : list (scalar * pyval)) : Prop :=
  Forall (fun kv =>
            match snd kv with
            | PDict names => Forall (fun nv => iterable_or_falsy (snd nv) = true) names
            | _ => True
            end) items.

(** The value that [from_dict] takes for [working_sheets]. *)
Definition sheets_value (data : list (scalar * pyval)) : pyval :=
  match dict_get_str "working_sheets" data with
  | Some v => if truthy v then v else PDict []
  | None => PDict []
  end.

Definition dict_entries (items : list (scalar * pyval)) : list (scalar * pyval) :=
  filter (fun kv => is_dict (snd kv)) items.

Definition skipped_entries (items : list (scalar * pyval)) : list warning :=
  map (fun kv => WarnSkipped (fst kv) (snd kv))
      (filter (fun kv => negb (is_dict (snd kv))) items).

(** The entry that survives [from_dict (to_dict d)]. *)
Definition nonempty_entry (o : option (list Z)) : option (list Z) :=
  match o with
  | Some (p :: ps) => Some (p :: ps)
  | _ => None
  end.

Definition digit_or_minus (c : ascii) : bool := (is_digit c || Ascii.eqb c "-")%bool.

(** [s[n:]] *)
Fixpoint sdrop (n : nat) (s : string) : string :=
  match n, s with
  | O, _ => s
  | S n', String _ t => sdrop n' t
  | S _, EmptyString => EmptyString
  end.

(** What the global scan keeps true of its state: the model is the
    initial one followed by added buckets, none of them under an initial
    id, and [existing_ids] holds every initial id. *)
Definition scan_inv (ws0 : sheets) (st : scan_state) : Prop :=
  (exists added,
      working_sheets (fst st) = (ws0 ++ added)%list /\
      forall k, In k (ODict.keys added) -> ~ In k (ODict.keys ws0)) /\
  (forall k, In k (ODict.keys ws0) -> In k (snd st)).

(** A bucket whose names are unique and whose page lists are normal. *)
Definition normal_bucket (names : odict string (list Z)) : Prop :=
  NoDup (ODict.keys names) /\
  Forall (fun np => ascending (snd np) /\ one_based (snd np)) names.

(** [d'] comes from [d] by calls of [add_working_sheet] whose page lists
    are lists of integers that satisfy [ok]. *)
Inductive additions (ok : list Z -> Prop) : PdfDocument -> PdfDocument -> Prop :=
| additions_refl (d : PdfDocument) : additions ok d d
| additions_step (d : PdfDocument) (idv : pyval) (name : string) (zs : list Z)
    (d' : PdfDocument) :
    ok zs ->
    additions ok (add_working_sheet d idv name (int_pages zs)) d' ->
    additions ok d d'.

(** The id and the name under which the table-of-contents pass stores an
    entry. *)
Definition toc_sheet_id (e : toc_entry) : Z :=
  _coerce_id_to_int (Atom (SStr (fst (fst e)))).
Definition toc_sheet_name (e : toc_entry) : string :=
  if String.eqb (snd (fst e)) EmptyString then ("AB " ++ fst (fst e))%string
  else snd (fst e).

(** The matcher state sits at its position in the subject. *)
Definition positioned (subj : string) (st : mstate) : Prop :=
  rest st = sdrop (pos st) subj.

(** The pattern closes no group [n]. *)
Fixpoint no_grp (n : nat) (r : regex) : bool :=
  match r with
  | Seq r1 r2 | Alt r1 r2 => (no_grp n r1 && no_grp n r2)%bool
  | Grp g r1 => (negb (Nat.eqb g n) && no_grp n r1)%bool
  | _ => true
  end.

(** Text of one to four decimal digits. *)
Definition short_number (g : string) : Prop :=
  forallb_str is_digit g = true /\ (1 <= String.length g <= 4)%nat.

(** [\bAB\s*(\d{1,4})], IGNORECASE: the start that the patterns for a
    sheet token share. *)
Definition ab_number_re : regex :=
  seqs [WordB; lit_i "AB"; Star is_space; Grp 1 digits14].

(** The ids of the second document are ids of the first or numbers from 0
    to 9999. *)
Definition new_ids_short (d d' : PdfDocument) : Prop :=
  forall k, In k (ODict.keys (working_sheets d')) ->
            In k (ODict.keys (working_sheets d)) \/ 0 <= k <= 9999.

(** Runs of characters of class [p] replaced by [repl], written without
    the pattern matcher: [in_run] says that the character before belonged
    to a run. *)
Fixpoint collapse_aux (p : ascii -> bool) (repl : string) (in_run : bool)
    (s : string) : string :=
  match s with
  | EmptyString => EmptyString
  | String c t =>
      if p c then
        if in_run then collapse_aux p repl true t
        else (repl ++ collapse_aux p repl true t)%string
      else String c (collapse_aux p repl false t)
  end.

(** The number of leading characters of class [p]. *)
Fixpoint run_chars (p : ascii -> bool) (s : string) : nat :=
  match s with
  | EmptyString => O
  | String c t => if p c then S (run_chars p t) else O
  end.

(** The character before the cursor once the leading run is consumed. *)
Fixpoint last_of_run (p : ascii -> bool) (pv : option ascii) (s : string)
    : option ascii :=
  match s with
  | EmptyString => pv
  | String c t => if p c then last_of_run p (Some c) t else pv
  end.

(** What [sub_pieces] makes of the matches of a run of class [p] found
    from position [j] on, when the piece since the last match started at
    [i]. *)
Definition pieces_from (p : ascii -> bool) (repl subj : string) (fuel : nat)
    (pv : option ascii) (s : string) (j i : nat) : string :=
  sub_pieces repl subj i
    (match search_in (Plus p) subj pv s j with
     | None => []
     | Some m =>
         m :: (if Nat.ltb (m_start m) (m_end m)
               then finditer_from fuel (Plus p) subj (m_after m)
               else match step_over (m_after m) with
                    | Some st' => finditer_from fuel (Plus p) subj st'
                    | None => []
                    end)
     end).

(** The text does not start with a blank. *)
Definition head_ok (s : string) : bool :=
  match s with
  | EmptyString => true
  | String c _ => negb (is_space c)
  end.

(** No two blanks side by side. *)
Fixpoint adj_ok (s : string) : bool :=
  match s with
  | EmptyString => true
  | String c t =>
      (match t with
       | String d _ => negb (is_space c && is_space d)
       | EmptyString => true
       end && adj_ok t)%bool
  end.

(** A character outside [[\x00-\x1f\x7f]], the class that [clean_header_text]
    replaces, and, if it is whitespace, the space itself. *)
Definition plain_char (c : ascii) : bool :=
  (negb (is_control c) && (negb (is_space c) || Ascii.eqb c " "))%bool.

(** Header text in normal form: plain characters only, single blanks
    between the words, none at either end. *)
Definition normal_text (s : string) : bool :=
  (forallb_str plain_char s && adj_ok s && String.eqb (strip s) s)%bool.

(** No page of the list lies beyond [len]. *)
Definition at_most (len : Z) (zs : list Z) : Prop := Forall (fun p => p <= len) zs.

(** Every stored page lies between 1 and [len]. *)
Definition pages_within (len : Z) (d : PdfDocument) : Prop :=
  forall k n ps p, entry (working_sheets d) k n = Some ps -> In p ps -> 1 <= p <= len.

(** [d'] holds every entry of [d], with at least its pages. *)
Definition keeps_pages (d d' : PdfDocument) : Prop :=
  forall k n ps, entry (working_sheets d) k n = Some ps ->
    exists ps', entry (working_sheets d') k n = Some ps' /\ incl ps ps'.

(** A block of the header pass with a positive id and a page range inside
    a document of [len] pages. *)
Definition block_ok (len : Z) (b : block) : Prop :=
  let '(id_int, start_page, end_page) := b in
  0 < id_int /\ 1 <= start_page /\ start_page <= end_page /\ end_page <= len.

(** The first block ends before the second starts. *)
Definition block_before (b1 b2 : block) : Prop := snd b1 < snd (fst b2).

(** The header pass has nothing to add for the block. *)
Definition covered (d : PdfDocument) (b : block) : Prop :=
  let '(id_int, start_page, end_page) := b in
  id_int <= 0 \/ end_page < start_page \/
  (subset_of (page_range start_page end_page) (existing_pages_for_id d id_int) = true /\
   existing_pages_for_id d id_int <> []).

(** What every list stored by [from_dict] satisfies. *)
Definition loaded_ok (ws : sheets) : Prop :=
  (forall k n ps, entry ws k n = Some ps -> ps <> [] /\ ascending ps /\ one_based ps) /\
  NoDup (ODict.keys ws) /\
  Forall (fun kb => NoDup (ODict.keys (snd kb))) ws.

(** ** Lemmas on ordered dictionaries *)

Open Scope list_scope.

Section ODictFacts.
Context {K V : Type} (eqb : K -> K -> bool).
Hypothesis eqb_spec : forall x y, reflect (x = y) (eqb x y).

Lemma eqb_refl_ok (k : K) : eqb k k = true.
Proof. destruct (eqb_spec k k); congruence. Qed.

Lemma get_set_same (k : K) (v : V) (d : odict K V) :
  ODict.get eqb k (ODict.set eqb k v d) = Some v.
Proof.
  induction d as [|[k' v'] t IH]; simpl.
  - now rewrite eqb_refl_ok.
  - destruct (eqb k k') eqn:E; simpl; rewrite E; auto.
Qed.

Lemma get_set_other (k k' : K) (v : V) (d : odict K V) :
  k' <> k -> ODict.get eqb k' (ODict.set eqb k v d) = ODict.get eqb k' d.
Proof.
  intros Hne. induction d as [|[k2 v2] t IH]; simpl.
  - destruct (eqb_spec k' k); congruence.
  - destruct (eqb_spec k k2) as [->|Hk]; simpl.
    + destruct (eqb_spec k' k2); congruence.
    + destruct (eqb_spec k' k2); auto.
Qed.

Lemma set_same_value (k : K) (v : V) (d : odict K V) :
  ODict.get eqb k d = Some v -> ODict.set eqb k v d = d.
Proof.
  induction d as [|[k' v'] t IH]; simpl; [discriminate|].
  destruct (eqb k k') eqn:E.
  - intros [= ->]. reflexivity.
  - intros H. now rewrite IH.
Qed.

Lemma get_some_in_keys (k : K) (v : V) (d : odict K V) :
  ODict.get eqb k d = Some v -> In k (ODict.keys d).
Proof.
  induction d as [|[k' v'] t IH]; simpl; [discriminate|].
  destruct (eqb_spec k k') as [->|Hk]; auto.
Qed.

Lemma in_keys_get (k : K) (d : odict K V) :
  In k (ODict.keys d) -> exists v, ODict.get eqb k d = Some v.
Proof.
  induction d as [|[k' v'] t IH]; simpl; [tauto|].
  intros [->|Hin].
  - rewrite eqb_refl_ok. eauto.
  - destruct (eqb k k'); eauto.
Qed.

Lemma get_none_not_in (k : K) (d : odict K V) :
  ODict.get eqb k d = None -> ~ In k (ODict.keys d).
Proof.
  intros Hg Hin. destruct (in_keys_get k d Hin) as [v Hv]. congruence.
Qed.

Lemma keys_set (k : K) (v : V) (d : odict K V) :
  ODict.keys (ODict.set eqb k v d) =
  if ODict.mem eqb k d then ODict.keys d else ODict.keys d ++ [k].
Proof.
  unfold ODict.mem. induction d as [|[k' v'] t IH]; simpl; auto.
  destruct (eqb k k') eqn:E; simpl; auto.
  rewrite IH. destruct (ODict.get eqb k t); reflexivity.
Qed.

Lemma in_keys_set (k k' : K) (v : V) (d : odict K V) :
  In k' (ODict.keys (ODict.set eqb k v d)) <-> k' = k \/ In k' (ODict.keys d).
Proof.
  rewrite keys_set. unfold ODict.mem.
  destruct (ODict.get eqb k d) eqn:E.
  - split; auto. intros [->|H]; auto. eapply get_some_in_keys; eauto.
  - rewrite in_app_iff. simpl. intuition congruence.
Qed.

(** Writing a key that is not in the front part leaves that part alone. *)
Lemma set_app_new (k : K) (v : V) (d added : odict K V) :
  ~ In k (ODict.keys d) ->
  ODict.set eqb k v (d ++ added) = d ++ ODict.set eqb k v added.
Proof.
  induction d as [|[k' v'] t IH]; simpl; auto.
  intros Hn. destruct (eqb_spec k k') as [->|Hk]; [tauto|].
  rewrite IH; auto.
Qed.

Lemma get_app_old (k : K) (d added : odict K V) :
  In k (ODict.keys d) -> ODict.get eqb k (d ++ added) = ODict.get eqb k d.
Proof.
  induction d as [|[k' v'] t IH]; simpl; [tauto|].
  intros [->|Hin].
  - now rewrite eqb_refl_ok.
  - destruct (eqb k k'); auto.
Qed.

Lemma get_in (k : K) (v : V) (d : odict K V) :
  NoDup (ODict.keys d) -> In (k, v) d -> ODict.get eqb k d = Some v.
Proof.
  induction d as [|[k' v'] t IH]; simpl; [tauto|].
  intros Hnd [[= -> ->]|Hin].
  - now rewrite eqb_refl_ok.
  - inversion Hnd as [|? ? Hnotin Hnd']; subst.
    destruct (eqb_spec k k') as [->|Hk].
    + exfalso. apply Hnotin. change (In k' (map fst t)).
      apply in_map_iff. exists (k', v). auto.
    + auto.
Qed.
End ODictFacts.

Lemma Z_eqb_spec (x y : Z) : reflect (x = y) (Z.eqb x y).
Proof. apply Z.eqb_spec. Qed.

Lemma str_eqb_spec (x y : string) : reflect (x = y) (String.eqb x y).
Proof. apply String.eqb_spec. Qed.

(** Entries after a write to [(k, n)]. *)
Lemma entry_set (ws : sheets) (k k' : Z) (n n' : string) (v : list Z) :
  entry (ODict.set Z.eqb k (ODict.set String.eqb n v (bucket_of ws k)) ws) k' n' =
  if (Z.eqb k' k && String.eqb n' n)%bool then Some v else entry ws k' n'.
Proof.
  unfold entry. destruct (Z.eqb_spec k' k) as [->|Hk]; simpl.
  - rewrite (get_set_same Z.eqb Z_eqb_spec).
    destruct (String.eqb_spec n' n) as [->|Hn].
    + apply (get_set_same String.eqb str_eqb_spec).
    + rewrite (get_set_other String.eqb str_eqb_spec) by assumption.
      unfold bucket_of. destruct (ODict.get Z.eqb k ws); reflexivity.
  - now rewrite (get_set_other Z.eqb Z_eqb_spec).
Qed.

(** ** Sorting and duplicate removal *)

Lemma in_insert_sorted (x y : Z) (l : list Z) :
  In y (insert_sorted x l) <-> y = x \/ In y l.
Proof.
  induction l as [|z t IH]; simpl.
  - intuition.
  - destruct (x <=? z); simpl; rewrite ?IH; intuition.
Qed.

Lemma in_sorted (y : Z) (l : list Z) : In y (sorted l) <-> In y l.
Proof.
  induction l as [|x t IH]; simpl; [tauto|].
  rewrite in_insert_sorted, IH. intuition.
Qed.

Lemma insert_sorted_ascending (x : Z) (l : list Z) :
  ascending l -> ~ In x l -> ascending (insert_sorted x l).
Proof.
  unfold ascending. induction l as [|y t IH]; simpl; intros Hs Hn.
  - constructor; constructor.
  - inversion Hs as [|? ? Hst Hall]; subst.
    destruct (Z.leb_spec x y) as [Hle|Hgt].
    + assert (x < y) by (assert (x <> y) by (intros ->; apply Hn; now left); lia).
      constructor; [assumption|].
      constructor; [assumption|].
      rewrite Forall_forall in *. intros z Hz. specialize (Hall z Hz). lia.
    + constructor.
      * apply IH; tauto.
      * rewrite Forall_forall in *. intros z Hz.
        apply in_insert_sorted in Hz. destruct Hz as [->|Hz]; [lia|auto].
Qed.

Lemma sorted_ascending (l : list Z) : NoDup l -> ascending (sorted l).
Proof.
  induction 1 as [|x t Hn Hnd IH]; simpl.
  - constructor.
  - apply insert_sorted_ascending; [assumption|]. now rewrite in_sorted.
Qed.

Lemma sorted_of_ascending (l : list Z) : ascending l -> sorted l = l.
Proof.
  unfold ascending. induction 1 as [|x t Hs IH Hall]; simpl; [reflexivity|].
  rewrite IH. destruct t as [|y t']; simpl; [reflexivity|].
  inversion Hall; subst. destruct (Z.leb_spec x y); [reflexivity|lia].
Qed.

Lemma ascending_nodup (l : list Z) : ascending l -> NoDup l.
Proof.
  unfold ascending. induction 1 as [|x t Hs IH Hall]; constructor; [|assumption].
  intros Hin. rewrite Forall_forall in Hall. specialize (Hall x Hin). lia.
Qed.

Lemma fromkeys_in (l : list Z) (d : odict Z unit) (x : Z) :
  In x (ODict.keys (fold_left add_key l d)) <-> In x (ODict.keys d) \/ In x l.
Proof.
  revert d. induction l as [|y t IH]; intros d; simpl; [tauto|].
  rewrite IH. unfold add_key.
  rewrite (in_keys_set Z.eqb Z_eqb_spec). intuition.
Qed.

Lemma fromkeys_nodup (l : list Z) (d : odict Z unit) :
  NoDup (ODict.keys d) -> NoDup (ODict.keys (fold_left add_key l d)).
Proof.
  revert d. induction l as [|y t IH]; intros d Hd; simpl; [assumption|].
  apply IH. unfold add_key. rewrite (keys_set Z.eqb).
  unfold ODict.mem. destruct (ODict.get Z.eqb y d) eqn:E; [assumption|].
  apply NoDup_app; [assumption|repeat constructor; simpl; tauto|].
  intros a Ha [<-|[]]. revert Ha. now apply (get_none_not_in Z.eqb Z_eqb_spec).
Qed.

Lemma fromkeys_known (l : list Z) (d : odict Z unit) :
  incl l (ODict.keys d) -> fold_left add_key l d = d.
Proof.
  induction l as [|y t IH]; intros Hin; simpl; [reflexivity|].
  assert (Hy : add_key d y = d).
  { unfold add_key. apply set_same_value.
    destruct (in_keys_get Z.eqb Z_eqb_spec y d) as [[] Hv]; [|assumption].
    apply Hin. now left. }
  rewrite Hy. apply IH. intros z Hz. apply Hin. now right.
Qed.

Lemma fromkeys_fresh (l : list Z) (d : odict Z unit) :
  NoDup (ODict.keys d ++ l) ->
  ODict.keys (fold_left add_key l d) = ODict.keys d ++ l.
Proof.
  revert d. induction l as [|y t IH]; intros d Hnd; simpl.
  - now rewrite app_nil_r.
  - assert (Hy : ~ In y (ODict.keys d)).
    { intros Hin. apply NoDup_remove_2 in Hnd. apply Hnd.
      apply in_or_app. now left. }
    assert (Hk : ODict.keys (add_key d y) = ODict.keys d ++ [y]).
    { unfold add_key. rewrite (keys_set Z.eqb). unfold ODict.mem.
      destruct (ODict.get Z.eqb y d) eqn:E; [|reflexivity].
      exfalso. apply Hy. eapply get_some_in_keys; eauto using Z_eqb_spec. }
    rewrite IH; rewrite Hk, <- app_assoc; simpl; [reflexivity|assumption].
Qed.

Lemma dict_fromkeys_fold (l : list Z) :
  dict_fromkeys l = fold_left add_key l [].
Proof. reflexivity. Qed.

Lemma sorted_fromkeys_in (l : list Z) (x : Z) : In x (sorted_fromkeys l) <-> In x l.
Proof.
  unfold sorted_fromkeys. rewrite in_sorted, dict_fromkeys_fold, fromkeys_in.
  simpl. tauto.
Qed.

Lemma sorted_fromkeys_ascending (l : list Z) : ascending (sorted_fromkeys l).
Proof.
  unfold sorted_fromkeys. apply sorted_ascending.
  rewrite dict_fromkeys_fold. apply fromkeys_nodup. constructor.
Qed.

Lemma sorted_fromkeys_one_based (l : list Z) :
  one_based l -> one_based (sorted_fromkeys l).
Proof.
  unfold one_based. rewrite !Forall_forall. intros H x Hx.
  apply H. now apply sorted_fromkeys_in.
Qed.

(** Merging into an ascending list pages that it already holds gives the
    list back. *)
Lemma sorted_fromkeys_absorb (existing new : list Z) :
  ascending existing -> incl new existing ->
  sorted_fromkeys (existing ++ new) = existing.
Proof.
  intros Hasc Hincl. unfold sorted_fromkeys.
  rewrite dict_fromkeys_fold, fold_left_app.
  assert (Hk : ODict.keys (fold_left add_key existing []) = existing).
  { rewrite fromkeys_fresh; simpl; [reflexivity|]. now apply ascending_nodup. }
  rewrite fromkeys_known; rewrite Hk; [|assumption].
  now apply sorted_of_ascending.
Qed.

Lemma positive_ints_one_based (pages : list pyval) : one_based (positive_ints pages).
Proof.
  unfold one_based. induction pages as [|p t IH]; simpl; [constructor|].
  destruct (py_int p) as [pi|]; [|assumption].
  destruct (Z.ltb_spec 0 pi); [|assumption].
  constructor; [lia|assumption].
Qed.

Lemma normalize_ascending (pages : list pyval) : ascending (_normalize_pages pages).
Proof. apply sorted_fromkeys_ascending. Qed.

Lemma normalize_one_based (pages : list pyval) : one_based (_normalize_pages pages).
Proof. apply sorted_fromkeys_one_based, positive_ints_one_based. Qed.

Lemma one_based_app (a b : list Z) : one_based a -> one_based b -> one_based (a ++ b).
Proof. unfold one_based. intros. apply Forall_app. auto. Qed.

(** ** The merge operation *)

Lemma entry_add (d : PdfDocument) (idv : pyval) (name : string) (pages : list pyval)
    (k : Z) (n : string) :
  name <> EmptyString ->
  entry (working_sheets (add_working_sheet d idv name pages)) k n =
  if (Z.eqb k (_coerce_id_to_int idv) && String.eqb n name)%bool
  then Some (match entry (working_sheets d) (_coerce_id_to_int idv) name with
             | Some existing => sorted_fromkeys (existing ++ _normalize_pages pages)
             | None => _normalize_pages pages
             end)
  else entry (working_sheets d) k n.
Proof.
  intros Hname. unfold add_working_sheet.
  destruct (String.eqb_spec name EmptyString) as [|_]; [contradiction|].
  cbn [working_sheets]. rewrite entry_set.
  destruct (Z.eqb k (_coerce_id_to_int idv) && String.eqb n name)%bool; [|reflexivity].
  unfold entry, bucket_of.
  destruct (ODict.get Z.eqb (_coerce_id_to_int idv) (working_sheets d)); reflexivity.
Qed.

Lemma add_empty_name (d : PdfDocument) (idv : pyval) (pages : list pyval) :
  add_working_sheet d idv EmptyString pages = d.
Proof. reflexivity. Qed.

Lemma add_preserves_wf (d : PdfDocument) (idv : pyval) (name : string)
    (pages : list pyval) :
  wf_doc d -> wf_doc (add_working_sheet d idv name pages).
Proof.
  intros Hwf. destruct (String.eqb_spec name EmptyString) as [->|Hname].
  { now rewrite add_empty_name. }
  intros k n ps. rewrite entry_add by assumption.
  destruct (Z.eqb_spec k (_coerce_id_to_int idv)) as [->|Hk]; simpl; [|apply Hwf].
  destruct (String.eqb_spec n name) as [->|Hn]; [|apply Hwf].
  intros [= <-]. split; [assumption|].
  destruct (entry (working_sheets d) (_coerce_id_to_int idv) name) as [existing|] eqn:E.
  - split; [apply sorted_fromkeys_ascending|].
    apply sorted_fromkeys_one_based, one_based_app; [|apply normalize_one_based].
    now apply (Hwf _ _ _ E).
  - split; [apply normalize_ascending|apply normalize_one_based].
Qed.

Lemma empty_doc_wf (filename path : string) : wf_doc (empty_doc filename path).
Proof. intros k n ps. discriminate. Qed.

Lemma run_calls_wf (calls : list call) (d : PdfDocument) :
  wf_doc d -> wf_doc (run_calls calls d).
Proof.
  revert d. induction calls as [|c t IH]; intros d Hwf; simpl; [assumption|].
  apply IH. unfold apply_call. now apply add_preserves_wf.
Qed.

Lemma keys_add (d : PdfDocument) (idv : pyval) (name : string) (pages : list pyval)
    (k : Z) :
  In k (ODict.keys (working_sheets (add_working_sheet d idv name pages))) ->
  k = _coerce_id_to_int idv \/ In k (ODict.keys (working_sheets d)).
Proof.
  unfold add_working_sheet. destruct (String.eqb name EmptyString); [tauto|].
  cbn [working_sheets]. now rewrite (in_keys_set Z.eqb Z_eqb_spec).
Qed.

Lemma run_calls_keys (calls : list call) (d : PdfDocument) (k : Z) :
  In k (ODict.keys (working_sheets (run_calls calls d))) ->
  In k (ODict.keys (working_sheets d)) \/
  exists c, In c calls /\ k = _coerce_id_to_int (call_id c).
Proof.
  revert d. induction calls as [|c t IH]; intros d Hin; simpl in *; [tauto|].
  destruct (IH _ Hin) as [Hk|[c' [Hc' Hk]]].
  - apply keys_add in Hk. destruct Hk as [->|Hk]; [|tauto].
    right. exists c. auto.
  - right. exists c'. auto.
Qed.

(** C1, as the code has it.  For every document and every [(id, name)]
    pair that it holds: when the name is not empty, adding pages stores the
    sorted, duplicate-free union of the stored pages and the normalized new
    pages (strictly ascending, holding exactly the pages of either list, so
    that no stored page is lost), and when the stored list is ascending and
    every new page is already in it the document does not change at all;
    when the name is empty the call returns at its guard and the document
    does not change, whatever the pages. *)
Theorem add_existing_unions_pages (d : PdfDocument) (idv : pyval) (name : string)
    (pages : list pyval) (existing : list Z) :
  entry (working_sheets d) (_coerce_id_to_int idv) name = Some existing ->
  let merged := sorted_fromkeys (existing ++ _normalize_pages pages) in
  let d' := add_working_sheet d idv name pages in
  (name <> EmptyString ->
   entry (working_sheets d') (_coerce_id_to_int idv) name = Some merged /\
   ascending merged /\ NoDup merged /\
   (forall p, In p merged <-> In p existing \/ In p (_normalize_pages pages)) /\
   (ascending existing -> incl (_normalize_pages pages) existing ->
    d' = d /\ entry (working_sheets d') (_coerce_id_to_int idv) name = Some existing)) /\
  (name = EmptyString ->
   d' = d /\ entry (working_sheets d') (_coerce_id_to_int idv) name = Some existing).
Proof.
  intros He merged d'. split.
  - intros Hname.
    assert (Hentry : entry (working_sheets d') (_coerce_id_to_int idv) name = Some merged).
    { unfold d'. rewrite entry_add by assumption.
      rewrite Z.eqb_refl, String.eqb_refl, He. reflexivity. }
    split; [assumption|].
    split; [apply sorted_fromkeys_ascending|].
    split; [apply ascending_nodup, sorted_fromkeys_ascending|].
    split.
    + intros p. unfold merged. rewrite sorted_fromkeys_in. apply in_app_iff.
    + intros Hasc Hincl.
      assert (Hm : merged = existing) by (now apply sorted_fromkeys_absorb).
      split; [|now rewrite Hentry, Hm].
      unfold d', add_working_sheet.
      destruct (String.eqb_spec name EmptyString) as [|_]; [contradiction|].
      unfold entry in He.
      destruct (ODict.get Z.eqb (_coerce_id_to_int idv) (working_sheets d)) as [b|] eqn:Eb;
        [|discriminate].
      unfold bucket_of. rewrite Eb, He. fold merged. rewrite Hm.
      rewrite (set_same_value String.eqb name existing b He).
      rewrite (set_same_value Z.eqb _ b _ Eb).
      destruct d; reflexivity.
  - intros Hname. unfold d'. subst name. rewrite add_empty_name. auto.
Qed.

(** ** Strings, decimal text and [int] *)

Lemma forallb_str_impl (p q : ascii -> bool) (s : string) :
  (forall c, p c = true -> q c = true) ->
  forallb_str p s = true -> forallb_str q s = true.
Proof.
  intros Hpq. induction s as [|c t IH]; simpl; [reflexivity|].
  rewrite !andb_true_iff. intuition.
Qed.

Lemma rev_onto_forallb (q : ascii -> bool) (s acc : string) :
  forallb_str q (rev_onto s acc) = (forallb_str q s && forallb_str q acc)%bool.
Proof.
  revert acc. induction s as [|c t IH]; intros acc; simpl; [reflexivity|].
  rewrite IH. simpl. destruct (q c), (forallb_str q t); reflexivity.
Qed.

Lemma rev_forallb (q : ascii -> bool) (s : string) :
  forallb_str q (PyStr.rev s) = forallb_str q s.
Proof. unfold PyStr.rev. rewrite rev_onto_forallb. simpl. apply andb_true_r. Qed.

Lemma rev_onto_twice (s a b : string) :
  rev_onto (rev_onto s a) b = rev_onto a (s ++ b)%string.
Proof.
  revert a b. induction s as [|c t IH]; intros a b; simpl; [reflexivity|].
  now rewrite IH.
Qed.

Lemma rev_rev (s : string) : PyStr.rev (PyStr.rev s) = s.
Proof.
  unfold PyStr.rev. rewrite rev_onto_twice. simpl.
  induction s as [|c t IH]; simpl; [reflexivity|now rewrite IH].
Qed.

Lemma lstrip_forallb (p q : ascii -> bool) (s : string) :
  forallb_str q s = true -> forallb_str q (lstrip_by p s) = true.
Proof.
  induction s as [|c t IH]; simpl; [reflexivity|].
  intros H. destruct (p c); [|exact H].
  apply andb_true_iff in H. now apply IH.
Qed.

Lemma strip_forallb (p q : ascii -> bool) (s : string) :
  forallb_str q s = true -> forallb_str q (strip_by p s) = true.
Proof.
  intros H. unfold strip_by. rewrite rev_forallb. apply lstrip_forallb.
  rewrite rev_forallb. now apply lstrip_forallb.
Qed.

Lemma lstrip_id (p : ascii -> bool) (s : string) :
  forallb_str (fun c => negb (p c)) s = true -> lstrip_by p s = s.
Proof.
  destruct s as [|c t]; simpl; [reflexivity|].
  destruct (p c); [discriminate|reflexivity].
Qed.

Lemma strip_id (p : ascii -> bool) (s : string) :
  forallb_str (fun c => negb (p c)) s = true -> strip_by p s = s.
Proof.
  intros H. unfold strip_by. rewrite (lstrip_id p s H).
  rewrite lstrip_id by (now rewrite rev_forallb). apply rev_rev.
Qed.

Lemma digit_facts (c : ascii) :
  is_digit c = true ->
  is_int_space c = false /\ is_space c = false /\ Ascii.eqb c "+" = false /\
  Ascii.eqb c "-" = false /\ Ascii.eqb c "_" = false.
Proof.
  destruct c as [[] [] [] [] [] [] [] []]; vm_compute; intros H;
    try discriminate H; repeat split.
Qed.

Lemma digit_or_minus_not_blank (c : ascii) :
  digit_or_minus c = true -> negb (is_int_space c) = true /\ negb (is_space c) = true.
Proof.
  destruct c as [[] [] [] [] [] [] [] []]; vm_compute; intros H;
    try discriminate H; repeat split.
Qed.

Lemma string_of_uint_digits (d : Decimal.uint) :
  forallb_str is_digit (NilEmpty.string_of_uint d) = true.
Proof. induction d; simpl; auto. Qed.

Lemma str_of_int_chars (z : Z) : forallb_str digit_or_minus (str_of_int z) = true.
Proof.
  unfold str_of_int.
  assert (H : forall d, forallb_str digit_or_minus (NilEmpty.string_of_uint d) = true).
  { intros d. apply (forallb_str_impl is_digit); [|apply string_of_uint_digits].
    intros c Hc. unfold digit_or_minus. now rewrite Hc. }
  destruct (Z.to_int z); simpl; auto.
Qed.

Lemma digits_ok_digits (s : string) :
  forallb_str is_digit s = true -> digits_ok s true = true.
Proof.
  induction s as [|c t IH]; simpl; [reflexivity|].
  intros H. apply andb_true_iff in H. destruct H as [Hc Ht].
  rewrite Hc. auto.
Qed.

Lemma drop_underscores_digits (s : string) :
  forallb_str is_digit s = true -> drop_underscores s = s.
Proof.
  induction s as [|c t IH]; simpl; [reflexivity|].
  intros H. apply andb_true_iff in H. destruct H as [Hc Ht].
  destruct (digit_facts c Hc) as (_ & _ & _ & _ & ->). now rewrite IH.
Qed.

Lemma unsigned_of_digits (d : Decimal.uint) :
  d <> Decimal.Nil ->
  unsigned_of_str (NilEmpty.string_of_uint d) = Some (Z.of_uint d).
Proof.
  intros Hd. unfold unsigned_of_str.
  pose proof (string_of_uint_digits d) as Hall.
  rewrite drop_underscores_digits, NilEmpty.usu by assumption.
  destruct (NilEmpty.string_of_uint d) as [|c t] eqn:E.
  - destruct d; simpl in E; congruence.
  - simpl in Hall |- *. apply andb_true_iff in Hall. destruct Hall as [Hc Ht].
    rewrite Hc. now rewrite digits_ok_digits.
Qed.

Lemma unsigned_nonneg (s : string) (z : Z) : unsigned_of_str s = Some z -> 0 <= z.
Proof.
  unfold unsigned_of_str. destruct (digits_ok s false); [|discriminate].
  destruct (NilEmpty.uint_of_string (drop_underscores s)); [|discriminate].
  intros [= <-]. unfold Z.of_uint. apply N2Z.is_nonneg.
Qed.

(** [int(str(z)) == z] *)
Lemma int_of_str_of_int (z : Z) : int_of_str (str_of_int z) = Some z.
Proof.
  unfold int_of_str. rewrite strip_id.
  2:{ apply (forallb_str_impl digit_or_minus); [|apply str_of_int_chars].
      intros c Hc. now apply digit_or_minus_not_blank. }
  unfold str_of_int. pose proof (DecimalZ.of_to z) as Hz.
  destruct (Z.to_int z) as [d|d] eqn:Ed; simpl in Hz |- *.
  - assert (Hd : d <> Decimal.Nil).
    { intros ->. vm_compute in Hz. subst z. discriminate Ed. }
    pose proof (unsigned_of_digits d Hd) as Hu.
    pose proof (string_of_uint_digits d) as Hall.
    destruct (NilEmpty.string_of_uint d) as [|c t] eqn:E.
    + destruct d; simpl in E; congruence.
    + simpl in Hall. apply andb_true_iff in Hall. destruct Hall as [Hc _].
      destruct (digit_facts c Hc) as (_ & _ & -> & -> & _).
      now rewrite Hu, Hz.
  - assert (Hd : d <> Decimal.Nil).
    { intros ->. vm_compute in Hz. subst z. discriminate Ed. }
    rewrite (unsigned_of_digits d Hd). simpl. now rewrite Hz.
Qed.

(** ** What the matcher consumes *)

Lemma substring_sdrop (n len : nat) (s : string) :
  substring n len s = substring 0 len (sdrop n s).
Proof.
  revert s. induction n as [|n IH]; intros s; simpl; [reflexivity|].
  destruct s as [|c t]; simpl; [|apply IH].
  destruct len; reflexivity.
Qed.

(** A quantified class that succeeds has consumed [n] characters of the
    class and handed the remaining text to its continuation. *)
Lemma rep_sound (p : ascii -> bool) (greedy : bool) (s : string) :
  forall lo hi cs pv i k r,
    rep p greedy lo hi cs pv s i k = Some r ->
    exists n pv',
      k (MState pv' (sdrop n s) (i + n) cs) = Some r /\
      forallb_str p (substring 0 n s) = true.
Proof.
  induction s as [|c t IH]; intros lo hi cs pv i k r H.
  - simpl in H. exists O, pv. rewrite Nat.add_0_r. simpl.
    destruct greedy, lo; simpl in H; try discriminate; auto.
    unfold orelse in H.
    destruct (k (MState pv EmptyString i cs)); [auto|discriminate].
  - assert (Hstop : forall x, (match lo with
                               | O => k (MState pv (String c t) i cs)
                               | S _ => None
                               end) = Some x ->
                    exists n pv',
                      k (MState pv' (sdrop n (String c t)) (i + n) cs) = Some x /\
                      forallb_str p (substring 0 n (String c t)) = true).
    { intros x Hx. exists O, pv. rewrite Nat.add_0_r. simpl.
      destruct lo; [auto|discriminate]. }
    assert (Hmore : forall x,
              (if (p c && hi_allows hi)%bool
               then rep p greedy (Nat.pred lo) (hi_pred hi) cs (Some c) t (S i) k
               else None) = Some x ->
              exists n pv',
                k (MState pv' (sdrop n (String c t)) (i + n) cs) = Some x /\
                forallb_str p (substring 0 n (String c t)) = true).
    { intros x Hx. destruct (p c) eqn:Hpc; simpl in Hx; [|discriminate].
      destruct (hi_allows hi); [|discriminate].
      destruct (IH _ _ _ _ _ _ _ Hx) as (n & pv' & Hk & Hall).
      exists (S n), pv'. simpl. rewrite Hpc, Hall.
      replace (i + S n)%nat with (S i + n)%nat by lia. auto. }
    simpl in H. destruct greedy; unfold orelse in H.
    + match type of H with
      | match ?m with _ => _ end = _ => destruct m as [x|] eqn:Em
      end.
      * injection H as <-. now apply Hmore.
      * now apply Hstop.
    + match type of H with
      | match ?m with _ => _ end = _ => destruct m as [x|] eqn:Em
      end.
      * injection H as <-. now apply Hstop.
      * now apply Hmore.
Qed.

(** The group that [leading_digits_re] captures is made of digits. *)
Lemma leading_digits_group (s : string) (m : rematch) :
  match_here leading_digits_re s (MState None s 0 []) = Some m ->
  forallb_str is_digit (group_or_empty m 1) = true.
Proof.
  unfold match_here, leading_digits_re, fresh, Star, Plus. simpl.
  match goal with
  | |- match ?e with _ => _ end = _ -> _ => destruct e as [st|] eqn:E
  end; [|discriminate].
  intros [= <-].
  apply rep_sound in E. destruct E as (n1 & pv1 & E & _). simpl in E.
  apply rep_sound in E. destruct E as (n2 & pv2 & E & Hall). simpl in E.
  injection E as <-.
  unfold group_or_empty, group. simpl. unfold slice.
  replace (n1 + n2 - n1)%nat with n2 by lia.
  now rewrite substring_sdrop.
Qed.

Lemma int_of_digits_nonneg (g : string) (z : Z) :
  forallb_str is_digit g = true -> int_of_str g = Some z -> 0 <= z.
Proof.
  intros Hall. unfold int_of_str.
  pose proof (strip_forallb is_int_space is_digit g Hall) as Hs.
  destruct (strip_by is_int_space g) as [|c body]; [discriminate|].
  simpl in Hs. apply andb_true_iff in Hs. destruct Hs as [Hc _].
  destruct (digit_facts c Hc) as (_ & _ & -> & -> & _).
  apply unsigned_nonneg.
Qed.

(** A string is coerced to a negative id only when [int] reads it so. *)
Lemma coerce_str_negative (s : string) :
  coerce_str s < 0 -> int_of_str (strip s) = Some (coerce_str s).
Proof.
  unfold coerce_str.
  destruct (String.eqb (strip s) EmptyString); [lia|].
  destruct (int_of_str (strip s)) as [z|]; [reflexivity|].
  destruct (match_here leading_digits_re (strip s) (MState None (strip s) 0 []))
    as [m|] eqn:Em; [|lia].
  destruct (int_of_str (group_or_empty m 1)) as [z|] eqn:Ez; [|lia].
  intros Hneg. apply int_of_digits_nonneg in Ez; [lia|].
  eapply leading_digits_group; eauto.
Qed.

Lemma coerce_negative (v : pyval) : _coerce_id_to_int v < 0 -> negative_id v.
Proof.
  destruct v as [[|z|s]|l|d]; simpl; try lia.
  intros H. exists (coerce_str s). split; [now apply coerce_str_negative|assumption].
Qed.

Lemma negative_coerce (v : pyval) : negative_id v -> _coerce_id_to_int v < 0.
Proof.
  destruct v as [[|z|s]|l|d]; simpl; try tauto.
  intros (z & Hz & Hneg). unfold coerce_str.
  destruct (String.eqb_spec (strip s) EmptyString) as [E|_].
  - rewrite E in Hz. discriminate.
  - now rewrite Hz.
Qed.

(** [_coerce_id_to_int(str(z)) == z] *)
Lemma coerce_str_of_int (z : Z) : _coerce_id_to_int (Atom (SStr (str_of_int z))) = z.
Proof.
  simpl. unfold coerce_str, strip.
  rewrite strip_id.
  2:{ apply (forallb_str_impl digit_or_minus); [|apply str_of_int_chars].
      intros c Hc. now apply digit_or_minus_not_blank. }
  pose proof (int_of_str_of_int z) as Hz. rewrite Hz.
  destruct (String.eqb_spec (str_of_int z) EmptyString) as [E|_]; [|reflexivity].
  rewrite E in Hz. discriminate.
Qed.

(** ** Unique keys *)

Section ODictUnique.
Context {K V : Type} (eqb : K -> K -> bool).
Hypothesis eqb_spec : forall x y, reflect (x = y) (eqb x y).

Lemma nodup_keys_set (k : K) (v : V) (d : odict K V) :
  NoDup (ODict.keys d) -> NoDup (ODict.keys (ODict.set eqb k v d)).
Proof.
  intros Hnd. rewrite keys_set. unfold ODict.mem.
  destruct (ODict.get eqb k d) eqn:E; [assumption|].
  apply NoDup_app; [assumption|repeat constructor; simpl; tauto|].
  intros a Ha [<-|[]]. revert Ha. now apply (get_none_not_in eqb eqb_spec).
Qed.

Lemma in_set (k k' : K) (v v' : V) (d : odict K V) :
  In (k', v') (ODict.set eqb k v d) -> In (k', v') d \/ v' = v.
Proof.
  induction d as [|[k2 v2] t IH]; simpl.
  - intros [[= <- <-]|[]]. now right.
  - destruct (eqb k k2); simpl.
    + intros [[= <- <-]|H]; auto.
    + intros [H|H]; auto. destruct (IH H); auto.
Qed.

Lemma get_some_in (k : K) (v : V) (d : odict K V) :
  ODict.get eqb k d = Some v -> In (k, v) d.
Proof.
  induction d as [|[k2 v2] t IH]; simpl; [discriminate|].
  destruct (eqb_spec k k2) as [->|Hk]; [intros [= ->]; auto|auto].
Qed.
End ODictUnique.

Lemma add_preserves_unique (d : PdfDocument) (idv : pyval) (name : string)
    (pages : list pyval) :
  unique_keys d -> unique_keys (add_working_sheet d idv name pages).
Proof.
  intros [Hk Hb]. unfold add_working_sheet.
  destruct (String.eqb name EmptyString); [split; assumption|].
  unfold unique_keys. cbn [working_sheets]. split.
  - now apply (nodup_keys_set Z.eqb Z_eqb_spec).
  - rewrite Forall_forall in *. intros [k' b'] Hin.
    apply in_set in Hin. destruct Hin as [Hin | ->]; [now apply Hb|].
    simpl. apply (nodup_keys_set String.eqb str_eqb_spec).
    unfold bucket_of.
    destruct (ODict.get Z.eqb (_coerce_id_to_int idv) (working_sheets d)) as [b|] eqn:E;
      [|constructor].
    apply (get_some_in Z.eqb Z_eqb_spec) in E. exact (Hb _ E).
Qed.

Lemma run_calls_unique (calls : list call) (d : PdfDocument) :
  unique_keys d -> unique_keys (run_calls calls d).
Proof.
  revert d. induction calls as [|c t IH]; intros d Hu; simpl; [assumption|].
  apply IH. unfold apply_call. now apply add_preserves_unique.
Qed.

Lemma empty_doc_unique (filename path : string) : unique_keys (empty_doc filename path).
Proof. split; constructor. Qed.

Lemma stored_is_entry (d : PdfDocument) (k : Z) (b : odict string (list Z))
    (n : string) (ps : list Z) :
  unique_keys d -> In (k, b) (working_sheets d) -> In (n, ps) b ->
  entry (working_sheets d) k n = Some ps.
Proof.
  intros [Hk Hb] Hkb Hn. unfold entry.
  rewrite (get_in Z.eqb Z_eqb_spec k b _ Hk Hkb).
  rewrite Forall_forall in Hb. specialize (Hb _ Hkb). simpl in Hb.
  now apply (get_in String.eqb str_eqb_spec).
Qed.

(** ** Sequences of additions *)

(** C2, as the code has it. After any sequence of [add_working_sheet]
    calls on a new document, every stored page list is strictly ascending,
    free of duplicates and 1-based; every top-level key is the integer
    that [_coerce_id_to_int] gives for the id of one of the calls, and it
    is negative exactly when that id is a negative integer or text that
    [int] reads as a negative integer. *)
Theorem add_sequence_invariant (filename path : string) (calls : list call) :
  let d := run_calls calls (empty_doc filename path) in
  (forall k b n ps,
      In (k, b) (working_sheets d) -> In (n, ps) b ->
      ascending ps /\ NoDup ps /\ one_based ps) /\
  (forall k,
      In k (ODict.keys (working_sheets d)) ->
      exists c, In c calls /\ k = _coerce_id_to_int (call_id c) /\
                (k < 0 <-> negative_id (call_id c))).
Proof.
  intros d. split.
  - intros k b n ps Hkb Hn.
    assert (He : entry (working_sheets d) k n = Some ps).
    { apply (stored_is_entry d k b); auto.
      apply run_calls_unique, empty_doc_unique. }
    destruct (run_calls_wf calls _ (empty_doc_wf filename path) _ _ _ He)
      as (_ & Hasc & Hone).
    auto using ascending_nodup.
  - intros k Hk. apply run_calls_keys in Hk. destruct Hk as [[]|(c & Hc & ->)].
    exists c. repeat split; auto using coerce_negative, negative_coerce.
Qed.

(** C2, counterexample: a negative integer id is stored under its own
    negative value, so not every top-level key is at least 0. *)
Lemma add_negative_id_counterexample :
  let d := run_calls [(Atom (SInt (-5)), "x"%string, [Atom (SInt 1)])]
                     (empty_doc "f" "p") in
  ~ (forall k, In k (ODict.keys (working_sheets d)) -> 0 <= k).
Proof.
  intros d H. specialize (H (-5)). simpl in H. lia.
Qed.

(** C2, witness: two calls, one with a negative id given as text. *)
Lemma add_sequence_invariant_witness :
  let d := run_calls [(Atom (SStr "-5"), "x"%string, [Atom (SInt 3); Atom (SInt 1)]);
                      (Atom (SInt 2), "y"%string, [Atom (SStr "4"); Atom (SInt 4)])]
                     (empty_doc "f" "p") in
  (ascending [1; 3] /\ NoDup [1; 3] /\ one_based [1; 3]) /\
  (exists c, In c [(Atom (SStr "-5"), "x"%string, [Atom (SInt 3); Atom (SInt 1)]);
                   (Atom (SInt 2), "y"%string, [Atom (SStr "4"); Atom (SInt 4)])] /\
             -5 = _coerce_id_to_int (call_id c) /\
             (-5 < 0 <-> negative_id (call_id c))).
Proof.
  intros d.
  destruct (add_sequence_invariant "f" "p"
              [(Atom (SStr "-5"), "x"%string, [Atom (SInt 3); Atom (SInt 1)]);
               (Atom (SInt 2), "y"%string, [Atom (SStr "4"); Atom (SInt 4)])])
    as [Hpages Hkeys].
  split.
  - apply (Hpages (-5) [("x"%string, [1; 3])] "x"%string [1; 3]).
    + vm_compute. left. reflexivity.
    + simpl. left. reflexivity.
  - apply (Hkeys (-5)). vm_compute. left. reflexivity.
Defined.

(** ** The last-page estimator *)

Lemma scan_forward_bounds (pages : list string) (start_page : Z)
    (current_id : option Z) (n : nat) :
  forall offset,
    snd (scan_forward pages start_page current_id n offset) <= doc_length pages /\
    fst (scan_forward pages start_page current_id n offset) <> ExitNoPages /\
    (start_page <= doc_length pages ->
     fst (scan_forward pages start_page current_id n offset) <> ExitAbsolute ->
     start_page <= snd (scan_forward pages start_page current_id n offset)).
Proof.
  induction n as [|n IH]; intros offset; simpl.
  - repeat split; try discriminate; intros; lia.
  - destruct ((start_page + offset <? 1) || (doc_length pages <? start_page + offset))%bool.
    { simpl. repeat split; try discriminate; intros; lia. }
    destruct (differs _ current_id).
    { simpl. repeat split; try discriminate; intros; lia. }
    destruct (search frac_re _) as [m|]; [|apply IH].
    destruct (int_group m 1) as [curr|]; [|apply IH].
    destruct (int_group m 2) as [second|]; [|apply IH].
    destruct ((curr <=? second) && (second <=? doc_length pages)
              && (second - start_page <? 500))%bool.
    { simpl. repeat split; try discriminate; intros; try lia. congruence. }
    destruct ((0 <? second) && (second <=? 400))%bool; [|apply IH].
    simpl. repeat split; try discriminate; intros; lia.
Qed.

(** C3, as the code has it. For an empty page sequence the estimator
    returns [start_page] itself.  For a non-empty one the result is at most
    the document length (whatever [start_page], [current_id] and [max_scan]
    are), and when [start_page] is not beyond the document the result is at
    least [start_page] on every exit but the absolute end-page
    interpretation of a digit pair. *)
Theorem determine_last_page_bounds (pages : list string) (start_page : Z)
    (current_id max_scan : option Z) :
  (pages = [] -> determine_last_page pages start_page current_id max_scan = start_page) /\
  (pages <> [] ->
   determine_last_page pages start_page current_id max_scan <= doc_length pages /\
   (start_page <= doc_length pages ->
    fst (determine_last_page_how pages start_page current_id max_scan) <> ExitAbsolute ->
    start_page <= determine_last_page pages start_page current_id max_scan)).
Proof.
  unfold determine_last_page, determine_last_page_how. split.
  - intros ->. reflexivity.
  - intros Hne. destruct pages as [|p ps]; [congruence|].
    match goal with
    | |- context [scan_forward ?a ?b ?c ?d ?e] =>
        destruct (scan_forward_bounds a b c d e) as (Hup & _ & Hlow)
    end.
    split; assumption.
Qed.

(** C3, counterexample: with no pages the document length is 0 and the
    estimator returns the start page 1; with three pages and a start page
    of 5 it returns 3. In both cases the result is outside
    [[start_page, document_length]]. *)
Lemma determine_last_page_counterexample :
  ~ (1 <= determine_last_page [] 1 None None <= doc_length []) /\
  ~ (5 <= determine_last_page ["a"; "b"; "c"]%string 5 None None
       <= doc_length ["a"; "b"; "c"]%string).
Proof. split; vm_compute; intros [H1 H2]; auto. Qed.

(** C3, witness: three pages, the second of which shows [1/2], scanned
    from page 2 with the count interpretation out of reach of the absolute
    one. *)
Lemma determine_last_page_bounds_witness :
  determine_last_page ["a"; "x 3/2"; "c"]%string 2 None None
    <= doc_length ["a"; "x 3/2"; "c"]%string /\
  2 <= determine_last_page ["a"; "x 3/2"; "c"]%string 2 None None.
Proof.
  destruct (determine_last_page_bounds ["a"; "x 3/2"; "c"]%string 2 None None)
    as [_ H].
  destruct H as [Hup Hlow]; [discriminate|].
  split; [exact Hup|].
  apply Hlow; [vm_compute; discriminate|vm_compute; discriminate].
Defined.

(** The absolute end-page interpretation can return a page before
    [start_page]: page 3 of 3 shows [1/2], and the scan from page 3
    returns 2. *)
Lemma absolute_exit_below_start :
  determine_last_page_how ["x"; "x"; "1/2"]%string 3 None None = (ExitAbsolute, 2).
Proof. vm_compute. reflexivity. Qed.

(** ** The header parser *)

(** C4, as the code has it. On ["AB 22 / Zwangsgedanken  1/2"] the parser
    returns id 22, current 1 and total 2, and the name
    ["/ Zwangsgedanken"]: the AB token and the trailing digit pair are
    removed and the ends are trimmed of blanks, the slash stays. *)
Theorem parse_ab_header_scenario :
  parse_ab_header "AB 22 / Zwangsgedanken  1/2" =
  (Some 22, "/ Zwangsgedanken"%string, Some 1, Some 2).
Proof. vm_compute. reflexivity. Qed.

(** C4, counterexample: the name is not ["Zwangsgedanken"]. *)
Lemma parse_ab_header_counterexample :
  parse_ab_header "AB 22 / Zwangsgedanken  1/2" <>
  (Some 22, "Zwangsgedanken"%string, Some 1, Some 2).
Proof. vm_compute. discriminate. Qed.

(** ** The table of contents *)

(** C5. The blob ["AB 5 Angstskala 12 AB 6 Vermeidungsliste 15"] is its
    own normal form, and the parsing step gives exactly two entries:
    id text ["5"] (id 5), name ["Angstskala"], page 12 and id text ["6"]
    (id 6), name ["Vermeidungsliste"], page 15. *)
Theorem parse_toc_scenario :
  let blob := "AB 5 Angstskala 12 AB 6 Vermeidungsliste 15"%string in
  strip (sub (Plus is_space) " " (replace_char nbsp " " blob)) = blob /\
  parse_toc blob =
    [("5"%string, "Angstskala"%string, Some 12);
     ("6"%string, "Vermeidungsliste"%string, Some 15)] /\
  map (fun e : toc_entry => _coerce_id_to_int (Atom (SStr (fst (fst e)))))
      (parse_toc blob) = [5; 6].
Proof. vm_compute. repeat split. Qed.

(** ** The header block builder *)

Lemma blocks_loop_skip (pages : list string) (hm : list Z) (fuel i : nat) :
  (i < List.length pages)%nat -> nth i hm 0 = 0 ->
  blocks_loop pages hm (S fuel) i = blocks_loop pages hm fuel (S i).
Proof.
  intros Hi Hz. cbn [blocks_loop].
  destruct (Nat.leb_spec (List.length pages) i); [lia|].
  now rewrite Hz.
Qed.

Lemma blocks_loop_run (pages : list string) (hm : list Z) (fuel i : nat) :
  (i < List.length pages)%nat -> 0 < nth i hm 0 ->
  both_nonzero (hdr_curr (parse_ab_header (page_at pages i)))
               (hdr_total (parse_ab_header (page_at pages i))) = None ->
  blocks_loop pages hm (S fuel) i =
  (nth i hm 0, Z.of_nat i + 1,
   Z.of_nat (S i + run_length (nth i hm 0) (skipn (S i) hm)))
    :: blocks_loop pages hm fuel (S i + run_length (nth i hm 0) (skipn (S i) hm)).
Proof.
  intros Hi Hpos Hnone. cbn [blocks_loop].
  destruct (Nat.leb_spec (List.length pages) i); [lia|].
  destruct (Z.ltb_spec 0 (nth i hm 0)); [|lia].
  now rewrite Hnone.
Qed.

Lemma blocks_loop_done (pages : list string) (hm : list Z) (fuel i : nat) :
  (List.length pages <= i)%nat -> blocks_loop pages hm fuel i = [].
Proof.
  intros Hi. destruct fuel; [reflexivity|]. cbn [blocks_loop].
  destruct (Nat.leb_spec (List.length pages) i); [reflexivity|lia].
Qed.

(** C6. Ten pages whose header labels are 7 on pages 3, 4 and 5 and
    absent elsewhere, the text of page 3 showing no current/total pair:
    the builder gives the single block (7, 3, 5). *)
Theorem build_blocks_scenario (pages : list string) :
  List.length pages = 10%nat ->
  header_labels pages = [0; 0; 7; 7; 7; 0; 0; 0; 0; 0] ->
  hdr_curr (parse_ab_header (page_at pages 2)) = None ->
  hdr_total (parse_ab_header (page_at pages 2)) = None ->
  build_blocks pages = [(7, 3, 5)].
Proof.
  intros Hlen Hlabels Hcurr Htotal.
  unfold build_blocks, header_map, doc_length. rewrite Hlabels, Hlen.
  change (count_nonzero [0; 0; 7; 7; 7; 0; 0; 0; 0; 0]
          <? Z.max 2 (Z.of_nat 10 / 30)) with false.
  cbv iota.
  do 2 (rewrite blocks_loop_skip by (rewrite ?Hlen; try reflexivity; lia)).
  rewrite blocks_loop_run;
    [|rewrite Hlen; lia|reflexivity|rewrite Hcurr; reflexivity].
  change (nth 2 [0; 0; 7; 7; 7; 0; 0; 0; 0; 0] 0) with 7.
  match goal with
  | |- context [(3 + run_length ?c ?l)%nat] =>
      change (3 + run_length c l)%nat with 5%nat
  end.
  change (Z.of_nat 2 + 1) with 3. change (Z.of_nat 5) with 5.
  do 5 (rewrite blocks_loop_skip by (rewrite ?Hlen; try reflexivity; lia)).
  rewrite blocks_loop_done by (rewrite Hlen; lia).
  reflexivity.
Qed.

(** C6, witness: the ten pages of the scenario. *)
Lemma build_blocks_scenario_witness :
  build_blocks [""; ""; "AB 7 / Protokoll"; "AB 7"; "AB 7"; ""; ""; ""; ""; ""]%string
  = [(7, 3, 5)].
Proof.
  apply build_blocks_scenario; vm_compute; reflexivity.
Defined.

(** ** The orchestrator on an empty page sequence *)

(** C8. With no pages, [identify_working_sheets] returns the document it
    was given: same buckets, same names, same pages. The function of the
    model is total, there is no exception to raise. *)
Theorem identify_no_pages (doc : PdfDocument) :
  identify_working_sheets [] doc = doc /\
  working_sheets (identify_working_sheets [] doc) = working_sheets doc.
Proof. split; reflexivity. Qed.

(** ** The global scan *)

Lemma mem_id_in (k : Z) (ids : list Z) : mem_id k ids = true <-> In k ids.
Proof.
  unfold mem_id. rewrite existsb_exists. split.
  - intros (x & Hx & E). apply Z.eqb_eq in E. now subst.
  - intros H. exists k. split; [assumption|apply Z.eqb_refl].
Qed.

(** An addition under an id that the front part [ws0] of the model does
    not hold leaves [ws0] as it is. *)
Lemma add_keeps_front (d : PdfDocument) (idv : pyval) (name : string)
    (pages : list pyval) (ws0 added : sheets) :
  working_sheets d = ws0 ++ added ->
  ~ In (_coerce_id_to_int idv) (ODict.keys ws0) ->
  exists added',
    working_sheets (add_working_sheet d idv name pages) = ws0 ++ added' /\
    (forall k, In k (ODict.keys added') ->
               k = _coerce_id_to_int idv \/ In k (ODict.keys added)).
Proof.
  intros Hws Hnew. unfold add_working_sheet.
  destruct (String.eqb name EmptyString); [exists added; auto|].
  cbn [working_sheets].
  set (b := ODict.set String.eqb name _ _).
  exists (ODict.set Z.eqb (_coerce_id_to_int idv) b added). split.
  - rewrite <- (set_app_new Z.eqb Z_eqb_spec) by assumption. now rewrite <- Hws.
  - intros k Hk. now apply (in_keys_set Z.eqb Z_eqb_spec) in Hk.
Qed.

Lemma scan_match_inv (pages : list string) (ws0 : sheets) (st : scan_state)
    (m : rematch) :
  scan_inv ws0 st -> scan_inv ws0 (scan_match pages st m).
Proof.
  destruct st as [doc ids]. intros Hinv. unfold scan_match.
  set (id_int := _coerce_id_to_int (Atom (SStr (group_or_empty m 1)))).
  destruct (mem_id id_int ids) eqn:Emem; [assumption|].
  destruct Hinv as [(added & Hws & Hadded) Hids]. simpl in Hws, Hids.
  assert (Hnew : ~ In id_int (ODict.keys ws0)).
  { intros Hin. apply Hids, mem_id_in in Hin. congruence. }
  match goal with
  | |- scan_inv _ (add_working_sheet _ ?idv ?name ?ps, _) =>
      destruct (add_keeps_front doc idv name ps ws0 added Hws) as (added' & Hws' & Hk)
  end.
  { now rewrite coerce_str_of_int. }
  split; simpl.
  - exists added'. split; [assumption|].
    intros k Hin. destruct (Hk k Hin) as [->|Hold]; [|auto].
    now rewrite coerce_str_of_int.
  - intros k Hin. right. auto.
Qed.

Lemma fold_scan_match_inv (pages : list string) (ws0 : sheets) (ms : list rematch) :
  forall st, scan_inv ws0 st -> scan_inv ws0 (fold_left (scan_match pages) ms st).
Proof.
  induction ms as [|m t IH]; intros st Hinv; simpl; [assumption|].
  apply IH. now apply scan_match_inv.
Qed.

Lemma scan_page_inv (pages : list string) (ws0 : sheets) (st : scan_state)
    (txt : string) :
  scan_inv ws0 st -> scan_inv ws0 (scan_page pages st txt).
Proof.
  intros Hinv. unfold scan_page.
  destruct (String.eqb txt EmptyString); [assumption|].
  now apply fold_scan_match_inv.
Qed.

Lemma fold_scan_page_inv (pages : list string) (ws0 : sheets) (txts : list string) :
  forall st, scan_inv ws0 st -> scan_inv ws0 (fold_left (scan_page pages) txts st).
Proof.
  induction txts as [|txt t IH]; intros st Hinv; simpl; [assumption|].
  apply IH. now apply scan_page_inv.
Qed.

(** C7. The global-scan pass keeps every bucket that the model holds when
    the pass starts: the model after the pass is the model before it
    followed by the buckets the pass added, all of them under ids the
    model did not hold; so each initial id still has its bucket, with the
    same names and the same page lists. *)
Theorem global_scan_frame (pages : list string) (doc : PdfDocument) :
  exists added,
    working_sheets (global_scan pages doc) = working_sheets doc ++ added /\
    (forall k, In k (ODict.keys added) -> ~ In k (ODict.keys (working_sheets doc))) /\
    (forall k b,
        ODict.get Z.eqb k (working_sheets doc) = Some b ->
        ODict.get Z.eqb k (working_sheets (global_scan pages doc)) = Some b).
Proof.
  unfold global_scan.
  destruct (fold_scan_page_inv pages (working_sheets doc) pages
              (doc, ODict.keys (working_sheets doc)))
    as [(added & Hws & Hadded) _].
  { split; simpl; [|auto]. exists []. rewrite app_nil_r. split; [reflexivity|].
    intros k []. }
  exists added. split; [assumption|]. split; [assumption|].
  intros k b Hget. rewrite Hws.
  rewrite (get_app_old Z.eqb Z_eqb_spec); [assumption|].
  eapply get_some_in_keys; eauto using Z_eqb_spec.
Qed.

(** C7 on a document that holds id 5 while page 1 names the ids 5 and 9:
    the bucket of 5 stays, a bucket for 9 is added. *)
Lemma global_scan_frame_witness :
  let doc := mkPdfDocument "f" "p" [(5, [("Alt"%string, [1])])] in
  let pages := ["AB 5 / Neu 2 und AB 9 - Sonst 1"%string; "AB 9"%string] in
  ODict.get Z.eqb 5 (working_sheets doc) = Some [("Alt"%string, [1])] /\
  ODict.get Z.eqb 5 (working_sheets (global_scan pages doc)) = Some [("Alt"%string, [1])].
Proof.
  intros doc pages.
  destruct (global_scan_frame pages doc) as (added & _ & _ & Hget).
  split; [reflexivity|]. apply Hget. reflexivity.
Defined.

(** ** Deserialization *)

Lemma load_names_total (id_key : Z) (names : list (scalar * pyval)) :
  Forall (fun nv => iterable_or_falsy (snd nv) = true) names ->
  forall ws, exists ws', load_names id_key names ws = Ok ws'.
Proof.
  induction 1 as [|[name pages] t Hit _ IH]; intros ws; simpl; [eauto|].
  unfold iter_or_empty. unfold iterable_or_falsy in Hit. simpl in Hit.
  destruct (truthy pages); simpl in *.
  - destruct (py_iter pages) as [l|]; [|discriminate]. simpl.
    destruct (_normalize_pages l); apply IH.
  - change (_normalize_pages []) with (@nil Z). apply IH.
Qed.

Lemma load_sheets_skips (items : list (scalar * pyval)) :
  pages_iterable items ->
  forall ws log, exists ws',
    load_sheets items ws log = Ok (ws', log ++ skipped_entries items) /\
    load_sheets (dict_entries items) ws [] = Ok (ws', []).
Proof.
  unfold pages_iterable, skipped_entries, dict_entries.
  induction 1 as [|[raw val] t Hval _ IH]; intros ws log.
  - exists ws. simpl. now rewrite app_nil_r.
  - destruct val as [a|l|names];
      cbn [load_sheets filter map is_dict snd fst negb] in *.
    + destruct (IH ws (log ++ [WarnSkipped raw (Atom a)])) as (ws' & H1 & H2).
      exists ws'. rewrite <- app_assoc in H1. auto.
    + destruct (IH ws (log ++ [WarnSkipped raw (PList l)])) as (ws' & H1 & H2).
      exists ws'. rewrite <- app_assoc in H1. auto.
    + destruct (load_names_total (_coerce_id_to_int (Atom raw)) names Hval ws)
        as (ws1 & ->).
      cbn [bind]. apply IH.
Qed.

Lemma from_dict_unfold (data : list (scalar * pyval)) :
  from_dict data =
  match sheets_value data with
  | PDict items =>
      bind (load_sheets items [] [])
           (fun r => Ok (mkPdfDocument (get_or_empty_str "pdf_filename" data)
                                       (get_or_empty_str "pdf_path" data) (fst r),
                         snd r))
  | v => Ok (mkPdfDocument (get_or_empty_str "pdf_filename" data)
                           (get_or_empty_str "pdf_path" data) [],
             [WarnNotDict v])
  end.
Proof.
  unfold from_dict, sheets_value.
  destruct (dict_get_str "working_sheets" data) as [v|]; [|reflexivity].
  destruct (truthy v); [|reflexivity].
  destruct v; reflexivity.
Qed.

(** C9, as the code has it.  When the value under [working_sheets] counts
    as true and is not a dictionary, [from_dict] returns a document without
    sheets and logs one warning.  When the key is missing or its value
    counts as false (None, 0, the empty text, list or dictionary), the
    value is read as the empty dictionary: [from_dict] returns a document
    without sheets and logs nothing.  When the value read is a dictionary
    all of whose page values can be walked through (lists, strings,
    dictionaries, or values that count as false), [from_dict] returns a
    document: every entry that is not a dictionary is skipped with one
    warning, in order, and the sheets are those that the dictionary entries
    alone give. *)
Theorem from_dict_skips_non_dicts (data : list (scalar * pyval)) :
  (forall v,
      dict_get_str "working_sheets" data = Some v ->
      truthy v = true -> is_dict v = false ->
      exists doc,
        from_dict data = Ok (doc, [WarnNotDict v]) /\
        working_sheets doc = []) /\
  (dict_get_str "working_sheets" data = None \/
   (exists v, dict_get_str "working_sheets" data = Some v /\ truthy v = false) ->
   exists doc,
     from_dict data = Ok (doc, []) /\
     working_sheets doc = []) /\
  (forall items,
      sheets_value data = PDict items ->
      pages_iterable items ->
      exists doc,
        from_dict data = Ok (doc, skipped_entries items) /\
        load_sheets (dict_entries items) [] [] = Ok (working_sheets doc, [])).
Proof.
  rewrite from_dict_unfold. split; [|split].
  - intros v Hv Ht Hnd. unfold sheets_value. rewrite Hv, Ht.
    destruct v; try discriminate; eexists; split; reflexivity.
  - intros H.
    assert (E : sheets_value data = PDict []).
    { unfold sheets_value. destruct H as [->|(v & -> & ->)]; reflexivity. }
    rewrite E. eexists. split; reflexivity.
  - intros items -> Hit.
    destruct (load_sheets_skips items Hit [] []) as (ws' & H1 & H2).
    rewrite H1. simpl. eexists. split; [reflexivity|]. exact H2.
Qed.

(** C9, counterexample: a page value that is a number cannot be walked
    through, and [from_dict] raises TypeError on
    [{"working_sheets": {"1": {"a": 5}}}]. *)
Lemma from_dict_counterexample :
  let data := [(SStr "working_sheets",
                PDict [(SStr "1", PDict [(SStr "a", Atom (SInt 5))])])] in
  from_dict data = Raise TypeError /\
  ~ (exists r, from_dict data = Ok r).
Proof.
  intros data. split; [reflexivity|]. intros [r H]. discriminate H.
Qed.

(** C9, witness: a legacy entry (a list under a name) between two
    dictionary entries; a list in the place of the dictionary of sheets;
    and an empty list there. *)
Lemma from_dict_skips_non_dicts_witness :
  let items := [(SStr "1", PDict [(SStr "a", PList [Atom (SInt 2); Atom (SInt 1)])]);
                (SStr "Legacy", PList [Atom (SInt 3)]);
                (SStr "2", PDict [(SStr "b", Atom SNone); (SStr "c", Atom (SStr "7"))])] in
  let data := [(SStr "pdf_filename", Atom (SStr "f")); (SStr "working_sheets", PDict items)] in
  let legacy := [(SStr "working_sheets", PList [Atom (SInt 3)])] in
  let blank := [(SStr "working_sheets", PList [])] in
  pages_iterable items /\
  (exists doc,
     from_dict data = Ok (doc, [WarnSkipped (SStr "Legacy") (PList [Atom (SInt 3)])]) /\
     load_sheets (dict_entries items) [] [] = Ok (working_sheets doc, [])) /\
  (exists doc,
     from_dict legacy = Ok (doc, [WarnNotDict (PList [Atom (SInt 3)])]) /\
     working_sheets doc = []) /\
  (exists doc, from_dict blank = Ok (doc, []) /\ working_sheets doc = []).
Proof.
  intros items data legacy blank.
  assert (Hit : pages_iterable items).
  { unfold pages_iterable, items. repeat constructor. }
  split; [exact Hit|]. split; [|split].
  - destruct (from_dict_skips_non_dicts data) as (_ & _ & H).
    exact (H items eq_refl Hit).
  - destruct (from_dict_skips_non_dicts legacy) as (H & _ & _).
    exact (H (PList [Atom (SInt 3)]) eq_refl eq_refl eq_refl).
  - destruct (from_dict_skips_non_dicts blank) as (_ & H & _).
    apply H. right. exists (PList []). split; reflexivity.
Defined.

(** C1, witness: pages 3 and 2 added to a sheet that holds 1 and 2, the
    id given as text; then page 2 added again. *)
Lemma add_existing_unions_pages_witness :
  let d := run_calls [(Atom (SInt 1), "A"%string, [Atom (SInt 2); Atom (SInt 1)])]
                     (empty_doc "f" "p") in
  entry (working_sheets d) 1 "A" = Some [1; 2] /\
  entry (working_sheets
           (add_working_sheet d (Atom (SStr "1")) "A" [Atom (SInt 3); Atom (SInt 2)]))
        1 "A" = Some [1; 2; 3] /\
  add_working_sheet d (Atom (SInt 1)) "A" [Atom (SInt 2)] = d.
Proof.
  intros d.
  assert (Hname : "A"%string <> EmptyString) by discriminate.
  split; [reflexivity|]. split.
  - destruct (add_existing_unions_pages d (Atom (SStr "1")) "A"
                [Atom (SInt 3); Atom (SInt 2)] [1; 2] eq_refl) as [H _].
    destruct (H Hname) as [H1 _]. exact H1.
  - destruct (add_existing_unions_pages d (Atom (SInt 1)) "A"
                [Atom (SInt 2)] [1; 2] eq_refl) as [H _].
    destruct (H Hname) as (_ & _ & _ & _ & H5).
    apply H5.
    + repeat constructor; lia.
    + intros p Hp. vm_compute in Hp. destruct Hp as [<-|[]].
      right. left. reflexivity.
Defined.

(** C1, counterexample: [from_dict] stores a sheet under the empty name;
    adding page 2 to that pair returns at the guard on the name, and the
    stored list stays [[1]] instead of becoming the union [[1; 2]]. *)
Lemma add_empty_name_counterexample :
  let data := [(SStr "working_sheets",
                PDict [(SStr "1", PDict [(SStr "", PList [Atom (SInt 1)])])])] in
  exists d w,
    from_dict data = Ok (d, w) /\
    entry (working_sheets d) 1 "" = Some [1] /\
    sorted_fromkeys ([1] ++ _normalize_pages [Atom (SInt 2)]) = [1; 2] /\
    entry (working_sheets (add_working_sheet d (Atom (SInt 1)) "" [Atom (SInt 2)]))
          1 "" = Some [1].
Proof.
  intros data. eexists _, _. split; [vm_compute; reflexivity|].
  repeat split; vm_compute; reflexivity.
Qed.

(** ** The serialization round trip *)

Lemma positive_ints_of_pages (ps : list Z) :
  one_based ps -> positive_ints (int_pages ps) = ps.
Proof.
  unfold one_based, int_pages. induction 1 as [|p t Hp _ IH]; simpl; [reflexivity|].
  destruct (Z.ltb_spec 0 p); [|lia]. now rewrite IH.
Qed.

Lemma normalize_stored_pages (ps : list Z) :
  ascending ps -> one_based ps -> _normalize_pages (int_pages ps) = ps.
Proof.
  intros Hasc Hone. unfold _normalize_pages.
  rewrite positive_ints_of_pages by assumption.
  rewrite <- (app_nil_r ps) at 1.
  apply sorted_fromkeys_absorb; [assumption|]. intros x [].
Qed.

Lemma iter_stored_pages (ps : list Z) :
  exists l, iter_or_empty (int_list ps) = Ok l /\ _normalize_pages l = 
            match ps with [] => [] | _ => _normalize_pages (int_pages ps) end.
Proof.
  destruct ps as [|p t].
  - exists []. split; reflexivity.
  - exists (int_pages (p :: t)). split; reflexivity.
Qed.

Lemma get_not_in_keys {V : Type} (n : string) (names : odict string V) :
  ~ In n (ODict.keys names) -> ODict.get String.eqb n names = None.
Proof.
  intros Hn. destruct (ODict.get String.eqb n names) eqn:E; [|reflexivity].
  exfalso. apply Hn. eapply get_some_in_keys; eauto using str_eqb_spec.
Qed.

Lemma get_not_in_keys_Z {V : Type} (k : Z) (ws : odict Z V) :
  ~ In k (ODict.keys ws) -> ODict.get Z.eqb k ws = None.
Proof.
  intros Hn. destruct (ODict.get Z.eqb k ws) eqn:E; [|reflexivity].
  exfalso. apply Hn. eapply get_some_in_keys; eauto using Z_eqb_spec.
Qed.

(** Loading the serialized names of one bucket. *)
Lemma load_serialized_names (k : Z) (names : odict string (list Z)) :
  normal_bucket names ->
  forall acc, exists acc',
    load_names k (map (fun np => (SStr (fst np), int_list (snd np))) names) acc = Ok acc' /\
    forall k' n',
      entry acc' k' n' =
      if Z.eqb k' k then
        match nonempty_entry (ODict.get String.eqb n' names) with
        | Some ps => Some ps
        | None => entry acc k' n'
        end
      else entry acc k' n'.
Proof.
  intros [Hnd Hall]. induction names as [|[n ps] t IH]; intros acc.
  - exists acc. split; [reflexivity|]. intros k' n'. simpl. now destruct (Z.eqb k' k).
  - inversion Hnd as [|? ? Hnotin Hnd']; subst.
    inversion Hall as [|? ? [Hasc Hone] Hall']; subst. simpl in Hasc, Hone.
    specialize (IH Hnd' Hall').
    cbn [map fst snd load_names].
    destruct (iter_stored_pages ps) as (l & -> & Hl). cbn [bind].
    rewrite Hl. destruct ps as [|p ps'].
    + destruct (IH acc) as (acc' & Hload & Hentry). exists acc'. split; [assumption|].
      intros k' n'. rewrite Hentry. cbn [ODict.get].
      destruct (Z.eqb k' k); [|reflexivity].
      destruct (String.eqb_spec n' n) as [->|_]; [|reflexivity].
      now rewrite (get_not_in_keys n t Hnotin).
    + rewrite (normalize_stored_pages (p :: ps') Hasc Hone). cbn [py_str].
      destruct (IH (ODict.set Z.eqb k
                      (ODict.set String.eqb n (p :: ps') (bucket_of acc k)) acc))
        as (acc' & Hload & Hentry).
      exists acc'. split; [assumption|].
      intros k' n'. rewrite Hentry, entry_set. cbn [ODict.get].
      destruct (Z.eqb k' k); [|reflexivity]. cbn [andb].
      destruct (String.eqb_spec n' n) as [->|_].
      * now rewrite (get_not_in_keys n t Hnotin).
      * reflexivity.
Qed.

Lemma entry_cons (k k' : Z) (names : odict string (list Z)) (t : sheets) (n' : string) :
  entry ((k, names) :: t) k' n' =
  if Z.eqb k' k then ODict.get String.eqb n' names else entry t k' n'.
Proof. unfold entry. simpl. destruct (Z.eqb k' k); reflexivity. Qed.

(** Loading the serialized buckets of a model. *)
Lemma load_serialized_sheets (ws : sheets) :
  NoDup (ODict.keys ws) ->
  Forall (fun kb => normal_bucket (snd kb)) ws ->
  forall acc, exists acc',
    load_sheets
      (map (fun kn => (SStr (str_of_int (fst kn)), serialize_names (snd kn))) ws)
      acc [] = Ok (acc', []) /\
    forall k' n',
      entry acc' k' n' =
      match nonempty_entry (entry ws k' n') with
      | Some ps => Some ps
      | None => entry acc k' n'
      end.
Proof.
  induction ws as [|[k names] t IH]; intros Hnd Hall acc.
  - exists acc. split; reflexivity.
  - inversion Hnd as [|? ? Hnotin Hnd']; subst.
    inversion Hall as [|? ? Hb Hall']; subst. simpl in Hb.
    cbn [map fst snd load_sheets serialize_names].
    rewrite coerce_str_of_int.
    destruct (load_serialized_names k names Hb acc) as (acc1 & -> & H1).
    cbn [bind].
    destruct (IH Hnd' Hall' acc1) as (acc' & Hload & Hentry).
    exists acc'. split; [assumption|].
    intros k' n'. rewrite Hentry, H1, entry_cons.
    destruct (Z.eqb_spec k' k) as [->|_]; [|reflexivity].
    unfold entry at 1. now rewrite (get_not_in_keys_Z k t Hnotin).
Qed.

(** C10. For a document that meets the invariant of the data model, with
    unique keys, [from_dict (to_dict d)] returns without a warning a
    document with the same file name and path, whose entries are exactly
    the entries of [d] with a non-empty page list, each with the same page
    list; an entry of [d] with an empty page list is absent from it. *)
Theorem round_trip_keeps_nonempty (d : PdfDocument) :
  wf_doc d -> unique_keys d ->
  exists d',
    from_dict (to_dict d) = Ok (d', []) /\
    pdf_filename d' = pdf_filename d /\ pdf_path d' = pdf_path d /\
    (forall k n, entry (working_sheets d') k n = nonempty_entry (entry (working_sheets d) k n)) /\
    (forall k n, entry (working_sheets d) k n = Some [] ->
                 entry (working_sheets d') k n = None).
Proof.
  intros Hwf Hu.
  assert (Hall : Forall (fun kb => normal_bucket (snd kb)) (working_sheets d)).
  { rewrite Forall_forall. intros [k b] Hkb. simpl. split.
    - destruct Hu as [_ Hb]. rewrite Forall_forall in Hb. exact (Hb _ Hkb).
    - rewrite Forall_forall. intros [n ps] Hn. simpl.
      apply (Hwf k n), (stored_is_entry d k b); assumption. }
  destruct (load_serialized_sheets (working_sheets d) (proj1 Hu) Hall [])
    as (ws' & Hload & Hentry).
  assert (Hsv : sheets_value (to_dict d) =
                PDict (map (fun kn => (SStr (str_of_int (fst kn)), serialize_names (snd kn)))
                           (working_sheets d))).
  { unfold sheets_value, to_dict, serialize_sheets. simpl.
    destruct (working_sheets d); reflexivity. }
  exists (mkPdfDocument (pdf_filename d) (pdf_path d) ws').
  assert (Hent : forall k n, entry ws' k n = nonempty_entry (entry (working_sheets d) k n)).
  { intros k n. rewrite Hentry.
    destruct (nonempty_entry (entry (working_sheets d) k n)); reflexivity. }
  split; [|split; [reflexivity|split; [reflexivity|split]]].
  - rewrite from_dict_unfold, Hsv, Hload. reflexivity.
  - exact Hent.
  - intros k n He. cbn [working_sheets]. rewrite Hent, He. reflexivity.
Qed.

(** C10, witness: a document with a two-page sheet and a sheet whose
    pages were never resolved. *)
Lemma round_trip_keeps_nonempty_witness :
  let d := run_calls [(Atom (SInt 4), "Plan"%string, [Atom (SInt 8); Atom (SInt 7)]);
                      (Atom (SInt 4), "Offen"%string, [])]
                     (empty_doc "f" "p") in
  entry (working_sheets d) 4 "Offen" = Some [] /\
  exists d',
    from_dict (to_dict d) = Ok (d', []) /\
    entry (working_sheets d') 4 "Plan" = Some [7; 8] /\
    entry (working_sheets d') 4 "Offen" = None.
Proof.
  intros d. split; [reflexivity|].
  destruct (round_trip_keeps_nonempty d) as (d' & Hrt & _ & _ & Hent & Hdrop).
  - apply run_calls_wf, empty_doc_wf.
  - apply run_calls_unique, empty_doc_unique.
  - exists d'. split; [exact Hrt|]. split.
    + rewrite Hent. reflexivity.
    + apply Hdrop. reflexivity.
Defined.

(** ** More on page lists *)

Lemma ascending_unique (l1 l2 : list Z) :
  ascending l1 -> ascending l2 -> (forall x, In x l1 <-> In x l2) -> l1 = l2.
Proof.
  unfold ascending. intros H1. revert l2.
  induction H1 as [|x t1 Hs1 IH Hall1]; intros l2 H2 Hmem.
  - destruct l2 as [|y t2]; [reflexivity|].
    exfalso. apply (Hmem y). now left.
  - destruct H2 as [|y t2 Hs2 Hall2].
    { exfalso. apply (Hmem x). now left. }
    rewrite Forall_forall in Hall1, Hall2.
    assert (Hxy : x = y).
    { destruct (proj1 (Hmem x) (or_introl eq_refl)) as [E|Hx]; [now symmetry|].
      destruct (proj2 (Hmem y) (or_introl eq_refl)) as [E|Hy]; [assumption|].
      specialize (Hall1 _ Hy). specialize (Hall2 _ Hx). lia. }
    subst y. f_equal. apply IH; [assumption|].
    intros z. split; intros Hz.
    + destruct (proj1 (Hmem z) (or_intror Hz)) as [E|Hz']; [|assumption].
      specialize (Hall1 _ Hz). lia.
    + destruct (proj2 (Hmem z) (or_intror Hz)) as [E|Hz']; [|assumption].
      specialize (Hall2 _ Hz). lia.
Qed.

Lemma in_positive_ints (pages : list pyval) (p : Z) :
  In p (positive_ints pages) <-> 0 < p /\ exists v, In v pages /\ py_int v = Some p.
Proof.
  induction pages as [|v t IH]; simpl.
  - split; [tauto|]. intros (_ & v & [] & _).
  - destruct (py_int v) as [pi|] eqn:E.
    + destruct (Z.ltb_spec 0 pi) as [Hpos|Hneg]; simpl; rewrite IH.
      * split.
        -- intros [<-|(Hp & w & Hw & Hi)]; [split; eauto|split; eauto].
        -- intros (Hp & w & [<-|Hw] & Hi); [left; congruence|right; eauto].
      * split.
        -- intros (Hp & w & Hw & Hi). split; eauto.
        -- intros (Hp & w & [<-|Hw] & Hi); [exfalso; assert (pi = p) by congruence; lia|eauto].
    + rewrite IH. split.
      * intros (Hp & w & Hw & Hi). split; eauto.
      * intros (Hp & w & [<-|Hw] & Hi); [congruence|eauto].
Qed.

Lemma sorted_fromkeys_fixed (ps : list Z) : ascending ps -> sorted_fromkeys ps = ps.
Proof.
  intros Hasc. rewrite <- (app_nil_r ps) at 1.
  apply sorted_fromkeys_absorb; [assumption|]. intros x [].
Qed.

Lemma in_normalize_pages (pages : list pyval) (p : Z) :
  In p (_normalize_pages pages) <-> 0 < p /\ exists v, In v pages /\ py_int v = Some p.
Proof.
  unfold _normalize_pages. rewrite sorted_fromkeys_in. apply in_positive_ints.
Qed.

(** X1. [_normalize_pages] gives a strictly ascending list that holds
    exactly the strictly positive integers that [int] reads from the
    elements of its argument; elements that [int] rejects, zero and
    negative numbers leave no trace. *)
Theorem normalize_pages_spec (pages : list pyval) :
  ascending (_normalize_pages pages) /\
  NoDup (_normalize_pages pages) /\
  forall p, In p (_normalize_pages pages) <->
            0 < p /\ exists v, In v pages /\ py_int v = Some p.
Proof.
  split; [apply normalize_ascending|].
  split; [apply ascending_nodup, normalize_ascending|].
  apply in_normalize_pages.
Qed.

(** X2. Two page arguments from which [int] reads the same positive
    numbers, in whatever order and however often, are normalized to the
    same list. *)
Theorem normalize_pages_order_free (pages pages' : list pyval) :
  (forall p, 0 < p ->
     ((exists v, In v pages /\ py_int v = Some p) <->
      (exists v, In v pages' /\ py_int v = Some p))) ->
  _normalize_pages pages = _normalize_pages pages'.
Proof.
  intros H. apply ascending_unique; try apply normalize_ascending.
  intros x. rewrite !in_normalize_pages. split; intros [Hp Hx]; (split; [assumption|]); now apply (H x Hp).
Qed.

(** X2, witness: [3, "1", 1, None] and ["3", 1]. *)
Lemma normalize_pages_order_free_witness :
  _normalize_pages [Atom (SInt 3); Atom (SStr "1"); Atom (SInt 1); Atom SNone] =
  _normalize_pages [Atom (SStr "3"); Atom (SInt 1)].
Proof.
  apply normalize_pages_order_free. intros p Hp. split.
  - intros (v & Hv & Hi). simpl in Hv.
    destruct Hv as [<-|[<-|[<-|[<-|[]]]]]; vm_compute in Hi; try discriminate;
      injection Hi as <-.
    + exists (Atom (SStr "3")). split; [now left|reflexivity].
    + exists (Atom (SInt 1)). split; [right; now left|reflexivity].
    + exists (Atom (SInt 1)). split; [right; now left|reflexivity].
  - intros (v & Hv & Hi). simpl in Hv.
    destruct Hv as [<-|[<-|[]]]; vm_compute in Hi; injection Hi as <-.
    + exists (Atom (SInt 3)). split; [now left|reflexivity].
    + exists (Atom (SInt 1)). split; [right; right; now left|reflexivity].
Defined.

(** X3. Normalizing a list that [_normalize_pages] produced changes
    nothing, as when the output writer normalizes stored pages again. *)
Theorem normalize_pages_idempotent (pages : list pyval) :
  _normalize_pages (int_pages (_normalize_pages pages)) = _normalize_pages pages.
Proof.
  apply normalize_stored_pages; [apply normalize_ascending|apply normalize_one_based].
Qed.

(** ** Lookup after addition *)

Lemma get_pages_entry (d : PdfDocument) (idv : pyval) (name : string) :
  get_pages d idv name =
  match entry (working_sheets d) (_coerce_id_to_int idv) name with
  | Some ps => ps
  | None => []
  end.
Proof.
  unfold get_pages, entry, bucket_of.
  destruct (ODict.get Z.eqb (_coerce_id_to_int idv) (working_sheets d)); reflexivity.
Qed.

Lemma entry_add_pages (d : PdfDocument) (idv : pyval) (name : string)
    (pages : list pyval) :
  name <> EmptyString ->
  entry (working_sheets (add_working_sheet d idv name pages)) (_coerce_id_to_int idv) name =
  Some (sorted_fromkeys
          (match entry (working_sheets d) (_coerce_id_to_int idv) name with
           | Some ps => ps
           | None => []
           end ++ _normalize_pages pages)).
Proof.
  intros Hname. rewrite entry_add by assumption.
  rewrite Z.eqb_refl, String.eqb_refl. cbn [andb].
  destruct (entry (working_sheets d) (_coerce_id_to_int idv) name); [reflexivity|].
  cbn [app]. now rewrite sorted_fromkeys_fixed by apply normalize_ascending.
Qed.

(** X4. After [add_working_sheet(id, name, pages)] with a non-empty name,
    [get_pages(id, name)] is the sorted duplicate-free union of what it
    was before and the normalized pages, whether the pair existed or not;
    [get_pages] of every other pair is what it was. *)
Theorem get_pages_after_add (d : PdfDocument) (idv : pyval) (name : string)
    (pages : list pyval) :
  name <> EmptyString ->
  get_pages (add_working_sheet d idv name pages) idv name =
    sorted_fromkeys (get_pages d idv name ++ _normalize_pages pages) /\
  (forall p, In p (get_pages (add_working_sheet d idv name pages) idv name) <->
             In p (get_pages d idv name) \/ In p (_normalize_pages pages)) /\
  (forall idv' name',
      (_coerce_id_to_int idv' <> _coerce_id_to_int idv \/ name' <> name) ->
      get_pages (add_working_sheet d idv name pages) idv' name' = get_pages d idv' name').
Proof.
  intros Hname.
  assert (H1 : get_pages (add_working_sheet d idv name pages) idv name =
               sorted_fromkeys (get_pages d idv name ++ _normalize_pages pages)).
  { rewrite !get_pages_entry, entry_add_pages by assumption. reflexivity. }
  split; [exact H1|]. split.
  - intros p. rewrite H1, sorted_fromkeys_in. apply in_app_iff.
  - intros idv' name' Hother. rewrite !get_pages_entry, entry_add by assumption.
    destruct (Z.eqb_spec (_coerce_id_to_int idv') (_coerce_id_to_int idv)) as [Ek|_];
      [|reflexivity].
    destruct (String.eqb_spec name' name) as [En|_]; [|reflexivity].
    destruct Hother; contradiction.
Qed.

(** X4, witness. *)
Lemma get_pages_after_add_witness :
  get_pages (add_working_sheet (empty_doc "f" "p") (Atom (SStr "7")) "Plan"
               [Atom (SInt 2); Atom (SInt 1); Atom (SInt 2)])
            (Atom (SInt 7)) "Plan" = [1; 2].
Proof.
  destruct (get_pages_after_add (empty_doc "f" "p") (Atom (SStr "7")) "Plan"
              [Atom (SInt 2); Atom (SInt 1); Atom (SInt 2)]) as [H _];
    [discriminate|].
  exact H.
Defined.

Lemma entry_add_at (d : PdfDocument) (idv : pyval) (name : string)
    (pages : list pyval) (k : Z) (n : string) :
  name <> EmptyString ->
  entry (working_sheets (add_working_sheet d idv name pages)) k n =
  if (Z.eqb k (_coerce_id_to_int idv) && String.eqb n name)%bool
  then Some (sorted_fromkeys
               (match entry (working_sheets d) k n with
                | Some ps => ps
                | None => []
                end ++ _normalize_pages pages))
  else entry (working_sheets d) k n.
Proof.
  intros Hname.
  destruct (Z.eqb_spec k (_coerce_id_to_int idv)) as [->|Hk].
  - destruct (String.eqb_spec n name) as [->|Hn]; cbn [andb].
    + now apply entry_add_pages.
    + rewrite entry_add by assumption.
      rewrite (proj2 (String.eqb_neq n name) Hn), andb_false_r. reflexivity.
  - rewrite entry_add by assumption.
    rewrite (proj2 (Z.eqb_neq _ _) Hk). reflexivity.
Qed.

(** X5. Two additions can be made in either order: every [get_pages]
    gives the same list afterwards, also when both additions go to the same
    [(id, name)] pair. *)
Theorem additions_commute (d : PdfDocument) (id1 id2 : pyval) (n1 n2 : string)
    (pages1 pages2 : list pyval) (idv : pyval) (name : string) :
  get_pages (add_working_sheet (add_working_sheet d id1 n1 pages1) id2 n2 pages2) idv name =
  get_pages (add_working_sheet (add_working_sheet d id2 n2 pages2) id1 n1 pages1) idv name.
Proof.
  destruct (String.eqb_spec n1 EmptyString) as [->|H1]; [now rewrite !add_empty_name|].
  destruct (String.eqb_spec n2 EmptyString) as [->|H2]; [now rewrite !add_empty_name|].
  rewrite !get_pages_entry.
  rewrite !entry_add_at by assumption.
  destruct (Z.eqb (_coerce_id_to_int idv) (_coerce_id_to_int id1) && String.eqb name n1)%bool,
           (Z.eqb (_coerce_id_to_int idv) (_coerce_id_to_int id2) && String.eqb name n2)%bool;
    try reflexivity.
  apply ascending_unique; try apply sorted_fromkeys_ascending.
  intros x. rewrite !sorted_fromkeys_in, !in_app_iff, !sorted_fromkeys_in, !in_app_iff.
  tauto.
Qed.

(** X6. An id given as the decimal text of an integer is the id given as
    that integer: [add_working_sheet] builds the same document and
    [get_pages] reads the same pages. *)
Theorem id_text_is_id (d : PdfDocument) (z : Z) (name : string) (pages : list pyval) :
  add_working_sheet d (Atom (SStr (str_of_int z))) name pages =
    add_working_sheet d (Atom (SInt z)) name pages /\
  get_pages d (Atom (SStr (str_of_int z))) name = get_pages d (Atom (SInt z)) name.
Proof.
  unfold add_working_sheet, get_pages. rewrite coerce_str_of_int. split; reflexivity.
Qed.

(** ** What [from_dict] and the setter store *)

(** Unique keys and normal page lists, on the sheets themselves. *)
Lemma store_keeps_unique (ws : sheets) (k : Z) (n : string) (v : list Z) :
  NoDup (ODict.keys ws) ->
  Forall (fun kb => NoDup (ODict.keys (snd kb))) ws ->
  NoDup (ODict.keys (ODict.set Z.eqb k (ODict.set String.eqb n v (bucket_of ws k)) ws)) /\
  Forall (fun kb => NoDup (ODict.keys (snd kb)))
         (ODict.set Z.eqb k (ODict.set String.eqb n v (bucket_of ws k)) ws).
Proof.
  intros Hk Hb. split.
  - now apply (nodup_keys_set Z.eqb Z_eqb_spec).
  - rewrite Forall_forall in *. intros [k' b'] Hin.
    apply in_set in Hin. destruct Hin as [Hin | ->]; [now apply Hb|].
    simpl. apply (nodup_keys_set String.eqb str_eqb_spec).
    unfold bucket_of. destruct (ODict.get Z.eqb k ws) as [b|] eqn:E; [|constructor].
    apply (get_some_in Z.eqb Z_eqb_spec) in E. exact (Hb _ E).
Qed.

Lemma load_names_ok (id_key : Z) (items : list (scalar * pyval)) :
  forall ws ws', loaded_ok ws -> load_names id_key items ws = Ok ws' -> loaded_ok ws'.
Proof.
  induction items as [|[name pages] t IH]; intros ws ws' Hok; simpl.
  - now intros [= <-].
  - destruct (iter_or_empty pages) as [l|e]; cbn [bind]; [|intros H; discriminate H].
    destruct (_normalize_pages l) as [|p ps] eqn:En; [now apply IH|].
    apply IH. destruct Hok as (He & Hk & Hb).
    split; [|now apply store_keeps_unique].
    intros k n qs. rewrite entry_set.
    destruct (Z.eqb k id_key && String.eqb n (py_str name))%bool; [|apply He].
    intros [= <-]. rewrite <- En.
    split; [rewrite En; discriminate|].
    split; [apply normalize_ascending|apply normalize_one_based].
Qed.

Lemma load_sheets_ok (items : list (scalar * pyval)) :
  forall ws log r, loaded_ok ws -> load_sheets items ws log = Ok r -> loaded_ok (fst r).
Proof.
  induction items as [|[raw val] t IH]; intros ws log r Hok; cbn [load_sheets].
  - now intros [= <-].
  - destruct val as [a|l|names]; try now apply IH.
    destruct (load_names (_coerce_id_to_int (Atom raw)) names ws) as [ws1|e] eqn:E;
      cbn [bind]; [|intros H; discriminate H].
    apply IH. eapply load_names_ok; eauto.
Qed.

(** X7. Whatever dictionary [from_dict] is given, a document that it
    returns holds only page lists that are non-empty, strictly ascending
    and 1-based, under unique ids and unique names. *)
Theorem from_dict_stores_normal_pages (data : list (scalar * pyval))
    (doc : PdfDocument) (log : list warning) :
  from_dict data = Ok (doc, log) ->
  (forall k n ps, entry (working_sheets doc) k n = Some ps ->
                  ps <> [] /\ ascending ps /\ one_based ps) /\
  unique_keys doc.
Proof.
  rewrite from_dict_unfold.
  assert (H0 : loaded_ok []).
  { split; [intros k n ps; discriminate|split; constructor]. }
  destruct (sheets_value data) as [a|l|items].
  - intros [= <- _]. destruct H0 as (He & Hk & Hb). split; [exact He|split; assumption].
  - intros [= <- _]. destruct H0 as (He & Hk & Hb). split; [exact He|split; assumption].
  - destruct (load_sheets items [] []) as [r|e] eqn:E; simpl; [|intros H; discriminate H].
    intros [= <- _]. destruct (load_sheets_ok items [] [] r H0 E) as (He & Hk & Hb).
    split; [exact He|split; assumption].
Qed.

(** X7, witness: unsorted pages with a duplicate, text, a negative number
    and a name without usable pages. *)
Lemma from_dict_stores_normal_pages_witness :
  let data := [(SStr "working_sheets",
                PDict [(SStr "3", PDict [(SStr "a", PList [Atom (SInt 9); Atom (SStr "2");
                                                          Atom (SInt 9); Atom (SInt (-1))]);
                                         (SStr "b", PList [Atom (SStr "x")])])])] in
  let doc := mkPdfDocument "" "" [(3, [("a"%string, [2; 9])])] in
  from_dict data = Ok (doc, []) /\
  ([2; 9] <> [] /\ ascending [2; 9] /\ one_based [2; 9]).
Proof.
  intros data doc.
  assert (E : from_dict data = Ok (doc, [])) by (vm_compute; reflexivity).
  split; [exact E|].
  destruct (from_dict_stores_normal_pages data doc [] E) as [H _].
  apply (H 3 "a"%string). reflexivity.
Defined.

Lemma set_names_ok (items : list (scalar * pyval)) :
  forall b b', normal_bucket b -> set_names items b = Ok b' -> normal_bucket b'.
Proof.
  induction items as [|[name pages] t IH]; intros b b' Hb; cbn [set_names].
  - now intros [= <-].
  - destruct (iter_or_empty pages) as [l|e]; cbn [bind]; [|intros H; discriminate H].
    apply IH. destruct Hb as [Hnd Hall]. split.
    + now apply (nodup_keys_set String.eqb str_eqb_spec).
    + rewrite Forall_forall in *. intros [n ps] Hin.
      apply in_set in Hin. destruct Hin as [Hin | ->]; [now apply Hall|].
      simpl. split; [apply normalize_ascending|apply normalize_one_based].
Qed.

Lemma set_sheets_ok (items : list (scalar * pyval)) :
  forall ws ws',
    NoDup (ODict.keys ws) -> Forall (fun kb => normal_bucket (snd kb)) ws ->
    set_sheets items ws = Ok ws' ->
    NoDup (ODict.keys ws') /\ Forall (fun kb => normal_bucket (snd kb)) ws'.
Proof.
  induction items as [|[raw_k names] t IH]; intros ws ws' Hk Hb; cbn [set_sheets].
  - intros [= <-]. auto.
  - destruct (negb (key_accepted raw_k)); [intros H; discriminate H|].
    destruct names as [a|l|name_items]; try (intros H; discriminate H).
    destruct (key_to_int raw_k) as [id_key|e]; cbn [bind]; [|intros H; discriminate H].
    destruct (set_names name_items []) as [b|e] eqn:Eb; cbn [bind];
      [|intros H; discriminate H].
    apply IH.
    + now apply (nodup_keys_set Z.eqb Z_eqb_spec).
    + rewrite Forall_forall in *. intros [k' b'] Hin.
      apply in_set in Hin. destruct Hin as [Hin | ->]; [now apply Hb|].
      simpl. apply (set_names_ok name_items [] b); [|assumption].
      split; constructor.
Qed.

(** X8. A value that the setter of [working_sheets] accepts is stored
    normalized: afterwards every page list of the document is strictly
    ascending and 1-based, ids and names are unique, and the file name and
    the path are the ones the document had. *)
Theorem setter_stores_normal_pages (self : PdfDocument) (value : pyval)
    (d' : PdfDocument) :
  set_working_sheets self value = Ok d' ->
  (forall k n ps, entry (working_sheets d') k n = Some ps ->
                  ascending ps /\ one_based ps) /\
  unique_keys d' /\
  pdf_filename d' = pdf_filename self /\ pdf_path d' = pdf_path self.
Proof.
  unfold set_working_sheets.
  destruct value as [a|l|items]; try (intros H; discriminate H).
  destruct (set_sheets items []) as [ws|e] eqn:E; cbn [bind]; [|intros H; discriminate H].
  intros [= <-]. cbn [working_sheets pdf_filename pdf_path].
  destruct (set_sheets_ok items [] ws) as [Hk Hb]; [constructor|constructor|assumption|].
  split; [|split; [|split; reflexivity]].
  - intros k n ps He. unfold entry in He.
    destruct (ODict.get Z.eqb k ws) as [b|] eqn:Eb; [|discriminate].
    apply (get_some_in Z.eqb Z_eqb_spec) in Eb.
    apply (get_some_in String.eqb str_eqb_spec) in He.
    rewrite Forall_forall in Hb. destruct (Hb _ Eb) as [_ Hall].
    rewrite Forall_forall in Hall. exact (Hall _ He).
  - split; [assumption|]. cbn [working_sheets].
    rewrite Forall_forall in *. intros kb Hin. exact (proj1 (Hb _ Hin)).
Qed.

(** X8, witness: text keys and unsorted pages. *)
Lemma setter_stores_normal_pages_witness :
  let value := PDict [(SStr "4", PDict [(SStr "a", PList [Atom (SInt 3); Atom (SInt 1)])]);
                      (SInt 2, PDict [(SStr "b", Atom SNone)])] in
  let d' := mkPdfDocument "f" "p" [(4, [("a"%string, [1; 3])]); (2, [("b"%string, [])])] in
  set_working_sheets (empty_doc "f" "p") value = Ok d' /\
  ascending [1; 3] /\ one_based [1; 3].
Proof.
  intros value d'.
  assert (E : set_working_sheets (empty_doc "f" "p") value = Ok d')
    by (vm_compute; reflexivity).
  split; [exact E|].
  destruct (setter_stores_normal_pages _ _ _ E) as [H _].
  apply (H 4 "a"%string). reflexivity.
Defined.

Lemma set_sheets_rejects (items : list (scalar * pyval)) (k : scalar) (v : pyval) :
  In (k, v) items -> key_accepted k = false \/ is_dict v = false ->
  forall ws, exists e, set_sheets items ws = Raise e.
Proof.
  induction items as [|[raw_k names] t IH]; intros Hin Hbad ws; [destruct Hin|].
  cbn [set_sheets]. destruct Hin as [[= -> ->]|Hin].
  - destruct Hbad as [-> | Hv]; [cbn [negb]; eauto|].
    destruct (negb (key_accepted k)); [eauto|].
    destruct v; try discriminate Hv; eauto.
  - destruct (negb (key_accepted raw_k)); [eauto|].
    destruct names as [a|l|name_items]; eauto.
    destruct (key_to_int raw_k) as [id_key|e]; cbn [bind]; [|eauto].
    destruct (set_names name_items []) as [b|e]; cbn [bind]; [|eauto].
    now apply IH.
Qed.

(** X9. The setter rejects the legacy shape: a value that is not a
    dictionary, or a dictionary with an entry whose key is neither an
    integer nor digit text or whose value is not a dictionary, raises, and
    nothing is stored. *)
Theorem setter_rejects_legacy (self : PdfDocument) (value : pyval) :
  (is_dict value = false -> set_working_sheets self value = Raise ValueError) /\
  (forall items k v,
      value = PDict items -> In (k, v) items ->
      key_accepted k = false \/ is_dict v = false ->
      exists e, set_working_sheets self value = Raise e).
Proof.
  split.
  - destruct value; try discriminate; reflexivity.
  - intros items k v -> Hin Hbad. unfold set_working_sheets.
    destruct (set_sheets_rejects items k v Hin Hbad []) as [e ->]. cbn [bind]. eauto.
Qed.

(** X9, witness: the legacy shape, name to pages. *)
Lemma setter_rejects_legacy_witness :
  exists e,
    set_working_sheets (empty_doc "f" "p")
      (PDict [(SStr "1", PDict []); (SStr "Plan", PList [Atom (SInt 1)])]) = Raise e.
Proof.
  destruct (setter_rejects_legacy (empty_doc "f" "p")
              (PDict [(SStr "1", PDict []); (SStr "Plan", PList [Atom (SInt 1)])]))
    as [_ H].
  apply (H _ (SStr "Plan") (PList [Atom (SInt 1)]) eq_refl).
  - right. left. reflexivity.
  - left. reflexivity.
Defined.

Lemma set_new_key {K V : Type} (eqb : K -> K -> bool)
    (eqb_spec : forall x y, reflect (x = y) (eqb x y))
    (k : K) (v : V) (d : odict K V) :
  ~ In k (ODict.keys d) -> ODict.set eqb k v d = d ++ [(k, v)].
Proof.
  intros Hn. rewrite <- (app_nil_r d) at 1.
  now rewrite (set_app_new eqb eqb_spec).
Qed.

Lemma keys_app {K V : Type} (a b : odict K V) :
  ODict.keys (a ++ b) = ODict.keys a ++ ODict.keys b.
Proof. unfold ODict.keys. apply map_app. Qed.

Lemma set_names_serialized (names : odict string (list Z)) :
  Forall (fun np => ascending (snd np) /\ one_based (snd np)) names ->
  forall acc,
    NoDup (ODict.keys acc ++ ODict.keys names) ->
    set_names (map (fun np => (SStr (fst np), int_list (snd np))) names) acc =
    Ok (acc ++ names).
Proof.
  induction 1 as [|[n ps] t [Hasc Hone] _ IH]; intros acc Hnd.
  - simpl. now rewrite app_nil_r.
  - cbn [map fst snd set_names] in *.
    destruct (iter_stored_pages ps) as (l & -> & Hl). cbn [bind py_str].
    assert (Hn : _normalize_pages l = ps).
    { rewrite Hl. destruct ps; [reflexivity|now apply normalize_stored_pages]. }
    rewrite Hn.
    assert (Hnew : ~ In n (ODict.keys acc)).
    { intros Hin. apply NoDup_remove_2 in Hnd. apply Hnd, in_or_app. now left. }
    rewrite (set_new_key String.eqb str_eqb_spec) by assumption.
    rewrite IH.
    + now rewrite <- app_assoc.
    + rewrite keys_app, <- app_assoc. exact Hnd.
Qed.

Lemma str_of_nonneg_isdigit (k : Z) : 0 <= k -> isdigit (str_of_int k) = true.
Proof.
  intros Hk. unfold isdigit. apply andb_true_iff. split.
  - pose proof (int_of_str_of_int k) as Hi.
    destruct (String.eqb_spec (str_of_int k) EmptyString) as [E|_]; [|reflexivity].
    rewrite E in Hi. discriminate Hi.
  - apply (forallb_str_impl is_digit).
    + intros c ->. reflexivity.
    + unfold str_of_int. destruct k as [|p|p]; try lia; apply string_of_uint_digits.
Qed.

Lemma set_sheets_serialized (ws : sheets) :
  Forall (fun kb => 0 <= fst kb /\ normal_bucket (snd kb)) ws ->
  forall acc,
    NoDup (ODict.keys acc ++ ODict.keys ws) ->
    set_sheets
      (map (fun kn => (SStr (str_of_int (fst kn)), serialize_names (snd kn))) ws) acc =
    Ok (acc ++ ws).
Proof.
  induction 1 as [|[k names] t [Hk [Hnd Hall]] _ IH]; intros acc Hacc.
  - simpl. now rewrite app_nil_r.
  - cbn [map fst snd set_sheets serialize_names key_accepted key_to_int] in *.
    rewrite str_of_nonneg_isdigit by assumption. cbn [negb].
    rewrite int_of_str_of_int. cbn [bind].
    rewrite (set_names_serialized names Hall []) by exact Hnd.
    cbn [bind app].
    assert (Hnew : ~ In k (ODict.keys acc)).
    { intros Hin. apply NoDup_remove_2 in Hacc. apply Hacc, in_or_app. now left. }
    rewrite (set_new_key Z.eqb Z_eqb_spec) by assumption.
    rewrite IH.
    + now rewrite <- app_assoc.
    + rewrite keys_app, <- app_assoc. exact Hacc.
Qed.

(** X10. The setter takes back what [to_dict] wrote: for a document with
    unique ids and names, ids that are not negative, and page lists that
    are strictly ascending and 1-based, assigning the serialized sheets
    restores the sheets exactly, empty page lists included (which
    [from_dict] drops). *)
Theorem setter_restores_serialized (self d : PdfDocument) :
  unique_keys d ->
  (forall k, In k (ODict.keys (working_sheets d)) -> 0 <= k) ->
  (forall k n ps, entry (working_sheets d) k n = Some ps ->
                  ascending ps /\ one_based ps) ->
  set_working_sheets self (serialize_sheets (working_sheets d)) =
  Ok (mkPdfDocument (pdf_filename self) (pdf_path self) (working_sheets d)).
Proof.
  intros Hu Hkeys Hpages. unfold set_working_sheets, serialize_sheets.
  rewrite (set_sheets_serialized (working_sheets d)); [reflexivity| |exact (proj1 Hu)].
  rewrite Forall_forall. intros [k b] Hkb. cbn [fst snd]. split.
  - apply Hkeys. change k with (fst (k, b)). now apply in_map.
  - split.
    + destruct Hu as [_ Hb]. rewrite Forall_forall in Hb. exact (Hb _ Hkb).
    + rewrite Forall_forall. intros [n ps] Hn. cbn [snd].
      apply (Hpages k n), (stored_is_entry d k b); assumption.
Qed.

(** X10, witness: a sheet with two pages and a sheet without pages. *)
Lemma setter_restores_serialized_witness :
  let d := run_calls [(Atom (SInt 4), "Plan"%string, [Atom (SInt 8); Atom (SInt 7)]);
                      (Atom (SInt 0), "Offen"%string, [])]
                     (empty_doc "f" "p") in
  set_working_sheets (empty_doc "g" "q") (serialize_sheets (working_sheets d)) =
  Ok (mkPdfDocument "g" "q" [(4, [("Plan"%string, [7; 8])]); (0, [("Offen"%string, [])])]).
Proof.
  intros d.
  apply (setter_restores_serialized (empty_doc "g" "q") d).
  - apply run_calls_unique, empty_doc_unique.
  - intros k Hk. vm_compute in Hk. destruct Hk as [<-|[<-|[]]]; lia.
  - intros k n ps He.
    destruct (run_calls_wf _ _ (empty_doc_wf "f" "p") k n ps He) as (_ & H1 & H2).
    split; assumption.
Defined.

(** ** More on the last-page estimator *)

Lemma doc_length_pos (pages : list string) : pages <> [] -> 1 <= doc_length pages.
Proof.
  unfold doc_length. destruct pages; [congruence|]. cbn [List.length]. lia.
Qed.

(** X11. With pages present, a start page outside the document, or a scan
    window that is not positive, leaves the estimator no page to look at:
    it returns the smaller of the start page and the document length. *)
Theorem determine_last_page_nothing_to_scan (pages : list string) (start_page : Z)
    (current_id max_scan : option Z) :
  pages <> [] ->
  start_page < 1 \/ doc_length pages < start_page \/
    (exists n, max_scan = Some n /\ n <= 0) ->
  determine_last_page pages start_page current_id max_scan =
  Z.min start_page (doc_length pages).
Proof.
  intros Hne Hcase. unfold determine_last_page, determine_last_page_how.
  destruct pages as [|p ps]; [congruence|].
  set (pages := p :: ps) in *.
  match goal with
  | |- snd (scan_forward _ _ _ ?n _) = _ => destruct n as [|n'] eqn:En
  end; [reflexivity|].
  cbn [scan_forward]. rewrite Z.add_0_r.
  destruct Hcase as [Hlow|[Hhigh|(n & -> & Hn)]].
  - destruct (Z.ltb_spec start_page 1); [reflexivity|lia].
  - destruct (Z.ltb_spec (doc_length pages) start_page);
      [now rewrite orb_true_r|lia].
  - exfalso. clear -En Hn. lia.
Qed.

(** X11, witness: page 9 of a document of two pages. *)
Lemma determine_last_page_nothing_to_scan_witness :
  determine_last_page ["a"; "b 1/2"]%string 9 (Some 3) None = 2.
Proof.
  apply (determine_last_page_nothing_to_scan ["a"; "b 1/2"]%string 9 (Some 3) None).
  - discriminate.
  - right. left. vm_compute. reflexivity.
Defined.

Lemma in_page_range (a b p : Z) : In p (page_range a b) <-> a <= p <= b.
Proof.
  unfold page_range. rewrite in_map_iff. split.
  - intros (i & <- & Hi). apply in_seq in Hi. lia.
  - intros Hp. exists (Z.to_nat (p - a)). split; [lia|].
    apply in_seq. lia.
Qed.

Lemma page_range_ascending (a b : Z) : ascending (page_range a b).
Proof.
  unfold page_range, ascending.
  generalize (Z.to_nat (b - a + 1)) as n. intros n.
  assert (H : forall n s, StronglySorted Z.lt (map (fun i => a + Z.of_nat i) (seq s n))).
  { clear. induction n as [|n IH]; intros s; simpl; constructor; [apply IH|].
    rewrite Forall_forall. intros x Hx. apply in_map_iff in Hx.
    destruct Hx as (i & <- & Hi). apply in_seq in Hi. lia. }
  apply H.
Qed.

Lemma determine_last_page_le (pages : list string) (start_page : Z)
    (current_id max_scan : option Z) :
  pages <> [] ->
  determine_last_page pages start_page current_id max_scan <= doc_length pages.
Proof.
  intros Hne. unfold determine_last_page, determine_last_page_how.
  destruct pages as [|p ps]; [congruence|].
  match goal with
  | |- context [scan_forward ?a ?b ?c ?d ?e] =>
      destruct (scan_forward_bounds a b c d e) as (Hup & _)
  end.
  exact Hup.
Qed.

Lemma pages_from_le (pages : list string) (start_page current_id p : Z) :
  pages <> [] -> In p (pages_from pages start_page current_id) -> p <= doc_length pages.
Proof.
  intros Hne Hp. unfold pages_from in Hp. apply in_page_range in Hp.
  pose proof (determine_last_page_le pages start_page (Some current_id) None Hne). lia.
Qed.

(** X12. The pages that the table-of-contents pass and the global scan
    give to a sheet that starts at [start_page] are the consecutive pages
    from [start_page] to the estimated last page, none of them beyond the
    document; the list is empty when the estimate lies before the start. *)
Theorem pages_from_in_document (pages : list string) (start_page current_id p : Z) :
  pages <> [] ->
  ascending (pages_from pages start_page current_id) /\
  (In p (pages_from pages start_page current_id) <->
   start_page <= p <= determine_last_page pages start_page (Some current_id) None) /\
  (In p (pages_from pages start_page current_id) -> p <= doc_length pages).
Proof.
  intros Hne. unfold pages_from.
  split; [apply page_range_ascending|]. split; [apply in_page_range|].
  fold (pages_from pages start_page current_id). now apply pages_from_le.
Qed.

(** X12, witness: page 2 of three shows [3/4]; the count interpretation
    gives the pages 2 and 3. *)
Lemma pages_from_in_document_witness :
  pages_from ["a"; "AB 4 x 3/4"; "AB 4 x 4/4"]%string 2 4 = [2; 3] /\
  3 <= doc_length ["a"; "AB 4 x 3/4"; "AB 4 x 4/4"]%string.
Proof.
  split; [vm_compute; reflexivity|].
  destruct (pages_from_in_document ["a"; "AB 4 x 3/4"; "AB 4 x 4/4"]%string 2 4 3)
    as (_ & _ & H); [discriminate|].
  apply H. vm_compute. right. left. reflexivity.
Defined.

(** ** The entry locator *)

Lemma first_page_from_spec (p : string -> bool) (pages : list string) :
  forall start pg,
    first_page_from p pages start = Some pg ->
    start <= pg < start + Z.of_nat (List.length pages) /\
    p (page_at pages (Z.to_nat (pg - start))) = true /\
    (forall q, start <= q < pg -> p (page_at pages (Z.to_nat (q - start))) = false).
Proof.
  induction pages as [|txt t IH]; intros start pg; simpl; [discriminate|].
  destruct (p txt) eqn:Ep.
  - intros [= <-]. rewrite Z.sub_diag. simpl. repeat split; try lia; assumption.
  - intros H. destruct (IH _ _ H) as (Hb & Hp & Hmin).
    assert (E : forall q, start + 1 <= q ->
                          page_at (txt :: t) (Z.to_nat (q - start)) =
                          page_at t (Z.to_nat (q - (start + 1)))).
    { intros q Hq. unfold page_at.
      replace (Z.to_nat (q - start)) with (S (Z.to_nat (q - (start + 1)))) by lia.
      reflexivity. }
    split; [lia|]. split; [rewrite E by lia; assumption|].
    intros q Hq. destruct (Z.eq_dec q start) as [->|Hne].
    + rewrite Z.sub_diag. exact Ep.
    + rewrite E by lia. apply Hmin. lia.
Qed.

Lemma first_page_from_some (p : string -> bool) (pages : list string) :
  (exists txt, In txt pages /\ p txt = true) ->
  forall start, exists pg, first_page_from p pages start = Some pg.
Proof.
  induction pages as [|txt t IH]; intros (x & Hin & Hp) start; [destruct Hin|].
  simpl. destruct (p txt) eqn:Ep; [eauto|].
  destruct Hin as [->|Hin]; [congruence|]. apply IH. eauto.
Qed.

Lemma first_token_page_bounds (tokens : list string) (pages : list string) (pg : Z) :
  first_token_page tokens pages = Some pg -> 1 <= pg <= doc_length pages.
Proof.
  induction tokens as [|tok t IH]; simpl; [discriminate|].
  destruct (first_page _ pages) as [f|] eqn:E; [|assumption].
  intros [= <-]. apply first_page_from_spec in E. unfold doc_length. lia.
Qed.

Lemma find_page_bounds (pages : list string) (id_int : option Z)
    (name : option string) (pg : Z) :
  _find_page_for_entry pages id_int name = Some pg -> 1 <= pg <= doc_length pages.
Proof.
  unfold _find_page_for_entry.
  destruct pages as [|p0 ps]; [discriminate|].
  set (pages := p0 :: ps).
  assert (Hname : forall nm : option string,
             match nm with
             | Some nm =>
                 if String.eqb nm EmptyString then None
                 else
                   let name_norm := lower (sub (Plus is_space) " " (strip nm)) in
                   if String.eqb name_norm EmptyString then None
                   else
                     match first_page
                             (fun txt => contains name_norm (lower (clean_header_text txt)))
                             pages with
                     | Some pg => Some pg
                     | None => first_token_page (findall long_token_re name_norm) pages
                     end
             | None => None
             end = Some pg -> 1 <= pg <= doc_length pages).
  { intros [nm|]; [|discriminate].
    destruct (String.eqb nm EmptyString); [discriminate|]. cbv zeta.
    destruct (String.eqb _ EmptyString); [discriminate|].
    match goal with
    | |- match first_page ?p ?l with _ => _ end = _ -> _ =>
        destruct (first_page p l) as [f|] eqn:E2
    end.
    - intros [= <-]. apply first_page_from_spec in E2. unfold doc_length. lia.
    - apply first_token_page_bounds. }
  destruct (nonzero id_int) as [id|]; [|apply Hname].
  match goal with
  | |- match first_page ?p ?l with _ => _ end = _ -> _ =>
      destruct (first_page p l) as [f|] eqn:E
  end; [|apply Hname].
  intros [= <-]. apply first_page_from_spec in E. unfold doc_length. lia.
Qed.

(** X13. A page that [_find_page_for_entry] returns is a page of the
    document; and when an id other than 0 is given and some page shows it
    in its header, the answer is the first such page, whatever the name. *)
Theorem find_page_for_entry_spec (pages : list string) (id_int : option Z)
    (name : option string) :
  (forall pg, _find_page_for_entry pages id_int name = Some pg ->
              1 <= pg <= doc_length pages) /\
  (forall id,
      id_int = Some id -> id <> 0 ->
      (exists txt, In txt pages /\ hdr_id (parse_ab_header txt) = Some id) ->
      exists pg,
        _find_page_for_entry pages id_int name = Some pg /\
        hdr_id (parse_ab_header (page_at pages (Z.to_nat (pg - 1)))) = Some id /\
        forall q, 1 <= q < pg ->
                  hdr_id (parse_ab_header (page_at pages (Z.to_nat (q - 1)))) <> Some id).
Proof.
  split; [intros pg; apply find_page_bounds|].
  intros id -> Hid (txt & Hin & Htxt). unfold _find_page_for_entry.
  destruct pages as [|p0 ps]; [destruct Hin|].
  set (pages := p0 :: ps) in *.
  cbn [nonzero]. rewrite (proj2 (Z.eqb_neq id 0) Hid).
  destruct (first_page_from_some
              (fun t => opt_eqb (hdr_id (parse_ab_header t)) id) pages) with (start := 1)
    as [pg Hpg].
  { exists txt. split; [assumption|]. rewrite Htxt. simpl. apply Z.eqb_refl. }
  unfold first_page. rewrite Hpg. exists pg. split; [reflexivity|].
  apply first_page_from_spec in Hpg. destruct Hpg as (_ & Hp & Hmin).
  split.
  - destruct (hdr_id (parse_ab_header (page_at pages (Z.to_nat (pg - 1))))) as [h|];
      simpl in Hp; [|discriminate]. apply Z.eqb_eq in Hp. now subst.
  - intros q Hq Heq. specialize (Hmin q Hq). rewrite Heq in Hmin. simpl in Hmin.
    rewrite Z.eqb_refl in Hmin. discriminate.
Qed.

(** X13, witness: id 7 is shown on pages 2 and 3; page 2 is returned. *)
Lemma find_page_for_entry_spec_witness :
  exists pg,
    _find_page_for_entry ["x"; "AB 7 / A"; "AB 7 / A"]%string (Some 7) (Some "A"%string)
      = Some pg /\
    1 <= pg <= doc_length ["x"; "AB 7 / A"; "AB 7 / A"]%string.
Proof.
  destruct (find_page_for_entry_spec ["x"; "AB 7 / A"; "AB 7 / A"]%string (Some 7)
              (Some "A"%string)) as [Hb Hfirst].
  destruct (Hfirst 7 eq_refl) as (pg & Hpg & _).
  - discriminate.
  - exists "AB 7 / A"%string. split; [right; now left|vm_compute; reflexivity].
  - exists pg. split; [exact Hpg|]. now apply Hb.
Defined.

(** ** More on the header block builder *)

Lemma relax_length (pages : list string) :
  forall hm, List.length (relax pages hm) = List.length hm.
Proof.
  induction pages as [|txt t IH]; intros [|label ht]; simpl; auto.
Qed.

Lemma header_map_length (pages : list string) :
  List.length (header_map pages) = List.length pages.
Proof.
  unfold header_map.
  destruct (count_nonzero (header_labels pages) <? _);
    rewrite ?relax_length; unfold header_labels; apply length_map.
Qed.

Lemma run_length_le (cur : Z) (l : list Z) : (run_length cur l <= List.length l)%nat.
Proof.
  induction l as [|v t IH]; simpl; [lia|]. destruct (Z.eqb v cur); simpl; lia.
Qed.

Lemma run_end_le (cur : Z) (hm : list Z) (i : nat) :
  (i < List.length hm)%nat ->
  (S i + run_length cur (skipn (S i) hm) <= List.length hm)%nat.
Proof.
  intros Hi. pose proof (run_length_le cur (skipn (S i) hm)) as H.
  rewrite length_skipn in H. lia.
Qed.

Lemma blocks_loop_inv (pages : list string) (hm : list Z) :
  List.length hm = List.length pages ->
  forall fuel i,
    Forall (fun b => block_ok (doc_length pages) b /\ Z.of_nat i < snd (fst b))
           (blocks_loop pages hm fuel i) /\
    StronglySorted block_before (blocks_loop pages hm fuel i).
Proof.
  intros Hlen. induction fuel as [|fuel IH]; intros i; cbn [blocks_loop].
  - split; constructor.
  - destruct (Nat.leb_spec (List.length pages) i) as [Hge|Hlt]; [split; constructor|].
    destruct (Z.ltb_spec 0 (nth i hm 0)) as [Hpos|Hnp].
    + destruct (both_nonzero _ _) as [[curr total_cnt]|].
      * set (start := Z.of_nat i + 1).
        set (e0 := Z.min (Z.of_nat (List.length pages)) (start + (total_cnt - curr))).
        set (end_page := if e0 <? start then start else e0).
        assert (Hend : start <= end_page <= doc_length pages).
        { unfold end_page, e0, doc_length.
          destruct (Z.ltb_spec (Z.min (Z.of_nat (List.length pages))
                                      (start + (total_cnt - curr))) start); lia. }
        destruct (IH (Z.to_nat end_page)) as [Hall Hs].
        split.
        -- constructor.
           ++ split; [|cbn [fst snd]; lia]. cbn [block_ok]. unfold start in *. lia.
           ++ eapply Forall_impl; [|exact Hall]. intros b [Hok Hb].
              split; [assumption|]. unfold start in *. lia.
        -- constructor; [assumption|].
           eapply Forall_impl; [|exact Hall]. intros b [_ Hb].
           unfold block_before. cbn [fst snd]. lia.
      * set (j := (S i + run_length (nth i hm 0%Z) (skipn (S i) hm))%nat).
        assert (Hj : (S i <= j <= List.length pages)%nat).
        { unfold j. split; [lia|]. rewrite <- Hlen. apply run_end_le. lia. }
        destruct (IH j) as [Hall Hs].
        split.
        -- constructor.
           ++ split; [|cbn [fst snd]; lia]. cbn [block_ok]. unfold doc_length. lia.
           ++ eapply Forall_impl; [|exact Hall]. intros b [Hok Hb].
              split; [assumption|]. lia.
        -- constructor; [assumption|].
           eapply Forall_impl; [|exact Hall]. intros b [_ Hb].
           unfold block_before. cbn [fst snd]. lia.
    + destruct (IH (S i)) as [Hall Hs]. split; [|assumption].
      eapply Forall_impl; [|exact Hall]. intros b [Hok Hb]. split; [assumption|lia].
Qed.

(** More rounds than pages left change nothing. *)
Lemma blocks_loop_fuel (pages : list string) (hm : list Z) :
  forall fuel1 fuel2 i,
    (List.length pages - i <= fuel1)%nat -> (List.length pages - i <= fuel2)%nat ->
    blocks_loop pages hm fuel1 i = blocks_loop pages hm fuel2 i.
Proof.
  induction fuel1 as [|fuel1 IH]; intros fuel2 i H1 H2.
  - rewrite !blocks_loop_done by lia. reflexivity.
  - destruct (Nat.le_gt_cases (List.length pages) i) as [Hge|Hlt].
    { rewrite !blocks_loop_done by lia. reflexivity. }
    destruct fuel2 as [|fuel2]; [lia|].
    cbn [blocks_loop].
    destruct (Nat.leb_spec (List.length pages) i) as [Hge|_]; [lia|].
    destruct (0 <? nth i hm 0); [|apply IH; lia].
    destruct (both_nonzero _ _) as [[curr total_cnt]|].
    + f_equal. apply IH.
      * destruct (Z.ltb_spec (Z.min (Z.of_nat (List.length pages))
                                    (Z.of_nat i + 1 + (total_cnt - curr)))
                             (Z.of_nat i + 1)); lia.
      * destruct (Z.ltb_spec (Z.min (Z.of_nat (List.length pages))
                                    (Z.of_nat i + 1 + (total_cnt - curr)))
                             (Z.of_nat i + 1)); lia.
    + f_equal. apply IH; lia.
Qed.

Lemma build_blocks_ok (pages : list string) :
  Forall (block_ok (doc_length pages)) (build_blocks pages).
Proof.
  unfold build_blocks.
  destruct (blocks_loop_inv pages (header_map pages) (header_map_length pages)
              (List.length pages) 0) as [Hall _].
  eapply Forall_impl; [|exact Hall]. intros b [Hok _]. exact Hok.
Qed.

(** X14. Every block that the header block builder produces has a
    positive id and a page range inside the document, with its start page
    not after its end page; the blocks come in page order and do not
    overlap; and the loop is over within as many rounds as there are
    pages. *)
Theorem build_blocks_invariant (pages : list string) :
  Forall (block_ok (doc_length pages)) (build_blocks pages) /\
  StronglySorted block_before (build_blocks pages) /\
  (forall extra,
      blocks_loop pages (header_map pages) (List.length pages + extra) 0 =
      build_blocks pages).
Proof.
  unfold build_blocks.
  destruct (blocks_loop_inv pages (header_map pages) (header_map_length pages)
              (List.length pages) 0) as [Hall Hs].
  split; [|split; [assumption|]].
  - eapply Forall_impl; [|exact Hall]. intros b [Hok _]. exact Hok.
  - intros extra. apply blocks_loop_fuel; lia.
Qed.

(** ** The header pass *)

Lemma in_set_keep {K V : Type} (eqb : K -> K -> bool) (k k' : K) (v v' : V)
    (d : odict K V) :
  In (k', v') d -> In (k', v') (ODict.set eqb k v d) \/ ODict.get eqb k d = Some v'.
Proof.
  induction d as [|[k2 v2] t IH]; simpl; [tauto|].
  destruct (eqb k k2); simpl.
  - intros [[= <- <-]|Hin]; auto.
  - intros [H|Hin]; auto. destruct (IH Hin); auto.
Qed.

Lemma in_set_self {K V : Type} (eqb : K -> K -> bool)
    (eqb_spec : forall x y, reflect (x = y) (eqb x y)) (k : K) (v : V) (d : odict K V) :
  In (k, v) (ODict.set eqb k v d).
Proof.
  induction d as [|[k2 v2] t IH]; simpl; [auto|].
  destruct (eqb_spec k k2) as [->|_]; simpl; auto.
Qed.

Lemma in_existing (d : PdfDocument) (id_int p : Z) :
  In p (existing_pages_for_id d id_int) <->
  exists n ps, In (n, ps) (bucket_of (working_sheets d) id_int) /\ In p ps.
Proof.
  unfold existing_pages_for_id, ODict.values. rewrite in_concat. split.
  - intros (ps & Hps & Hp). apply in_map_iff in Hps.
    destruct Hps as ([n ps'] & <- & Hin). eauto.
  - intros (n & ps & Hin & Hp). exists ps. split; [|assumption].
    apply in_map_iff. exists (n, ps). auto.
Qed.

Lemma bucket_after_add (d : PdfDocument) (idv : pyval) (name : string)
    (pages : list pyval) (id_int : Z) :
  name <> EmptyString ->
  bucket_of (working_sheets (add_working_sheet d idv name pages)) id_int =
  if Z.eqb id_int (_coerce_id_to_int idv)
  then ODict.set String.eqb name
         (match ODict.get String.eqb name (bucket_of (working_sheets d) id_int) with
          | Some existing => sorted_fromkeys (existing ++ _normalize_pages pages)
          | None => _normalize_pages pages
          end)
         (bucket_of (working_sheets d) id_int)
  else bucket_of (working_sheets d) id_int.
Proof.
  intros Hname. unfold add_working_sheet.
  destruct (String.eqb_spec name EmptyString) as [|_]; [contradiction|].
  cbn [working_sheets]. unfold bucket_of at 1.
  destruct (Z.eqb_spec id_int (_coerce_id_to_int idv)) as [->|Hne].
  - now rewrite (get_set_same Z.eqb Z_eqb_spec).
  - now rewrite (get_set_other Z.eqb Z_eqb_spec).
Qed.

(** An addition loses no page of any id. *)
Lemma add_grows_existing (d : PdfDocument) (idv : pyval) (name : string)
    (pages : list pyval) (id_int p : Z) :
  In p (existing_pages_for_id d id_int) ->
  In p (existing_pages_for_id (add_working_sheet d idv name pages) id_int).
Proof.
  destruct (String.eqb_spec name EmptyString) as [->|Hname];
    [now rewrite add_empty_name|].
  rewrite !in_existing, bucket_after_add by assumption.
  intros (n & ps & Hin & Hp).
  destruct (Z.eqb id_int (_coerce_id_to_int idv)); [|eauto].
  set (b := bucket_of (working_sheets d) id_int) in *.
  destruct (in_set_keep String.eqb name n
              (match ODict.get String.eqb name b with
               | Some existing => sorted_fromkeys (existing ++ _normalize_pages pages)
               | None => _normalize_pages pages
               end) ps b Hin) as [Hkeep|Hrep]; [eauto|].
  rewrite Hrep. exists name, (sorted_fromkeys (ps ++ _normalize_pages pages)).
  split; [apply (in_set_self String.eqb str_eqb_spec)|].
  apply sorted_fromkeys_in, in_or_app. now left.
Qed.

(** The pages just added are pages of the id. *)
Lemma add_makes_existing (d : PdfDocument) (id_int : Z) (name : string)
    (zs : list Z) (p : Z) :
  name <> EmptyString -> 0 < p -> In p zs ->
  In p (existing_pages_for_id
          (add_working_sheet d (Atom (SStr (str_of_int id_int))) name (int_pages zs))
          id_int).
Proof.
  intros Hname Hp Hin. rewrite in_existing, bucket_after_add by assumption.
  rewrite coerce_str_of_int, Z.eqb_refl.
  assert (Hn : In p (_normalize_pages (int_pages zs))).
  { apply in_normalize_pages. split; [assumption|].
    exists (Atom (SInt p)). split; [|reflexivity].
    unfold int_pages. now apply (in_map (fun z => Atom (SInt z))). }
  eexists. eexists. split; [apply (in_set_self String.eqb str_eqb_spec)|].
  destruct (ODict.get String.eqb name _); [|assumption].
  apply sorted_fromkeys_in, in_or_app. now right.
Qed.

Lemma subset_of_spec (xs ys : list Z) :
  subset_of xs ys = true <-> forall x, In x xs -> In x ys.
Proof.
  unfold subset_of. rewrite forallb_forall.
  split; intros H x Hx; specialize (H x Hx); now apply mem_id_in.
Qed.

Lemma covered_skip (pages : list string) (names : odict Z string) (d : PdfDocument)
    (b : block) :
  covered d b -> add_block pages names d b = d.
Proof.
  destruct b as [[id_int start_page] end_page]. unfold covered, add_block.
  intros [Hid|[Hend|[Hsub Hne]]].
  - destruct (Z.leb_spec id_int 0); [reflexivity|lia].
  - destruct (id_int <=? 0); [reflexivity|].
    destruct (Z.ltb_spec end_page start_page); [reflexivity|lia].
  - destruct (id_int <=? 0); [reflexivity|].
    destruct (end_page <? start_page); [reflexivity|].
    rewrite Hsub. destruct (existing_pages_for_id d id_int); [congruence|reflexivity].
Qed.

Lemma covered_add (d : PdfDocument) (idv : pyval) (name : string)
    (pages : list pyval) (b : block) :
  covered d b -> covered (add_working_sheet d idv name pages) b.
Proof.
  destruct b as [[id_int start_page] end_page]. unfold covered.
  intros [Hid|[Hend|[Hsub Hne]]]; auto.
  right. right. split.
  - rewrite subset_of_spec in *. intros x Hx. now apply add_grows_existing, Hsub.
  - destruct (existing_pages_for_id d id_int) as [|p t] eqn:E; [congruence|].
    assert (Hp : In p (existing_pages_for_id (add_working_sheet d idv name pages) id_int)).
    { apply add_grows_existing. rewrite E. now left. }
    intros Hnil. rewrite Hnil in Hp. destruct Hp.
Qed.

Lemma block_name_nonempty (pages : list string) (names : odict Z string)
    (d : PdfDocument) (id_int start_page end_page : Z) :
  block_name pages names d id_int start_page end_page <> EmptyString.
Proof.
  unfold block_name, or_else at 1.
  match goal with
  | |- (if String.eqb ?x EmptyString then _ else _) <> _ =>
      destruct (String.eqb_spec x EmptyString) as [_|Hne]; [discriminate|exact Hne]
  end.
Qed.

Lemma covered_add_block (pages : list string) (names : odict Z string)
    (d : PdfDocument) (b b' : block) :
  covered d b' -> covered (add_block pages names d b) b'.
Proof.
  intros Hc. destruct b as [[id_int start_page] end_page]. unfold add_block.
  destruct (id_int <=? 0); [assumption|].
  destruct (end_page <? start_page); [assumption|].
  destruct (_ && _)%bool; [assumption|].
  now apply covered_add.
Qed.

Lemma add_block_covers (pages : list string) (names : odict Z string)
    (d : PdfDocument) (b : block) (len : Z) :
  block_ok len b -> covered (add_block pages names d b) b.
Proof.
  destruct b as [[id_int start_page] end_page]. intros (Hid & Hs & Hse & _).
  unfold add_block.
  destruct (Z.leb_spec id_int 0); [lia|].
  destruct (Z.ltb_spec end_page start_page); [lia|].
  destruct (subset_of _ _ && _)%bool eqn:E.
  - right. right. apply andb_true_iff in E. destruct E as [Hsub Hne].
    split; [assumption|]. destruct (existing_pages_for_id d id_int); discriminate.
  - right. right.
    assert (Hin : forall p, In p (page_range start_page end_page) ->
              In p (existing_pages_for_id
                      (add_working_sheet d (Atom (SStr (str_of_int id_int)))
                         (block_name pages names d id_int start_page end_page)
                         (int_pages (page_range start_page end_page))) id_int)).
    { intros p Hp. apply add_makes_existing; [apply block_name_nonempty| |assumption].
      apply in_page_range in Hp. lia. }
    split; [now apply subset_of_spec|].
    intros Hnil. specialize (Hin start_page). rewrite Hnil in Hin.
    apply Hin, in_page_range. lia.
Qed.

Lemma fold_add_block_covered (pages : list string) (names : odict Z string)
    (bs : list block) (b : block) :
  forall d, covered d b -> covered (fold_left (add_block pages names) bs d) b.
Proof.
  induction bs as [|b0 t IH]; intros d Hc; simpl; [assumption|].
  now apply IH, covered_add_block.
Qed.

Lemma fold_add_block_covers_all (pages : list string) (names : odict Z string)
    (len : Z) (bs : list block) :
  Forall (block_ok len) bs ->
  forall d, Forall (covered (fold_left (add_block pages names) bs d)) bs.
Proof.
  induction 1 as [|b t Hb _ IH]; intros d; simpl; constructor.
  - apply fold_add_block_covered. eapply add_block_covers; eauto.
  - apply IH.
Qed.

Lemma fold_add_block_skips (pages : list string) (names : odict Z string)
    (d : PdfDocument) (bs : list block) :
  Forall (covered d) bs -> fold_left (add_block pages names) bs d = d.
Proof.
  induction 1 as [|b t Hb _ IH]; simpl; [reflexivity|].
  now rewrite covered_skip.
Qed.

(** X15. The header pass run a second time over the same pages changes
    nothing: after the first run every block has its pages stored under its
    id and is skipped, whatever names the table of contents gives the
    second time. *)
Theorem header_pass_idempotent (pages : list string) (es es' : list toc_entry)
    (doc : PdfDocument) :
  header_pass pages es' (header_pass pages es doc) = header_pass pages es doc.
Proof.
  unfold header_pass. apply fold_add_block_skips.
  apply (fold_add_block_covers_all pages (toc_names es) (doc_length pages)).
  apply build_blocks_ok.
Qed.

(** ** The three passes as additions *)

Lemma additions_trans (ok : list Z -> Prop) (d1 d2 d3 : PdfDocument) :
  additions ok d1 d2 -> additions ok d2 d3 -> additions ok d1 d3.
Proof.
  induction 1 as [|d idv name zs d' Hok _ IH]; intros H23; [assumption|].
  eapply additions_step; eauto.
Qed.

Lemma additions_one (ok : list Z -> Prop) (d : PdfDocument) (idv : pyval)
    (name : string) (zs : list Z) :
  ok zs -> additions ok d (add_working_sheet d idv name (int_pages zs)).
Proof. intros H. eapply additions_step; [exact H|apply additions_refl]. Qed.

Lemma additions_fold {A : Type} (ok : list Z -> Prop)
    (f : PdfDocument -> A -> PdfDocument) (l : list A) :
  (forall d x, In x l -> additions ok d (f d x)) ->
  forall d, additions ok d (fold_left f l d).
Proof.
  induction l as [|x t IH]; intros Hf d; simpl; [apply additions_refl|].
  eapply additions_trans; [apply Hf; now left|]. apply IH. intros; apply Hf; now right.
Qed.

Lemma pages_from_at_most (pages : list string) (start_page current_id : Z) :
  pages <> [] -> at_most (doc_length pages) (pages_from pages start_page current_id).
Proof.
  intros Hne. unfold at_most. rewrite Forall_forall. intros p Hp.
  now apply (pages_from_le pages start_page current_id p Hne).
Qed.

Lemma add_toc_entry_additions (pages : list string) (d : PdfDocument) (e : toc_entry) :
  pages <> [] -> additions (at_most (doc_length pages)) d (add_toc_entry pages d e).
Proof.
  intros Hne. destruct e as [[id_str name] start_page]. unfold add_toc_entry.
  apply additions_one. destruct (nonzero start_page); [|constructor].
  now apply pages_from_at_most.
Qed.

Lemma scan_match_additions (pages : list string) (st : scan_state) (m : rematch) :
  pages <> [] ->
  additions (at_most (doc_length pages)) (fst st) (fst (scan_match pages st m)).
Proof.
  intros Hne. destruct st as [doc ids]. unfold scan_match.
  destruct (mem_id _ ids); [apply additions_refl|]. cbn [fst].
  apply additions_one. destruct (nonzero (int_group m 3)).
  - now apply pages_from_at_most.
  - destruct (_find_page_for_entry pages _ _) as [found|] eqn:E; [|constructor].
    constructor; [|constructor].
    apply find_page_bounds in E. lia.
Qed.

Lemma scan_fold_additions (pages : list string) (ms : list rematch) :
  pages <> [] ->
  forall st, additions (at_most (doc_length pages)) (fst st)
               (fst (fold_left (scan_match pages) ms st)).
Proof.
  intros Hne. induction ms as [|m t IH]; intros st; simpl; [apply additions_refl|].
  eapply additions_trans; [now apply scan_match_additions|apply IH].
Qed.

Lemma scan_pages_additions (pages txts : list string) :
  pages <> [] ->
  forall st, additions (at_most (doc_length pages)) (fst st)
               (fst (fold_left (scan_page pages) txts st)).
Proof.
  intros Hne. induction txts as [|txt t IH]; intros st; simpl; [apply additions_refl|].
  eapply additions_trans; [|apply IH].
  unfold scan_page. destruct (String.eqb txt EmptyString); [apply additions_refl|].
  now apply scan_fold_additions.
Qed.

Lemma global_scan_additions (pages : list string) (doc : PdfDocument) :
  pages <> [] -> additions (at_most (doc_length pages)) doc (global_scan pages doc).
Proof.
  intros Hne. unfold global_scan.
  exact (scan_pages_additions pages pages Hne (doc, ODict.keys (working_sheets doc))).
Qed.

Lemma add_block_additions (pages : list string) (names : odict Z string)
    (d : PdfDocument) (b : block) :
  block_ok (doc_length pages) b ->
  additions (at_most (doc_length pages)) d (add_block pages names d b).
Proof.
  destruct b as [[id_int start_page] end_page]. intros (_ & _ & _ & Hend).
  unfold add_block.
  destruct (id_int <=? 0); [apply additions_refl|].
  destruct (end_page <? start_page); [apply additions_refl|].
  destruct (_ && _)%bool; [apply additions_refl|].
  apply additions_one. unfold at_most. rewrite Forall_forall.
  intros p Hp. apply in_page_range in Hp. lia.
Qed.

(** The whole identification is a sequence of additions of pages that do
    not lie beyond the document. *)
Lemma identify_additions (pages : list string) (doc : PdfDocument) :
  additions (at_most (doc_length pages)) doc (identify_working_sheets pages doc).
Proof.
  unfold identify_working_sheets. destruct pages as [|p0 ps]; [apply additions_refl|].
  set (pages := p0 :: ps).
  assert (Hne : pages <> []) by discriminate.
  cbv zeta. set (es := fix_entries pages (parse_toc (toc_text_of pages))).
  set (doc1 := add_toc_entries pages doc es).
  set (doc2 := global_scan pages doc1).
  apply (additions_trans _ doc doc1); [|apply (additions_trans _ doc1 doc2)].
  - unfold doc1, add_toc_entries. apply additions_fold. intros d e _.
    now apply add_toc_entry_additions.
  - now apply global_scan_additions.
  - unfold header_pass. apply additions_fold. intros d b Hb.
    apply add_block_additions.
    pose proof (build_blocks_ok pages) as Hall.
    rewrite Forall_forall in Hall. now apply Hall.
Qed.

Lemma additions_wf (ok : list Z -> Prop) (d d' : PdfDocument) :
  additions ok d d' -> wf_doc d -> wf_doc d'.
Proof.
  induction 1 as [|d idv name zs d' _ _ IH]; intros Hwf; [assumption|].
  now apply IH, add_preserves_wf.
Qed.

Lemma additions_unique (ok : list Z -> Prop) (d d' : PdfDocument) :
  additions ok d d' -> unique_keys d -> unique_keys d'.
Proof.
  induction 1 as [|d idv name zs d' _ _ IH]; intros Hu; [assumption|].
  now apply IH, add_preserves_unique.
Qed.

Lemma add_keeps_pages (d : PdfDocument) (idv : pyval) (name : string)
    (pages : list pyval) :
  keeps_pages d (add_working_sheet d idv name pages).
Proof.
  intros k n ps He.
  destruct (String.eqb_spec name EmptyString) as [->|Hname].
  { rewrite add_empty_name. exists ps. split; [assumption|apply incl_refl]. }
  rewrite entry_add_at by assumption. rewrite He.
  destruct (_ && _)%bool.
  - eexists. split; [reflexivity|].
    intros x Hx. apply sorted_fromkeys_in, in_or_app. now left.
  - exists ps. split; [reflexivity|apply incl_refl].
Qed.

Lemma additions_keep_pages (ok : list Z -> Prop) (d d' : PdfDocument) :
  additions ok d d' -> keeps_pages d d'.
Proof.
  induction 1 as [d|d idv name zs d' _ _ IH].
  - intros k n ps He. exists ps. split; [assumption|apply incl_refl].
  - intros k n ps He.
    destruct (add_keeps_pages d idv name (int_pages zs) k n ps He) as (ps1 & H1 & I1).
    destruct (IH k n ps1 H1) as (ps2 & H2 & I2).
    exists ps2. split; [assumption|]. eapply incl_tran; eauto.
Qed.

Lemma additions_same_file (ok : list Z -> Prop) (d d' : PdfDocument) :
  additions ok d d' -> pdf_filename d' = pdf_filename d /\ pdf_path d' = pdf_path d.
Proof.
  induction 1 as [d|d idv name zs d' _ _ IH]; [split; reflexivity|].
  destruct IH as [-> ->]. unfold add_working_sheet.
  destruct (String.eqb name EmptyString); split; reflexivity.
Qed.

Lemma add_within (len : Z) (d : PdfDocument) (idv : pyval) (name : string)
    (zs : list Z) :
  at_most len zs -> pages_within len d ->
  pages_within len (add_working_sheet d idv name (int_pages zs)).
Proof.
  intros Hzs Hd. destruct (String.eqb_spec name EmptyString) as [->|Hname].
  { now rewrite add_empty_name. }
  intros k n ps p. rewrite entry_add_at by assumption.
  destruct (_ && _)%bool; [|apply Hd].
  intros [= <-] Hp. apply sorted_fromkeys_in, in_app_or in Hp.
  destruct Hp as [Hp|Hp].
  - destruct (entry (working_sheets d) k n) as [qs|] eqn:E; [|destruct Hp].
    exact (Hd k n qs p E Hp).
  - apply in_normalize_pages in Hp. destruct Hp as (Hpos & v & Hv & Hi).
    unfold int_pages in Hv. apply in_map_iff in Hv. destruct Hv as (z & <- & Hz).
    simpl in Hi. injection Hi as ->.
    unfold at_most in Hzs. rewrite Forall_forall in Hzs. specialize (Hzs _ Hz). lia.
Qed.

Lemma additions_within (len : Z) (d d' : PdfDocument) :
  additions (at_most len) d d' -> pages_within len d -> pages_within len d'.
Proof.
  induction 1 as [|d idv name zs d' Hok _ IH]; intros Hd; [assumption|].
  now apply IH, add_within.
Qed.

(** X16. Identification keeps the invariant of the data model: on a
    document whose names are not empty, whose page lists are strictly
    ascending and 1-based and whose ids and names are unique, it returns a
    document of which the same holds, with the same file name and path. *)
Theorem identify_keeps_invariant (pages : list string) (doc : PdfDocument) :
  wf_doc doc -> unique_keys doc ->
  wf_doc (identify_working_sheets pages doc) /\
  unique_keys (identify_working_sheets pages doc) /\
  pdf_filename (identify_working_sheets pages doc) = pdf_filename doc /\
  pdf_path (identify_working_sheets pages doc) = pdf_path doc.
Proof.
  intros Hwf Hu. pose proof (identify_additions pages doc) as Ha.
  split; [eapply additions_wf; eauto|].
  split; [eapply additions_unique; eauto|].
  eapply additions_same_file; eauto.
Qed.

(** X17. Identification stores no page beyond the document: when every
    page of the document it is given lies between 1 and the number of
    pages, so does every page of the document it returns. *)
Theorem identify_pages_within (pages : list string) (doc : PdfDocument) :
  pages_within (doc_length pages) doc ->
  pages_within (doc_length pages) (identify_working_sheets pages doc).
Proof.
  intros Hd. eapply additions_within; [apply identify_additions|assumption].
Qed.

(** X18. Identification deletes nothing: every [(id, name)] entry of the
    document it is given is an entry of the document it returns, with at
    least the same pages. *)
Theorem identify_keeps_pages (pages : list string) (doc : PdfDocument) :
  keeps_pages doc (identify_working_sheets pages doc).
Proof.
  eapply additions_keep_pages. apply identify_additions.
Qed.

(** X16 and X17, witnesses: a document of four pages whose header names
    the ids 3 and 5, identified from a new document. *)
Lemma identify_keeps_invariant_witness :
  let pages := ["x"; "AB 3 / Liste"; "AB 3 / Liste"; "AB 5 - Plan 4"]%string in
  wf_doc (identify_working_sheets pages (empty_doc "f" "p")) /\
  unique_keys (identify_working_sheets pages (empty_doc "f" "p")).
Proof.
  intros pages.
  destruct (identify_keeps_invariant pages (empty_doc "f" "p")) as (H1 & H2 & _).
  - apply empty_doc_wf.
  - apply empty_doc_unique.
  - split; assumption.
Defined.

Lemma identify_pages_within_witness :
  let pages := ["x"; "AB 3 / Liste"; "AB 3 / Liste"; "AB 5 - Plan 4"]%string in
  pages_within 4 (identify_working_sheets pages (empty_doc "f" "p")).
Proof.
  intros pages.
  apply (identify_pages_within pages (empty_doc "f" "p")).
  intros k n ps p He. discriminate He.
Defined.

(** ** Output names and pages *)

Lemma map_chars_kept (s : string) :
  forallb_str (fun c => mem_char c keep_chars) (map_chars keep_or_underscore s) = true.
Proof.
  induction s as [|c t IH]; cbn [map_chars forallb_str]; [reflexivity|].
  rewrite IH, andb_true_r. unfold keep_or_underscore.
  destruct (mem_char c keep_chars) eqn:E; [exact E|reflexivity].
Qed.

Lemma substring_forallb (q : ascii -> bool) (s : string) :
  forallb_str q s = true -> forall n m, forallb_str q (substring n m s) = true.
Proof.
  induction s as [|c t IH]; intros H n m.
  - destruct n, m; reflexivity.
  - simpl in H. apply andb_true_iff in H. destruct H as [Hc Ht].
    destruct n as [|n]; simpl.
    + destruct m as [|m]; [reflexivity|]. simpl. rewrite Hc. now apply IH.
    + now apply IH.
Qed.

Lemma substring_length_le (s : string) :
  forall n m, (String.length (substring n m s) <= m)%nat.
Proof.
  induction s as [|c t IH]; intros n m.
  - destruct n, m; simpl; lia.
  - destruct n as [|n]; simpl.
    + destruct m as [|m]; simpl; [lia|]. specialize (IH 0%nat m). lia.
    + apply IH.
Qed.

(** X19. A sanitized file name is never empty, has at most 200
    characters, and consists of letters, digits and the characters
    [-_().] only. *)
Theorem sanitize_filename_safe (s : string) :
  forallb_str (fun c => mem_char c keep_chars) (_sanitize_filename s) = true /\
  (1 <= String.length (_sanitize_filename s) <= 200)%nat.
Proof.
  unfold _sanitize_filename, or_else, slice.
  set (t := substring 0 (200 - 0)
              (strip_chars "_" (map_chars keep_or_underscore s))).
  destruct (String.eqb_spec t EmptyString) as [E|Hne].
  - split; [reflexivity|simpl; lia].
  - split.
    + unfold t. apply substring_forallb. unfold strip_chars.
      apply strip_forallb, map_chars_kept.
    + split.
      * destruct t; [congruence|simpl; lia].
      * unfold t. apply substring_length_le.
Qed.

Lemma filter_ascending (f : Z -> bool) (l : list Z) :
  ascending l -> ascending (filter f l).
Proof.
  unfold ascending. induction 1 as [|x t Hs IH Hall]; simpl; [constructor|].
  destruct (f x); [|assumption]. constructor; [assumption|].
  rewrite Forall_forall in *. intros y Hy. apply filter_In in Hy. now apply Hall.
Qed.

Lemma forallb_str_app (q : ascii -> bool) (a b : string) :
  forallb_str q (a ++ b) = (forallb_str q a && forallb_str q b)%bool.
Proof.
  induction a as [|c t IH]; simpl; [reflexivity|].
  rewrite IH. now rewrite andb_assoc.
Qed.

Lemma sanitize_filename_kept (s : string) :
  forallb_str (fun c => mem_char c keep_chars) (_sanitize_filename s) = true.
Proof.
  unfold _sanitize_filename, or_else, slice.
  destruct (String.eqb _ EmptyString); [reflexivity|].
  apply substring_forallb. unfold strip_chars. apply strip_forallb, map_chars_kept.
Qed.

Lemma map_chars_id (f : ascii -> ascii) (s : string) :
  forallb_str (fun c => Ascii.eqb (f c) c) s = true -> map_chars f s = s.
Proof.
  induction s as [|c t IH]; simpl; [reflexivity|].
  intros H. apply andb_true_iff in H as [Hc Ht].
  apply Ascii.eqb_eq in Hc. now rewrite Hc, IH.
Qed.

Lemma digit_or_minus_kept (c : ascii) :
  digit_or_minus c = true ->
  Ascii.eqb (keep_or_underscore c) c = true /\ negb (mem_char c "_") = true.
Proof.
  destruct c as [[] [] [] [] [] [] [] []]; vm_compute; intros H;
    try discriminate H; split; reflexivity.
Qed.

Lemma str_of_int_nonempty (z : Z) : str_of_int z <> EmptyString.
Proof.
  intros E. pose proof (int_of_str_of_int z) as H. rewrite E in H. discriminate H.
Qed.

(** The decimal text of an id passes the sanitizer as it is, cut to 200
    characters. *)
Lemma sanitize_id_text (z : Z) :
  _sanitize_filename (str_of_int z) = slice 0 200 (str_of_int z).
Proof.
  unfold _sanitize_filename.
  pose proof (str_of_int_chars z) as Hall.
  rewrite map_chars_id.
  2:{ apply (forallb_str_impl digit_or_minus); [|assumption].
      intros c Hc. now apply digit_or_minus_kept. }
  unfold strip_chars. rewrite strip_id.
  2:{ apply (forallb_str_impl digit_or_minus); [|assumption].
      intros c Hc. now apply digit_or_minus_kept. }
  unfold or_else, slice.
  pose proof (str_of_int_nonempty z) as Hne.
  destruct (str_of_int z) as [|c t]; [congruence|reflexivity].
Qed.

(** X20. Every output that [write_working_sheets_outputs] prepares has a
    non-empty, strictly ascending page list whose pages all lie between 1
    and the number of pages of the source: the stored pages of a sheet of
    the document, normalized and filtered.  Its file name is an id part, an
    underscore, a name part and [.pdf]: the id part is [no-id] for the id 0
    and else the decimal text of the id, cut to 200 characters; the name
    part is [unnamed] for the empty name and else the sanitized name; the
    whole name holds letters, digits and the characters [-_().] only. *)
Theorem planned_outputs_valid (total_pages : Z) (doc : PdfDocument)
    (fname : string) (ps : list Z) :
  In (fname, ps) (planned_outputs total_pages doc) ->
  ps <> [] /\ ascending ps /\ Forall (fun p => 1 <= p <= total_pages) ps /\
  forallb_str (fun c => mem_char c keep_chars) fname = true /\
  exists id_key name pages_raw,
    In (id_key, name, pages_raw)
       (flat_map (fun kb => map (fun np => (fst kb, fst np, snd np)) (snd kb))
                 (working_sheets doc)) /\
    fname = ((if Z.eqb id_key 0 then "no-id" else slice 0 200 (str_of_int id_key))
             ++ "_"
             ++ (if String.eqb name EmptyString then "unnamed"
                 else _sanitize_filename name)
             ++ ".pdf")%string /\
    ps = valid_pages total_pages (_normalize_pages (int_pages pages_raw)).
Proof.
  unfold planned_outputs. intros Hin.
  apply in_flat_map in Hin. destruct Hin as ([k b] & Hkb & Hin).
  apply in_flat_map in Hin. destruct Hin as ([n raw] & Hn & Hin).
  cbn [fst snd] in Hin. unfold planned_output in Hin. cbn [fst snd] in Hin.
  destruct (_normalize_pages (int_pages raw)) as [|q qs] eqn:En; [destruct Hin|].
  destruct (valid_pages total_pages (q :: qs)) as [|v vs] eqn:Ev; [destruct Hin|].
  destruct Hin as [[= <- <-]|[]].
  split; [discriminate|]. split; [|split; [|split]].
  - rewrite <- Ev. apply filter_ascending. rewrite <- En. apply normalize_ascending.
  - rewrite <- Ev. unfold valid_pages. rewrite Forall_forall. intros p Hp.
    apply filter_In in Hp. destruct Hp as [_ Hp]. lia.
  - unfold out_fname. rewrite !forallb_str_app, !sanitize_filename_kept. reflexivity.
  - exists k, n, raw. split; [|split; [|now rewrite En]].
    + apply in_flat_map. exists (k, b). split; [assumption|].
      cbn [fst snd]. apply in_map_iff. exists (n, raw). auto.
    + unfold out_fname, or_else. f_equal; [|f_equal; f_equal].
      * destruct (Z.eqb k 0); [reflexivity|apply sanitize_id_text].
      * destruct (String.eqb n EmptyString); reflexivity.
Qed.

(** X20, witness: under the id 12 a sheet with the pages 2, 3 and 9 of a
    source of five pages, and a sheet under the id 0. *)
Lemma planned_outputs_valid_witness :
  let doc := mkPdfDocument "f" "p" [(12, [("A/B"%string, [3; 2; 9])]);
                                    (0, [("A"%string, [1])])] in
  planned_outputs 5 doc = [("12_A_B.pdf"%string, [2; 3]);
                           ("no-id_A.pdf"%string, [1])] /\
  Forall (fun p => 1 <= p <= 5) [2; 3] /\
  forallb_str (fun c => mem_char c keep_chars) "no-id_A.pdf" = true.
Proof.
  intros doc.
  assert (E : planned_outputs 5 doc = [("12_A_B.pdf"%string, [2; 3]);
                                       ("no-id_A.pdf"%string, [1])])
    by (vm_compute; reflexivity).
  split; [exact E|]. split.
  - destruct (planned_outputs_valid 5 doc "12_A_B.pdf"%string [2; 3]) as (_ & _ & H & _).
    + rewrite E. left. reflexivity.
    + exact H.
  - reflexivity.
Defined.

(** ** Entries of the table of contents in the model *)

Lemma add_toc_entry_records (pages : list string) (d : PdfDocument) (e : toc_entry) :
  exists ps,
    entry (working_sheets (add_toc_entry pages d e)) (toc_sheet_id e) (toc_sheet_name e)
    = Some ps.
Proof.
  destruct e as [[id_str name] start_page].
  unfold add_toc_entry, toc_sheet_id, toc_sheet_name. cbn [fst snd].
  set (current_id := _coerce_id_to_int (Atom (SStr id_str))).
  set (nm := if String.eqb name EmptyString then ("AB " ++ id_str)%string else name).
  assert (Hnm : nm <> EmptyString).
  { unfold nm. destruct (String.eqb_spec name EmptyString); [discriminate|assumption]. }
  assert (Hid : _coerce_id_to_int
                  (Atom (SStr (if Z.eqb current_id 0 then id_str
                               else str_of_int current_id))) = current_id).
  { destruct (Z.eqb current_id 0); [reflexivity|apply coerce_str_of_int]. }
  rewrite entry_add_at by assumption.
  rewrite Hid, Z.eqb_refl, String.eqb_refl. cbn [andb]. eauto.
Qed.

Lemma keeps_pages_entry (d d' : PdfDocument) (k : Z) (n : string) :
  keeps_pages d d' ->
  (exists ps, entry (working_sheets d) k n = Some ps) ->
  exists ps, entry (working_sheets d') k n = Some ps.
Proof.
  intros Hk (ps & He). destruct (Hk k n ps He) as (ps' & He' & _). eauto.
Qed.

Lemma add_toc_entries_record (pages : list string) (es : list toc_entry) (e : toc_entry) :
  pages <> [] -> In e es ->
  forall d, exists ps,
    entry (working_sheets (add_toc_entries pages d es)) (toc_sheet_id e) (toc_sheet_name e)
    = Some ps.
Proof.
  intros Hne. unfold add_toc_entries.
  induction es as [|e0 t IH]; intros Hin d; [destruct Hin|].
  simpl. destruct Hin as [->|Hin]; [|now apply IH].
  apply (keeps_pages_entry (add_toc_entry pages d e)).
  - apply (additions_keep_pages (at_most (doc_length pages))).
    apply additions_fold. intros d' x _. now apply add_toc_entry_additions.
  - apply add_toc_entry_records.
Qed.

(** X21. No sheet named in the table of contents is dropped: for every
    entry that the parsing and look-up steps give, the identified document
    has an entry under the entry's id and name (the name [AB <id>] when the
    entry has none), also when no page could be found for it. *)
Theorem toc_entries_recorded (pages : list string) (doc : PdfDocument) (e : toc_entry) :
  pages <> [] ->
  In e (fix_entries pages (parse_toc (toc_text_of pages))) ->
  exists ps,
    entry (working_sheets (identify_working_sheets pages doc))
          (toc_sheet_id e) (toc_sheet_name e) = Some ps.
Proof.
  intros Hne Hin. unfold identify_working_sheets.
  destruct pages as [|p0 ps0]; [congruence|].
  set (pages := p0 :: ps0) in *. cbv zeta.
  set (es := fix_entries pages (parse_toc (toc_text_of pages))) in *.
  apply (keeps_pages_entry (add_toc_entries pages doc es)).
  - apply (additions_keep_pages (at_most (doc_length pages))).
    eapply additions_trans; [now apply global_scan_additions|].
    unfold header_pass. apply additions_fold. intros d b Hb.
    apply add_block_additions.
    pose proof (build_blocks_ok pages) as Hall.
    rewrite Forall_forall in Hall. now apply Hall.
  - now apply add_toc_entries_record.
Qed.

(** X21, witness: a table of contents that names the sheet 8 without a
    page number; the look-up finds the page of the table itself. *)
Lemma toc_entries_recorded_witness :
  let pages := [(heading_worksheets ++ " AB 8 Tagebuch")%string] in
  In ("8"%string, "Tagebuch"%string, Some 1)
     (fix_entries pages (parse_toc (toc_text_of pages))) /\
  exists ps,
    entry (working_sheets (identify_working_sheets pages (empty_doc "f" "p")))
          8 "Tagebuch" = Some ps.
Proof.
  intros pages.
  assert (Hin : In ("8"%string, "Tagebuch"%string, Some 1)
                   (fix_entries pages (parse_toc (toc_text_of pages)))).
  { vm_compute. left. reflexivity. }
  split; [exact Hin|].
  apply (toc_entries_recorded pages (empty_doc "f" "p")
           ("8"%string, "Tagebuch"%string, Some 1)); [discriminate|exact Hin].
Defined.

(** ** Substitution of runs, without the matcher *)

Lemma append_nil_r (s : string) : (s ++ "")%string = s.
Proof. induction s as [|c t IH]; simpl; [reflexivity|now rewrite IH]. Qed.

Lemma append_assoc (a b c : string) : ((a ++ b) ++ c)%string = (a ++ (b ++ c))%string.
Proof. induction a as [|x t IH]; simpl; [reflexivity|now rewrite IH]. Qed.

Lemma sdrop_sdrop (a b : nat) (s : string) : sdrop a (sdrop b s) = sdrop (b + a) s.
Proof.
  revert s. induction b as [|b IH]; intros s; simpl; [reflexivity|].
  destruct s as [|c t]; [destruct a; reflexivity|apply IH].
Qed.

Lemma sdrop_run (p : ascii -> bool) (s : string) :
  sdrop (run_chars p s) s = lstrip_by p s.
Proof.
  induction s as [|c t IH]; simpl; [reflexivity|].
  destruct (p c); [exact IH|reflexivity].
Qed.

Lemma length_lstrip_run (p : ascii -> bool) (s : string) :
  (run_chars p s + String.length (lstrip_by p s) = String.length s)%nat.
Proof.
  induction s as [|c t IH]; simpl; [reflexivity|].
  destruct (p c); simpl; lia.
Qed.

Lemma substring_zero_len (s : string) : forall i, substring i 0 s = EmptyString.
Proof.
  induction s as [|c t IH]; intros [|i]; simpl; auto.
Qed.

Lemma substring_all (s : string) : forall m, (String.length s <= m)%nat -> substring 0 m s = s.
Proof.
  induction s as [|c t IH]; intros [|m] H; simpl in *; try reflexivity; try lia.
  rewrite IH by lia. reflexivity.
Qed.

Lemma substring_snoc (subj : string) :
  forall i j c t,
    (i <= j)%nat -> sdrop j subj = String c t ->
    substring i (S j - i) subj = (substring i (j - i) subj ++ String c EmptyString)%string.
Proof.
  induction subj as [|x u IH]; intros i j c t Hij Hd.
  - destruct j; simpl in Hd; discriminate.
  - destruct i as [|i].
    + rewrite !Nat.sub_0_r. destruct j as [|j]; simpl in Hd.
      * injection Hd as -> ->. simpl. now rewrite substring_zero_len.
      * simpl. f_equal.
        specialize (IH 0%nat j c t (Nat.le_0_l _) Hd).
        rewrite !Nat.sub_0_r in IH. exact IH.
    + destruct j as [|j]; [lia|]. simpl in Hd.
      change (substring (S i) (S (S j) - S i) (String x u))
        with (substring i (S j - i) u).
      change (substring (S i) (S j - S i) (String x u)) with (substring i (j - i) u).
      apply (IH i j c t); [lia|assumption].
Qed.

Lemma rep_star_greedy (p : ascii -> bool) (s : string) :
  forall cs pv i,
    rep p true 0 None cs pv s i (fun st => Some st) =
    Some (MState (last_of_run p pv s) (lstrip_by p s) (i + run_chars p s) cs).
Proof.
  induction s as [|c t IH]; intros cs pv i; simpl.
  - now rewrite Nat.add_0_r.
  - destruct (p c); simpl.
    + rewrite IH. unfold orelse. do 2 f_equal. lia.
    + now rewrite Nat.add_0_r.
Qed.

(** The search for a run of class [p], one character at a time. *)
Lemma search_plus_unfold (p : ascii -> bool) (subj : string) (pv : option ascii)
    (s : string) (i : nat) :
  search_in (Plus p) subj pv s i =
  match s with
  | EmptyString => None
  | String c t =>
      if p c
      then Some (ReMatch subj i (S i + run_chars p t) []
                   (MState (last_of_run p (Some c) t) (lstrip_by p t)
                           (S i + run_chars p t) []))
      else search_in (Plus p) subj (Some c) t (S i)
  end.
Proof.
  destruct s as [|c t]; [reflexivity|].
  cbn [search_in]. unfold match_here, fresh, Plus. cbn [rmatch prev rest pos caps rep].
  destruct (p c); cbn [andb hi_allows].
  - cbn [Nat.pred hi_pred]. rewrite rep_star_greedy. reflexivity.
  - reflexivity.
Qed.

Lemma collapse_skip_run (p : ascii -> bool) (repl : string) (s : string) :
  collapse_aux p repl true s = collapse_aux p repl false (lstrip_by p s).
Proof.
  induction s as [|c t IH]; simpl; [reflexivity|].
  destruct (p c) eqn:E; [exact IH|]. simpl. now rewrite E.
Qed.

Section SubPlus.
Variables (p : ascii -> bool) (repl subj : string).

Lemma pieces_from_spec (fuel : nat) :
  (forall s i pv,
      (String.length s < fuel)%nat -> sdrop i subj = s ->
      (i + String.length s = String.length subj)%nat ->
      sub_pieces repl subj i (finditer_from fuel (Plus p) subj (MState pv s i []))
      = collapse_aux p repl false s) ->
  forall s j pv i,
    (String.length s <= fuel)%nat -> sdrop j subj = s ->
    (j + String.length s = String.length subj)%nat -> (i <= j)%nat ->
    pieces_from p repl subj fuel pv s j i =
    (substring i (j - i) subj ++ collapse_aux p repl false s)%string.
Proof.
  intros IHf. induction s as [|c t IH]; intros j pv i Hlen Hd Hj Hij;
    unfold pieces_from; rewrite search_plus_unfold.
  - cbn [sub_pieces collapse_aux]. rewrite append_nil_r. unfold slice.
    simpl in Hj. now replace (String.length subj) with j by lia.
  - destruct (p c) eqn:Ep.
    + cbn [m_start m_end m_after sub_pieces collapse_aux]. rewrite Ep.
      assert (Hlt : Nat.ltb j (S j + run_chars p t) = true) by (apply Nat.ltb_lt; lia).
      rewrite Hlt. unfold slice at 1. f_equal. f_equal.
      rewrite IHf.
      * symmetry. apply collapse_skip_run.
      * pose proof (length_lstrip_run p t). simpl in Hlen. lia.
      * replace (S j + run_chars p t)%nat with (j + S (run_chars p t))%nat by lia.
        rewrite <- sdrop_sdrop, Hd. simpl. apply sdrop_run.
      * pose proof (length_lstrip_run p t). simpl in Hj. lia.
    + fold (pieces_from p repl subj fuel (Some c) t (S j) i).
      rewrite IH.
      * rewrite (substring_snoc subj i j c t Hij Hd), append_assoc.
        cbn [collapse_aux]. rewrite Ep. reflexivity.
      * simpl in Hlen. lia.
      * replace (S j) with (j + 1)%nat by lia.
        rewrite <- sdrop_sdrop, Hd. reflexivity.
      * simpl in Hj. lia.
      * lia.
Qed.

Lemma finditer_pieces :
  forall fuel s i pv,
    (String.length s < fuel)%nat -> sdrop i subj = s ->
    (i + String.length s = String.length subj)%nat ->
    sub_pieces repl subj i (finditer_from fuel (Plus p) subj (MState pv s i []))
    = collapse_aux p repl false s.
Proof.
  induction fuel as [|fuel IHf]; intros s i pv Hlen Hd Hi; [lia|].
  cbn [finditer_from]. unfold search_from. cbn [prev rest pos].
  pose proof (pieces_from_spec fuel IHf s i pv i) as H.
  unfold pieces_from in H. rewrite H; try assumption; try lia.
  now rewrite Nat.sub_diag, substring_zero_len.
Qed.
End SubPlus.

(** [re.sub] of a quantified class with [+] replaces each maximal run of
    the class by the replacement text. *)
Lemma sub_plus_collapse (p : ascii -> bool) (repl s : string) :
  sub (Plus p) repl s = collapse_aux p repl false s.
Proof.
  unfold sub, finditer. apply finditer_pieces; [lia|reflexivity|reflexivity].
Qed.

(** ** Header text in normal form *)

Lemma collapse_no_class (p : ascii -> bool) (repl : string) (f : bool) (s : string) :
  forallb_str (fun c => negb (p c)) s = true -> collapse_aux p repl f s = s.
Proof.
  revert f. induction s as [|c t IH]; intros f H; simpl in *; [reflexivity|].
  apply andb_true_iff in H as [Hc Ht]. destruct (p c); [discriminate|].
  now rewrite IH.
Qed.

Lemma collapse_control_chars (f : bool) (s : string) :
  forallb_str (fun c => negb (is_control c))
              (collapse_aux is_control " " f s) = true.
Proof.
  revert f. induction s as [|c t IH]; intros f; simpl; [reflexivity|].
  destruct (is_control c) eqn:E.
  - destruct f; simpl; apply IH.
  - simpl. rewrite E. apply IH.
Qed.

Lemma replace_nbsp_chars (s : string) :
  forallb_str (fun c => negb (is_control c)) s = true ->
  forallb_str (fun c => negb (is_control c)) (replace_char nbsp " " s) = true.
Proof.
  induction s as [|c t IH]; simpl; [reflexivity|].
  intros H. apply andb_true_iff in H as [Hc Ht].
  destruct (Ascii.eqb c nbsp); simpl; [now apply IH|].
  rewrite Hc. now apply IH.
Qed.

Lemma collapse_space_plain (f : bool) (s : string) :
  forallb_str (fun c => negb (is_control c)) s = true ->
  forallb_str plain_char (collapse_aux is_space " " f s) = true.
Proof.
  revert f. induction s as [|c t IH]; intros f H; simpl in *; [reflexivity|].
  apply andb_true_iff in H as [Hc Ht].
  destruct (is_space c) eqn:E.
  - destruct f; simpl; now apply IH.
  - simpl. unfold plain_char at 1. rewrite Hc, E. simpl. now apply IH.
Qed.

Lemma collapse_space_adj (s : string) :
  forall f,
    adj_ok (collapse_aux is_space " " f s) = true /\
    (head_ok (collapse_aux is_space " " true s) = true).
Proof.
  induction s as [|c t IH]; intros f; [split; reflexivity|].
  cbn [collapse_aux]. destruct (is_space c) eqn:E.
  - destruct (IH true) as [Ha Hh]. split; [|exact Hh].
    destruct f; [exact Ha|].
    change (" " ++ collapse_aux is_space " " true t)%string
      with (String " " (collapse_aux is_space " " true t)).
    cbn [adj_ok]. rewrite Ha, andb_true_r.
    destruct (collapse_aux is_space " " true t) as [|d u]; [reflexivity|].
    simpl in Hh. apply negb_true_iff in Hh. rewrite Hh. now rewrite andb_false_r.
  - destruct (IH false) as [Ha _]. split.
    + cbn [adj_ok]. rewrite Ha, andb_true_r, E.
      now destruct (collapse_aux is_space " " false t).
    + simpl. now rewrite E.
Qed.

Lemma plain_blank (c : ascii) :
  plain_char c = true -> is_space c = true -> c = " "%char.
Proof.
  unfold plain_char. intros H E. rewrite E in H.
  apply andb_true_iff in H as [_ H]. simpl in H. now apply Ascii.eqb_eq.
Qed.

Lemma collapse_space_fixed (s : string) :
  forallb_str plain_char s = true -> adj_ok s = true ->
  collapse_aux is_space " " false s = s /\
  (head_ok s = true -> collapse_aux is_space " " true s = s).
Proof.
  induction s as [|c t IH]; intros Hp Ha; [split; reflexivity|].
  cbn [forallb_str adj_ok] in Hp, Ha.
  apply andb_true_iff in Hp as [Hc Ht]. apply andb_true_iff in Ha as [Hh Ha].
  destruct (IH Ht Ha) as [IH0 IH1]. cbn [collapse_aux head_ok].
  destruct (is_space c) eqn:E.
  - split; [|discriminate].
    assert (Hd : head_ok t = true).
    { destruct t as [|d u]; [reflexivity|exact Hh]. }
    rewrite (plain_blank c Hc E). simpl. f_equal. now apply IH1.
  - rewrite IH0. split; reflexivity.
Qed.

Lemma plain_no_control (s : string) :
  forallb_str plain_char s = true ->
  forallb_str (fun c => negb (is_control c)) s = true.
Proof.
  apply forallb_str_impl. unfold plain_char. intros c H.
  now apply andb_true_iff in H as [H _].
Qed.

Lemma replace_nbsp_plain (s : string) :
  forallb_str plain_char s = true -> replace_char nbsp " " s = s.
Proof.
  induction s as [|c t IH]; simpl; [reflexivity|].
  intros H. apply andb_true_iff in H as [Hc Ht].
  destruct (Ascii.eqb c nbsp) eqn:E.
  - apply Ascii.eqb_eq in E. subst c. discriminate Hc.
  - now rewrite IH.
Qed.

Lemma rev_onto_app (s acc : string) :
  rev_onto s acc = (PyStr.rev s ++ acc)%string.
Proof.
  unfold PyStr.rev. revert acc.
  induction s as [|c t IH]; intros acc; simpl; [reflexivity|].
  rewrite (IH (String c acc)), (IH (String c EmptyString)), append_assoc.
  reflexivity.
Qed.

Lemma rev_append (a b : string) :
  PyStr.rev (a ++ b) = (PyStr.rev b ++ PyStr.rev a)%string.
Proof.
  induction a as [|c t IH]; simpl.
  - now rewrite append_nil_r.
  - unfold PyStr.rev at 1 3. simpl. rewrite !rev_onto_app, IH, append_assoc.
    reflexivity.
Qed.

Lemma lstrip_suffix (p : ascii -> bool) (s : string) :
  exists pre, s = (pre ++ lstrip_by p s)%string.
Proof.
  induction s as [|c t [pre IH]]; simpl; [now exists EmptyString|].
  destruct (p c).
  - exists (String c pre). simpl. now rewrite <- IH.
  - now exists EmptyString.
Qed.

Lemma lstrip_lstrip (p : ascii -> bool) (s : string) :
  lstrip_by p (lstrip_by p s) = lstrip_by p s.
Proof.
  induction s as [|c t IH]; simpl; [reflexivity|].
  destruct (p c) eqn:E; [exact IH|]. simpl. now rewrite E.
Qed.

Lemma lstrip_prefix_fixed (p : ascii -> bool) (a b : string) :
  lstrip_by p (a ++ b) = (a ++ b)%string -> lstrip_by p a = a.
Proof.
  destruct a as [|c t]; simpl; [reflexivity|].
  destruct (p c); [|reflexivity].
  intros H. pose proof (length_lstrip_run p (t ++ b)) as L.
  rewrite H in L. simpl in L. lia.
Qed.

(** What [strip] returns is a piece of its argument with nothing left to
    strip at either end. *)
Lemma strip_by_piece (p : ascii -> bool) (s : string) :
  exists pre suf,
    s = (pre ++ strip_by p s ++ suf)%string /\
    lstrip_by p (strip_by p s) = strip_by p s /\
    lstrip_by p (PyStr.rev (strip_by p s)) = PyStr.rev (strip_by p s).
Proof.
  unfold strip_by.
  destruct (lstrip_suffix p s) as [pre Hpre].
  destruct (lstrip_suffix p (PyStr.rev (lstrip_by p s))) as [suf Hsuf].
  set (m := lstrip_by p s) in *. set (l := lstrip_by p (PyStr.rev m)) in *.
  assert (Hm : m = (PyStr.rev l ++ PyStr.rev suf)%string).
  { rewrite <- rev_append, <- Hsuf. symmetry. apply rev_rev. }
  exists pre, (PyStr.rev suf). split; [|split].
  - now rewrite <- Hm.
  - apply (lstrip_prefix_fixed p _ (PyStr.rev suf)). rewrite <- Hm.
    apply lstrip_lstrip.
  - rewrite rev_rev. apply lstrip_lstrip.
Qed.

Lemma strip_by_strip_by (p : ascii -> bool) (s : string) :
  strip_by p (strip_by p s) = strip_by p s.
Proof.
  destruct (strip_by_piece p s) as (pre & suf & _ & H1 & H2).
  unfold strip_by at 1. rewrite H1, H2. apply rev_rev.
Qed.

Lemma adj_ok_suffix (a b : string) : adj_ok (a ++ b) = true -> adj_ok b = true.
Proof.
  induction a as [|c t IH]; simpl; [auto|].
  intros H. apply andb_true_iff in H as [_ H]. now apply IH.
Qed.

Lemma adj_ok_prefix (a b : string) : adj_ok (a ++ b) = true -> adj_ok a = true.
Proof.
  induction a as [|c t IH]; [reflexivity|].
  change (String c t ++ b)%string with (String c (t ++ b)). cbn [adj_ok].
  intros H. apply andb_true_iff in H as [Hh H]. rewrite (IH H), andb_true_r.
  destruct t as [|d u]; [reflexivity|exact Hh].
Qed.

Lemma strip_adj_ok (s : string) : adj_ok s = true -> adj_ok (strip s) = true.
Proof.
  intros H. destruct (strip_by_piece is_space s) as (pre & suf & E & _).
  fold (strip s) in E. rewrite E in H.
  apply adj_ok_suffix in H. now apply adj_ok_prefix in H.
Qed.

Lemma clean_header_text_collapse (s : string) :
  clean_header_text s =
  if String.eqb s EmptyString then EmptyString
  else strip (collapse_aux is_space " " false
                (replace_char nbsp " " (collapse_aux is_control " " false s))).
Proof. unfold clean_header_text. cbv zeta. now rewrite !sub_plus_collapse. Qed.

Lemma clean_header_text_is_normal (s : string) :
  normal_text (clean_header_text s) = true.
Proof.
  rewrite clean_header_text_collapse.
  destruct (String.eqb s EmptyString); [reflexivity|].
  set (x := replace_char nbsp " " (collapse_aux is_control " " false s)).
  assert (Hx : forallb_str (fun c => negb (is_control c)) x = true)
    by (apply replace_nbsp_chars, collapse_control_chars).
  unfold normal_text. rewrite !andb_true_iff. repeat split.
  - apply strip_forallb. now apply collapse_space_plain.
  - apply strip_adj_ok. apply collapse_space_adj.
  - apply String.eqb_eq. apply strip_by_strip_by.
Qed.

Lemma clean_header_text_keeps_normal (s : string) :
  normal_text s = true -> clean_header_text s = s.
Proof.
  unfold normal_text. rewrite !andb_true_iff. intros [[Hp Ha] Hs].
  apply String.eqb_eq in Hs. rewrite clean_header_text_collapse.
  destruct (String.eqb s EmptyString) eqn:E.
  - apply String.eqb_eq in E. now subst s.
  - rewrite (collapse_no_class is_control) by (now apply plain_no_control).
    rewrite replace_nbsp_plain by assumption.
    destruct (collapse_space_fixed s Hp Ha) as [-> _]. exact Hs.
Qed.

(** X22 ([clean_header_text]): whatever the text, the cleaned text holds
    none of the characters U+0000 to U+001F and U+007F (the class that the
    code replaces; the control characters of U+0080 to U+009F other
    than U+0085 pass through as they are and are not meant here) and no
    whitespace character other than the space, never two
    spaces side by side, and no space at either end. *)
Theorem clean_header_text_normal_form (s : string) :
  forallb_str plain_char (clean_header_text s) = true /\
  adj_ok (clean_header_text s) = true /\
  strip (clean_header_text s) = clean_header_text s.
Proof.
  pose proof (clean_header_text_is_normal s) as H. unfold normal_text in H.
  rewrite !andb_true_iff in H. destruct H as [[Hp Ha] Hs].
  apply String.eqb_eq in Hs. auto.
Qed.

(** X23 ([clean_header_text]): the texts that cleaning leaves as they are
    are exactly the texts in normal form. *)
Theorem clean_header_text_fixed_points (s : string) :
  clean_header_text s = s <-> normal_text s = true.
Proof.
  split.
  - intros E. rewrite <- E. apply clean_header_text_is_normal.
  - apply clean_header_text_keeps_normal.
Qed.

(** X24 ([clean_header_text]): cleaning a cleaned text changes nothing. *)
Theorem clean_header_text_idempotent (s : string) :
  clean_header_text (clean_header_text s) = clean_header_text s.
Proof.
  apply clean_header_text_keeps_normal, clean_header_text_is_normal.
Qed.

(** ** Numbers read from a header *)

(** As [rep_sound], with the number of characters consumed. *)
Lemma rep_sound_bounds (p : ascii -> bool) (greedy : bool) (s : string) :
  forall lo hi cs pv i k r,
    rep p greedy lo hi cs pv s i k = Some r ->
    exists n pv',
      k (MState pv' (sdrop n s) (i + n) cs) = Some r /\
      forallb_str p (substring 0 n s) = true /\
      String.length (substring 0 n s) = n /\
      (lo <= n)%nat /\
      (forall h, hi = Some h -> n <= h)%nat.
Proof.
  induction s as [|c t IH]; intros lo hi cs pv i k r H.
  - simpl in H. exists O, pv. rewrite Nat.add_0_r. simpl.
    destruct greedy, lo; simpl in H; try discriminate;
      repeat split; auto; try lia.
    unfold orelse in H.
    destruct (k (MState pv EmptyString i cs)); [auto|discriminate].
  - assert (Hstop : forall x, (match lo with
                               | O => k (MState pv (String c t) i cs)
                               | S _ => None
                               end) = Some x ->
                    exists n pv',
                      k (MState pv' (sdrop n (String c t)) (i + n) cs) = Some x /\
                      forallb_str p (substring 0 n (String c t)) = true /\
                      String.length (substring 0 n (String c t)) = n /\
                      (lo <= n)%nat /\
                      (forall h, hi = Some h -> n <= h)%nat).
    { intros x Hx. exists O, pv. rewrite Nat.add_0_r. simpl.
      destruct lo; [|discriminate]. repeat split; auto; lia. }
    assert (Hmore : forall x,
              (if (p c && hi_allows hi)%bool
               then rep p greedy (Nat.pred lo) (hi_pred hi) cs (Some c) t (S i) k
               else None) = Some x ->
              exists n pv',
                k (MState pv' (sdrop n (String c t)) (i + n) cs) = Some x /\
                forallb_str p (substring 0 n (String c t)) = true /\
                String.length (substring 0 n (String c t)) = n /\
                (lo <= n)%nat /\
                (forall h, hi = Some h -> n <= h)%nat).
    { intros x Hx. destruct (p c) eqn:Hpc; simpl in Hx; [|discriminate].
      destruct (hi_allows hi) eqn:Hhi; [|discriminate].
      destruct (IH _ _ _ _ _ _ _ Hx) as (n & pv' & Hk & Hall & Hlen & Hlo & Hh).
      exists (S n), pv'. simpl. rewrite Hpc, Hall, Hlen.
      replace (i + S n)%nat with (S i + n)%nat by lia.
      repeat split; auto; [lia|].
      intros h ->. destruct h as [|h]; [discriminate Hhi|].
      specialize (Hh h eq_refl). lia. }
    simpl in H. destruct greedy; unfold orelse in H.
    + match type of H with
      | match ?m with _ => _ end = _ => destruct m as [x|] eqn:Em
      end.
      * injection H as <-. now apply Hmore.
      * now apply Hstop.
    + match type of H with
      | match ?m with _ => _ end = _ => destruct m as [x|] eqn:Em
      end.
      * injection H as <-. now apply Hstop.
      * now apply Hmore.
Qed.

(** A match found by a search is a match at some position of the subject. *)
Lemma search_in_match (r : regex) (subj : string) (s : string) :
  forall pv i m,
    sdrop i subj = s ->
    search_in r subj pv s i = Some m ->
    exists pv' j,
      match_here r subj (MState pv' (sdrop j subj) j []) = Some m.
Proof.
  induction s as [|c t IH]; intros pv i m Hd H; cbn [search_in] in H.
  - destruct (match_here r subj (MState pv EmptyString i [])) eqn:E; [|discriminate].
    injection H as <-. exists pv, i. now rewrite Hd.
  - destruct (match_here r subj (MState pv (String c t) i [])) eqn:E.
    + injection H as <-. exists pv, i. now rewrite Hd.
    + apply (IH (Some c) (S i)); [|assumption].
      replace (S i) with (i + 1)%nat by lia. now rewrite <- sdrop_sdrop, Hd.
Qed.

Lemma of_uint_bound (d : Decimal.uint) :
  (Pos.of_uint d < 10 ^ DecimalPos.Unsigned.usize d)%N.
Proof.
  induction d as [|d IH|d IH|d IH|d IH|d IH|d IH|d IH|d IH|d IH|d IH];
    cbn [DecimalPos.Unsigned.usize]; [reflexivity|..];
    rewrite N.pow_succ_r';
    try (cbn [Pos.of_uint]; lia);
    cbn [Pos.of_uint]; rewrite DecimalPos.Unsigned.of_uint_acc_rev;
    rewrite <- DecimalPos.Unsigned.of_uint_alt; lia.
Qed.

Lemma uint_of_digits (g : string) :
  forallb_str is_digit g = true ->
  exists d, NilEmpty.uint_of_string g = Some d /\
            DecimalPos.Unsigned.usize d = N.of_nat (String.length g).
Proof.
  induction g as [|c t IH]; intros H.
  - exists Decimal.Nil. split; reflexivity.
  - cbn [forallb_str] in H. apply andb_true_iff in H as [Hc Ht].
    destruct (IH Ht) as (d & Hd & Hu).
    cbn [NilEmpty.uint_of_string String.length]. rewrite Hd, Nat2N.inj_succ, <- Hu.
    destruct c as [[] [] [] [] [] [] [] []]; try discriminate Hc;
      eexists; split; reflexivity.
Qed.

(** [int] of one to four digits: no error, and a number below 10000. *)
Lemma int_of_digits14 (g : string) :
  forallb_str is_digit g = true ->
  (1 <= String.length g <= 4)%nat ->
  exists z, int_of_str g = Some z /\ 0 <= z <= 9999.
Proof.
  intros Hall Hlen. unfold int_of_str.
  rewrite strip_id.
  2:{ apply (forallb_str_impl is_digit); [|assumption].
      intros c Hc. now destruct (digit_facts c Hc) as (-> & _). }
  destruct g as [|c body] eqn:Eg; [simpl in Hlen; lia|]. rewrite <- Eg in *.
  assert (Hc : is_digit c = true).
  { rewrite Eg in Hall. simpl in Hall. now apply andb_true_iff in Hall as [Hc _]. }
  destruct (digit_facts c Hc) as (_ & _ & -> & -> & _).
  unfold unsigned_of_str.
  assert (Hok : digits_ok g false = true).
  { rewrite Eg. simpl. rewrite Hc. apply digits_ok_digits.
    rewrite Eg in Hall. simpl in Hall. now apply andb_true_iff in Hall as [_ Ht]. }
  rewrite Hok, drop_underscores_digits by assumption.
  destruct (uint_of_digits g Hall) as (d & -> & Hu).
  eexists. split; [reflexivity|].
  unfold Z.of_uint. pose proof (of_uint_bound d) as Hb. rewrite Hu in Hb.
  assert (10 ^ N.of_nat (String.length g) <= 10 ^ 4)%N.
  { apply N.pow_le_mono_r; lia. }
  change (10 ^ 4)%N with 10000%N in *. lia.
Qed.

(** A piece of the subject cut out by positions is a prefix of what remains
    at its start. *)
Lemma slice_sdrop (a n : nat) (s : string) :
  slice a (a + n) s = substring 0 n (sdrop a s).
Proof.
  unfold slice. replace (a + n - a)%nat with n by lia. apply substring_sdrop.
Qed.

(** What [ab_id_re] captures: one to four digits. *)
Lemma ab_id_group (subj : string) (pv : option ascii) (i : nat) (m : rematch) :
  match_here ab_id_re subj (MState pv (sdrop i subj) i []) = Some m ->
  forallb_str is_digit (group_or_empty m 1) = true /\
  (1 <= String.length (group_or_empty m 1) <= 4)%nat.
Proof.
  unfold match_here, ab_id_re, fresh, Star, digits14, lit_i, chr_i.
  cbn [seqs rmatch prev rest pos caps].
  match goal with
  | |- match ?e with _ => _ end = _ -> _ => destruct e as [st|] eqn:E
  end; [|discriminate].
  intros [= <-].
  destruct (at_word_boundary _); [|discriminate].
  destruct (sdrop i subj) as [|c1 [|c2 t]] eqn:Ed; try discriminate;
    [destruct (Ascii.eqb _ _); discriminate|].
  destruct (Ascii.eqb (lower_char c1) _); [|discriminate].
  destruct (Ascii.eqb (lower_char c2) _); [|discriminate].
  apply rep_sound in E. destruct E as (n1 & pv1 & E & _).
  cbn [prev rest pos caps] in E.
  apply rep_sound_bounds in E.
  destruct E as (n2 & pv2 & E & Hall & Hlen & Hlo & Hhi).
  cbn [prev rest pos caps] in E.
  destruct (at_word_boundary _); [|discriminate].
  injection E as <-.
  unfold group_or_empty, group. cbn [m_caps caps span_of subject Nat.eqb].
  assert (Hg : slice (S (S i) + n1) (S (S i) + n1 + n2) subj
               = substring 0 n2 (sdrop n1 t)).
  { rewrite slice_sdrop. f_equal.
    replace (S (S i) + n1)%nat with (i + (2 + n1))%nat by lia.
    rewrite <- sdrop_sdrop, Ed. reflexivity. }
  cbn [Nat.add] in Hg. rewrite Hg, Hlen. split; [assumption|]. specialize (Hhi 4%nat eq_refl). lia.
Qed.

Lemma slice_at (a b n : nat) (s : string) :
  b = (a + n)%nat -> slice a b s = substring 0 n (sdrop a s).
Proof. intros ->. apply slice_sdrop. Qed.

(** What [frac_re] captures: twice one to four digits. *)
Lemma frac_groups (subj : string) (pv : option ascii) (i : nat) (m : rematch) :
  match_here frac_re subj (MState pv (sdrop i subj) i []) = Some m ->
  (forallb_str is_digit (group_or_empty m 1) = true /\
   (1 <= String.length (group_or_empty m 1) <= 4)%nat) /\
  (forallb_str is_digit (group_or_empty m 2) = true /\
   (1 <= String.length (group_or_empty m 2) <= 4)%nat).
Proof.
  unfold match_here, frac_re, fresh, Star, digits14, chr.
  cbn [seqs rmatch prev rest pos caps].
  match goal with
  | |- match ?e with _ => _ end = _ -> _ => destruct e as [st|] eqn:E
  end; [|discriminate].
  intros [= <-].
  destruct (at_word_boundary _); [|discriminate].
  apply rep_sound_bounds in E.
  destruct E as (n1 & pv1 & E & Hall1 & Hlen1 & Hlo1 & Hhi1).
  cbn [prev rest pos caps] in E.
  apply rep_sound in E. destruct E as (n2 & pv2 & E & _).
  cbn [prev rest pos caps] in E.
  destruct (sdrop n2 (sdrop n1 (sdrop i subj))) as [|c t] eqn:Ed; [discriminate|].
  destruct (Ascii.eqb _ c); [|discriminate].
  cbn [prev rest pos caps] in E.
  apply rep_sound in E. destruct E as (n3 & pv3 & E & _).
  cbn [prev rest pos caps] in E.
  apply rep_sound_bounds in E.
  destruct E as (n4 & pv4 & E & Hall4 & Hlen4 & Hlo4 & Hhi4).
  cbn [prev rest pos caps] in E.
  destruct (at_word_boundary _); [|discriminate].
  injection E as <-.
  specialize (Hhi1 4%nat eq_refl). specialize (Hhi4 4%nat eq_refl).
  unfold group_or_empty, group. cbn [m_caps caps span_of subject Nat.eqb].
  rewrite (slice_at i (i + n1) n1) by lia.
  rewrite (slice_at (S (i + n1 + n2) + n3) (S (i + n1 + n2) + n3 + n4) n4) by lia.
  replace (sdrop (S (i + n1 + n2) + n3) subj) with (sdrop n3 t).
  2:{ replace (S (i + n1 + n2) + n3)%nat with (i + (n1 + (n2 + (1 + n3))))%nat by lia.
      rewrite <- !sdrop_sdrop, Ed. reflexivity. }
  rewrite Hlen1, Hlen4. repeat split; auto.
Qed.

Lemma ab_id_number (txt : string) (m : rematch) :
  search ab_id_re txt = Some m ->
  exists z, int_group m 1 = Some z /\ 0 <= z <= 9999.
Proof.
  intros H. apply search_in_match in H; [|reflexivity].
  destruct H as (pv & j & H). apply ab_id_group in H as [Hd Hl].
  now apply int_of_digits14.
Qed.

Lemma frac_numbers (txt : string) (m : rematch) :
  search frac_re txt = Some m ->
  (exists z, int_group m 1 = Some z /\ 0 <= z <= 9999) /\
  (exists z, int_group m 2 = Some z /\ 0 <= z <= 9999).
Proof.
  intros H. apply search_in_match in H; [|reflexivity].
  destruct H as (pv & j & H). apply frac_groups in H as [[Hd1 Hl1] [Hd2 Hl2]].
  split; now apply int_of_digits14.
Qed.

(** X25 ([parse_ab_header]): the sheet id and the two page counts read from
    a header are numbers from 0 to 9999; the conversion of a matched group
    never fails, so the id is missing only when the header holds no
    [AB <digits>] token, and the two page counts are both there or both
    missing. *)
Theorem parse_ab_header_numbers (s : string) :
  let r := parse_ab_header s in
  (forall z, hdr_id r = Some z -> 0 <= z <= 9999) /\
  (forall z, hdr_curr r = Some z -> 0 <= z <= 9999) /\
  (forall z, hdr_total r = Some z -> 0 <= z <= 9999) /\
  (hdr_id r = None <-> search ab_id_re (clean_header_text s) = None) /\
  (hdr_curr r = None <-> hdr_total r = None).
Proof.
  cbv zeta. unfold parse_ab_header.
  destruct (String.eqb_spec (clean_header_text s) EmptyString) as [E|_].
  - rewrite E. cbn. repeat split; try discriminate; reflexivity.
  - cbv zeta. unfold hdr_id, hdr_curr, hdr_total. cbn [fst snd].
    destruct (search ab_id_re (clean_header_text s)) as [m|] eqn:Em;
      destruct (search frac_re (clean_header_text s)) as [f|] eqn:Ef;
      cbn [opt_int_group].
    all: try (destruct (ab_id_number _ _ Em) as (z0 & -> & Hz0)).
    all: try (destruct (frac_numbers _ _ Ef) as [(z1 & -> & Hz1) (z2 & -> & Hz2)]).
    all: repeat match goal with |- _ /\ _ => split | |- _ <-> _ => split end.
    all: try discriminate; try reflexivity.
    all: intros z [= <-]; assumption.
Qed.

(** X26 ([header_ab_on_page]): the sheet id found at the top of a page, or
    else anywhere on it, is a number from 0 to 9999, and there is none only
    when neither text holds an [AB <digits>] token. *)
Theorem header_ab_on_page_number (text : string) :
  (forall z, header_ab_on_page text = Some z -> 0 <= z <= 9999) /\
  (header_ab_on_page text = None ->
   search ab_id_re (clean_header_text text) = None).
Proof.
  unfold header_ab_on_page.
  destruct (String.eqb_spec text EmptyString) as [E|_].
  - subst text. split; [discriminate|reflexivity].
  - cbv zeta.
    match goal with
    | |- context [search ab_id_re (clean_header_text (slice ?a ?b ?c))] =>
        destruct (search ab_id_re (clean_header_text (slice a b c))) as [m|] eqn:Em
    end.
    + destruct (ab_id_number _ _ Em) as (z0 & -> & Hz0).
      split; [now intros z [= <-]|discriminate].
    + destruct (search ab_id_re (clean_header_text text)) as [m|] eqn:Em2.
      * destruct (ab_id_number _ _ Em2) as (z0 & -> & Hz0).
        split; [now intros z [= <-]|discriminate].
      * split; [discriminate|reflexivity].
Qed.

(** ** Ids written by the identification *)

(** What a pattern leaves to its continuation: a state at its position in
    the subject, with the groups that the pattern does not close as they
    were. *)
Lemma rmatch_sound (subj : string) (r : regex) :
  forall st k res,
    rmatch r st k = Some res ->
    exists st',
      k st' = Some res /\
      (positioned subj st -> positioned subj st') /\
      (forall n, no_grp n r = true -> span_of n (caps st') = span_of n (caps st)).
Proof.
  induction r as [| p | r1 IH1 r2 IH2 | r1 IH1 r2 IH2 | p lo hi g | g r1 IH1 | | |];
    intros st k res H; cbn [rmatch] in H.
  - exists st. auto.
  - destruct (rest st) as [|c t] eqn:Er; [discriminate|].
    destruct (p c); [|discriminate].
    eexists. split; [exact H|]. split; [|reflexivity].
    unfold positioned. cbn [rest pos]. intros Hp. rewrite Er in Hp.
    replace (S (pos st)) with (pos st + 1)%nat by lia.
    now rewrite <- sdrop_sdrop, <- Hp.
  - apply IH1 in H. destruct H as (st1 & H & Hp1 & Hc1).
    apply IH2 in H. destruct H as (st2 & H & Hp2 & Hc2).
    exists st2. split; [assumption|]. split; [auto|].
    intros n Hn. cbn [no_grp] in Hn. apply andb_true_iff in Hn as [Hn1 Hn2].
    now rewrite Hc2, Hc1.
  - unfold orelse in H. destruct (rmatch r1 st k) as [x|] eqn:E1.
    + injection H as <-. apply IH1 in E1. destruct E1 as (st1 & H & Hp1 & Hc1).
      exists st1. split; [assumption|]. split; [auto|].
      intros n Hn. cbn [no_grp] in Hn. apply andb_true_iff in Hn as [Hn1 _]. auto.
    + apply IH2 in H. destruct H as (st2 & H & Hp2 & Hc2).
      exists st2. split; [assumption|]. split; [auto|].
      intros n Hn. cbn [no_grp] in Hn. apply andb_true_iff in Hn as [_ Hn2]. auto.
  - apply rep_sound in H. destruct H as (n & pv' & H & _).
    eexists. split; [exact H|]. split; [|reflexivity].
    unfold positioned. cbn [rest pos]. intros ->. apply sdrop_sdrop.
  - apply IH1 in H. destruct H as (st1 & H & Hp1 & Hc1).
    eexists. split; [exact H|]. split; [exact Hp1|].
    intros n Hn. cbn [no_grp] in Hn. apply andb_true_iff in Hn as [Hg Hn1].
    cbn [caps span_of]. apply negb_true_iff in Hg. rewrite Hg. auto.
  - destruct (at_word_boundary st); [|discriminate]. exists st. auto.
  - destruct (Nat.eqb (pos st) 0); [|discriminate]. exists st. auto.
  - destruct (at_end st); [|discriminate]. exists st. auto.
Qed.

Lemma match_here_positioned (r : regex) (subj : string) (st : mstate) (m : rematch) :
  match_here r subj st = Some m -> positioned subj st -> positioned subj (m_after m).
Proof.
  unfold match_here. destruct (rmatch r (fresh st) _) as [st'|] eqn:E; [|discriminate].
  intros [= <-] Hp. cbn [m_after].
  apply (rmatch_sound subj) in E. destruct E as (st1 & [= ->] & Hp1 & _).
  apply Hp1. exact Hp.
Qed.

Lemma search_in_positioned (r : regex) (subj : string) (s : string) :
  forall pv i m,
    sdrop i subj = s ->
    search_in r subj pv s i = Some m ->
    positioned subj (m_after m).
Proof.
  induction s as [|c t IH]; intros pv i m Hd H; cbn [search_in] in H.
  - destruct (match_here r subj (MState pv EmptyString i [])) eqn:E; [|discriminate].
    injection H as <-. apply (match_here_positioned _ _ _ _ E).
    unfold positioned. cbn [rest pos]. now rewrite Hd.
  - destruct (match_here r subj (MState pv (String c t) i [])) eqn:E.
    + injection H as <-. apply (match_here_positioned _ _ _ _ E).
      unfold positioned. cbn [rest pos]. now rewrite Hd.
    + apply (IH (Some c) (S i)); [|assumption].
      replace (S i) with (i + 1)%nat by lia. now rewrite <- sdrop_sdrop, Hd.
Qed.

(** Every match that [finditer] gives is a match at some position of the
    subject. *)
Lemma finditer_from_sound (r : regex) (subj : string) (fuel : nat) :
  forall st m,
    positioned subj st ->
    In m (finditer_from fuel r subj st) ->
    exists pv j, match_here r subj (MState pv (sdrop j subj) j []) = Some m.
Proof.
  induction fuel as [|fuel IH]; intros st m Hp Hin; cbn [finditer_from] in Hin;
    [destruct Hin|].
  unfold search_from in Hin.
  destruct (search_in r subj (prev st) (rest st) (pos st)) as [m0|] eqn:E;
    [|destruct Hin].
  pose proof (search_in_positioned r subj _ _ _ _ (eq_sym Hp) E) as Hp0.
  destruct Hin as [<-|Hin].
  - now apply (search_in_match r subj _ _ _ _ (eq_sym Hp) E).
  - destruct (Nat.ltb (m_start m0) (m_end m0)); [now apply (IH (m_after m0))|].
    unfold step_over in Hin.
    destruct (rest (m_after m0)) as [|c t] eqn:Er; [destruct Hin|].
    apply (IH (MState (Some c) t (S (pos (m_after m0))) [])); [|assumption].
    unfold positioned in *. cbn [rest pos]. rewrite Er in Hp0.
    replace (S (pos (m_after m0))) with (pos (m_after m0) + 1)%nat by lia.
    now rewrite <- sdrop_sdrop, <- Hp0.
Qed.

Lemma finditer_sound (r : regex) (s : string) (m : rematch) :
  In m (finditer r s) ->
  exists pv j, match_here r s (MState pv (sdrop j s) j []) = Some m.
Proof.
  unfold finditer. apply finditer_from_sound. reflexivity.
Qed.

(** The shared start of the sheet-token patterns closes group 1 over one to
    four digits. *)
Lemma ab_number_sound (subj : string) (st : mstate) (k : mstate -> option mstate)
    (res : mstate) :
  rmatch ab_number_re st k = Some res ->
  positioned subj st ->
  exists st' a b,
    k st' = Some res /\ positioned subj st' /\
    span_of 1 (caps st') = Some (a, b) /\ short_number (slice a b subj).
Proof.
  unfold ab_number_re, Star, digits14, lit_i, chr_i, positioned.
  cbn [seqs rmatch prev rest pos caps].
  intros E Hp.
  destruct (at_word_boundary _); [|discriminate].
  destruct (rest st) as [|c1 [|c2 t]] eqn:Ed; try discriminate;
    [destruct (Ascii.eqb _ _); discriminate|].
  destruct (Ascii.eqb (lower_char c1) _); [|discriminate].
  destruct (Ascii.eqb (lower_char c2) _); [|discriminate].
  apply rep_sound in E. destruct E as (n1 & pv1 & E & _).
  cbn [prev rest pos caps] in E.
  apply rep_sound_bounds in E.
  destruct E as (n2 & pv2 & E & Hall & Hlen & Hlo & Hhi).
  cbn [prev rest pos caps] in E.
  assert (Hd : forall n, sdrop (S (S (pos st)) + n) subj = sdrop n t).
  { intros n. replace (S (S (pos st)) + n)%nat with (pos st + (2 + n))%nat by lia.
    rewrite <- sdrop_sdrop, <- Hp. reflexivity. }
  eexists _, _, _. split; [exact E|]. cbn [rest pos caps span_of Nat.eqb].
  split; [|split; [reflexivity|]].
  - replace (S (S (pos st)) + n1 + n2)%nat with (S (S (pos st)) + (n1 + n2))%nat by lia.
    rewrite Hd. apply sdrop_sdrop.
  - rewrite slice_sdrop, Hd. unfold short_number. rewrite Hlen.
    specialize (Hhi 4%nat eq_refl). auto.
Qed.

(** A pattern made of the shared start and of a rest that closes no group
    1 captures one to four digits as group 1. *)
Lemma ab_number_group (tail : regex) (subj : string) (pv : option ascii) (i : nat)
    (m : rematch) :
  no_grp 1 tail = true ->
  match_here (Seq ab_number_re tail) subj (MState pv (sdrop i subj) i []) = Some m ->
  short_number (group_or_empty m 1).
Proof.
  intros Hn. unfold match_here.
  destruct (rmatch _ _ _) as [st'|] eqn:E; [|discriminate].
  intros [= <-]. cbn [rmatch] in E.
  apply (ab_number_sound subj) in E; [|reflexivity].
  destruct E as (st1 & a & b & E & Hp & Hs & Hnum).
  apply (rmatch_sound subj) in E. destruct E as (st2 & [= ->] & _ & Hc).
  unfold group_or_empty, group. cbn [m_caps subject].
  now rewrite (Hc 1%nat Hn), Hs.
Qed.

Lemma ab_token_group (subj : string) (m : rematch) :
  In m (finditer ab_token_re subj) -> short_number (group_or_empty m 1).
Proof.
  intros H. apply finditer_sound in H. destruct H as (pv & j & H).
  apply (ab_number_group (seqs [WordB; opt_separator]) subj pv j m); [reflexivity|].
  exact H.
Qed.

Lemma global_group (subj : string) (m : rematch) :
  In m (finditer global_re subj) -> short_number (group_or_empty m 1).
Proof.
  intros H. apply finditer_sound in H. destruct H as (pv & j & H).
  apply (ab_number_group
           (seqs [WordB; opt_separator; Grp 2 (Rep is_dot 1 None false);
                  Plus is_space; Grp 3 digits14; WordB]) subj pv j m);
    [reflexivity|].
  exact H.
Qed.

Lemma header_ab_on_page_range (text : string) (z : Z) :
  header_ab_on_page text = Some z -> 0 <= z <= 9999.
Proof.
  unfold header_ab_on_page.
  destruct (String.eqb text EmptyString); [discriminate|]. cbv zeta.
  match goal with
  | |- context [search ab_id_re (clean_header_text (slice ?a ?b ?c))] =>
      destruct (search ab_id_re (clean_header_text (slice a b c))) as [m|] eqn:Em
  end.
  - destruct (ab_id_number _ _ Em) as (z0 & -> & Hz0). now intros [= <-].
  - destruct (search ab_id_re (clean_header_text text)) as [m|] eqn:Em2;
      [|discriminate].
    destruct (ab_id_number _ _ Em2) as (z0 & -> & Hz0). now intros [= <-].
Qed.

Lemma parse_ab_header_id_range (s : string) (z : Z) :
  hdr_id (parse_ab_header s) = Some z -> 0 <= z <= 9999.
Proof.
  unfold parse_ab_header.
  destruct (String.eqb (clean_header_text s) EmptyString); [discriminate|].
  cbv zeta. unfold hdr_id. cbn [fst snd].
  destruct (search ab_id_re (clean_header_text s)) as [m|] eqn:Em; [|discriminate].
  destruct (ab_id_number _ _ Em) as (z0 & E & Hz0). cbn [opt_int_group].
  rewrite E. now intros [= <-].
Qed.

Lemma short_number_coerce (g : string) :
  short_number g -> 0 <= _coerce_id_to_int (Atom (SStr g)) <= 9999.
Proof.
  intros [Hall Hlen]. cbn [_coerce_id_to_int]. unfold coerce_str, strip.
  rewrite strip_id.
  2:{ apply (forallb_str_impl is_digit); [|assumption].
      intros c Hc. now destruct (digit_facts c Hc) as (_ & -> & _). }
  destruct (String.eqb g EmptyString); [lia|].
  destruct (int_of_digits14 g Hall Hlen) as (z & -> & Hz). exact Hz.
Qed.

Lemma new_ids_short_refl (d : PdfDocument) : new_ids_short d d.
Proof. intros k Hk. now left. Qed.

Lemma new_ids_short_trans (d1 d2 d3 : PdfDocument) :
  new_ids_short d1 d2 -> new_ids_short d2 d3 -> new_ids_short d1 d3.
Proof.
  intros H12 H23 k Hk. destruct (H23 k Hk) as [H|H]; [now apply H12|now right].
Qed.

Lemma add_new_id (d : PdfDocument) (idv : pyval) (name : string) (pages : list pyval) :
  0 <= _coerce_id_to_int idv <= 9999 ->
  new_ids_short d (add_working_sheet d idv name pages).
Proof.
  intros Hr k Hk. apply keys_add in Hk. destruct Hk as [->|Hk]; [now right|now left].
Qed.

Lemma new_ids_fold {A : Type} (f : PdfDocument -> A -> PdfDocument) (l : list A) :
  (forall d x, In x l -> new_ids_short d (f d x)) ->
  forall d, new_ids_short d (fold_left f l d).
Proof.
  induction l as [|x t IH]; intros Hf d; simpl; [apply new_ids_short_refl|].
  eapply new_ids_short_trans; [apply Hf; now left|].
  apply IH. intros; apply Hf; now right.
Qed.

Lemma toc_entries_ids (toc_text : string) (ms : list rematch) :
  (forall m, In m ms -> short_number (group_or_empty m 1)) ->
  forall e, In e (toc_entries toc_text ms) -> short_number (fst (fst e)).
Proof.
  induction ms as [|m rest IH]; intros Hms e He; cbn [toc_entries] in He;
    [destruct He|].
  destruct He as [<-|He].
  - unfold toc_entry_of. cbv zeta.
    destruct (match search trail_re _ with Some _ => _ | None => _ end) as [rn pn].
    cbn [fst]. apply Hms. now left.
  - apply IH; [|assumption]. intros m' Hm'. apply Hms. now right.
Qed.

Lemma fix_entries_ids (pages : list string) (toc_text : string) (e : toc_entry) :
  In e (fix_entries pages (parse_toc toc_text)) -> short_number (fst (fst e)).
Proof.
  unfold fix_entries. rewrite in_map_iff. intros (e0 & <- & He0).
  assert (H0 : short_number (fst (fst e0))).
  { unfold parse_toc in He0.
    destruct (String.eqb toc_text EmptyString); [destruct He0|].
    apply (toc_entries_ids toc_text _ (ab_token_group toc_text) e0 He0). }
  destruct e0 as [[id_str name] [p|]]; exact H0.
Qed.

Lemma add_toc_entry_ids (pages : list string) (d : PdfDocument) (e : toc_entry) :
  short_number (fst (fst e)) -> new_ids_short d (add_toc_entry pages d e).
Proof.
  destruct e as [[id_str name] start_page]. cbn [fst]. intros Hs.
  unfold add_toc_entry. apply add_new_id.
  pose proof (short_number_coerce id_str Hs) as Hr.
  destruct (Z.eqb_spec (_coerce_id_to_int (Atom (SStr id_str))) 0) as [E|_].
  - exact Hr.
  - now rewrite coerce_str_of_int.
Qed.

Lemma scan_match_ids (pages : list string) (st : scan_state) (m : rematch) :
  short_number (group_or_empty m 1) ->
  new_ids_short (fst st) (fst (scan_match pages st m)).
Proof.
  intros Hs. destruct st as [doc ids]. unfold scan_match.
  destruct (mem_id _ ids); [apply new_ids_short_refl|]. cbn [fst].
  apply add_new_id. rewrite coerce_str_of_int. now apply short_number_coerce.
Qed.

Lemma scan_fold_ids (pages : list string) (ms : list rematch) :
  (forall m, In m ms -> short_number (group_or_empty m 1)) ->
  forall st, new_ids_short (fst st) (fst (fold_left (scan_match pages) ms st)).
Proof.
  induction ms as [|m t IH]; intros Hms st; simpl; [apply new_ids_short_refl|].
  eapply new_ids_short_trans; [apply scan_match_ids, Hms; now left|].
  apply IH. intros; apply Hms; now right.
Qed.

Lemma scan_pages_ids (pages txts : list string) :
  forall st, new_ids_short (fst st) (fst (fold_left (scan_page pages) txts st)).
Proof.
  induction txts as [|txt t IH]; intros st; simpl; [apply new_ids_short_refl|].
  eapply new_ids_short_trans; [|apply IH].
  unfold scan_page. destruct (String.eqb txt EmptyString); [apply new_ids_short_refl|].
  apply scan_fold_ids. apply global_group.
Qed.

Lemma relax_range (pages : list string) :
  forall hm, Forall (fun v => 0 <= v <= 9999) hm ->
             Forall (fun v => 0 <= v <= 9999) (relax pages hm).
Proof.
  induction pages as [|txt t IH]; intros [|label ht] H; cbn [relax]; try assumption.
  inversion H as [|? ? Hl Ht]; subst. constructor; [|now apply IH].
  unfold relabel. destruct (Z.eqb label 0); [|assumption].
  destruct (hdr_id (parse_ab_header txt)) as [z|] eqn:E; cbn [nonzero]; [|assumption].
  destruct (Z.eqb z 0); [assumption|]. now apply (parse_ab_header_id_range txt).
Qed.

Lemma header_map_range (pages : list string) :
  Forall (fun v => 0 <= v <= 9999) (header_map pages).
Proof.
  assert (H : Forall (fun v => 0 <= v <= 9999) (header_labels pages)).
  { unfold header_labels. rewrite Forall_map, Forall_forall. intros txt _.
    destruct (header_ab_on_page txt) as [z|] eqn:E; cbn [label_of]; [|lia].
    now apply (header_ab_on_page_range txt). }
  unfold header_map. cbv zeta. destruct (_ <? _); [now apply relax_range|assumption].
Qed.

Lemma blocks_loop_ids (pages : list string) (hm : list Z) :
  Forall (fun v => 0 <= v <= 9999) hm ->
  forall fuel i,
    Forall (fun b : block => 0 <= fst (fst b) <= 9999) (blocks_loop pages hm fuel i).
Proof.
  intros Hhm.
  assert (Hnth : forall i, 0 <= nth i hm 0 <= 9999).
  { intros i. destruct (Nat.lt_ge_cases i (List.length hm)) as [Hi|Hi].
    - rewrite Forall_forall in Hhm. apply Hhm, nth_In, Hi.
    - rewrite nth_overflow by assumption. lia. }
  induction fuel as [|fuel IH]; intros i; cbn [blocks_loop]; [constructor|].
  destruct (Nat.leb _ i); [constructor|].
  destruct (0 <? nth i hm 0); [|apply IH].
  destruct (both_nonzero _ _) as [[curr total_cnt]|];
    (constructor; [cbn [fst]; apply Hnth|apply IH]).
Qed.

Lemma add_block_ids (pages : list string) (names : odict Z string)
    (d : PdfDocument) (b : block) :
  0 <= fst (fst b) <= 9999 -> new_ids_short d (add_block pages names d b).
Proof.
  destruct b as [[id_int start_page] end_page]. cbn [fst]. intros Hr.
  unfold add_block.
  destruct (id_int <=? 0); [apply new_ids_short_refl|].
  destruct (end_page <? start_page); [apply new_ids_short_refl|].
  destruct (_ && _)%bool; [apply new_ids_short_refl|].
  apply add_new_id. now rewrite coerce_str_of_int.
Qed.

(** X27 ([identify_working_sheets]): the identification writes only under
    ids from 0 to 9999: every id of the returned document was an id of the
    document before, or is such a number. *)
Theorem identify_new_ids (pages : list string) (doc : PdfDocument) (k : Z) :
  In k (ODict.keys (working_sheets (identify_working_sheets pages doc))) ->
  In k (ODict.keys (working_sheets doc)) \/ 0 <= k <= 9999.
Proof.
  revert k. change (new_ids_short doc (identify_working_sheets pages doc)).
  unfold identify_working_sheets. destruct pages as [|p0 ps]; [apply new_ids_short_refl|].
  set (pages := p0 :: ps). cbv zeta.
  set (es := fix_entries pages (parse_toc (toc_text_of pages))).
  set (doc1 := add_toc_entries pages doc es).
  set (doc2 := global_scan pages doc1).
  apply (new_ids_short_trans doc doc1); [|apply (new_ids_short_trans doc1 doc2)].
  - unfold doc1, add_toc_entries. apply new_ids_fold. intros d e He.
    apply add_toc_entry_ids. now apply (fix_entries_ids pages (toc_text_of pages)).
  - unfold doc2, global_scan.
    exact (scan_pages_ids pages pages (doc1, ODict.keys (working_sheets doc1))).
  - unfold header_pass. apply new_ids_fold. intros d b Hb.
    apply add_block_ids.
    pose proof (blocks_loop_ids pages (header_map pages) (header_map_range pages)
                  (List.length pages) 0) as Hall.
    rewrite Forall_forall in Hall. now apply Hall.
Qed.

Lemma identify_new_ids_witness :
  let pages := [(heading_worksheets ++ " AB 8 Tagebuch")%string] in
  In 8 (ODict.keys (working_sheets (identify_working_sheets pages (empty_doc "f" "p")))) /\
  (In 8 (ODict.keys (working_sheets (empty_doc "f" "p"))) \/ 0 <= 8 <= 9999).
Proof.
  cbv zeta.
  assert (H : In 8 (ODict.keys (working_sheets
                (identify_working_sheets
                   [(heading_worksheets ++ " AB 8 Tagebuch")%string] (empty_doc "f" "p")))))
    by (vm_compute; auto).
  split; [exact H|].
  exact (identify_new_ids _ _ _ H).
Defined.
